(** * Antigravity workflow export, command seeding, quick sync and init

    A shallow embedding of
    - the Antigravity workflow format ([toAntigravityFilename],
      [deriveDescription], [ensureSteps], [toAntigravityWorkflowContent]),
    - the command generator ([generateCommands]) with the templates of
      [src/generators/commands/commandTemplates.ts] ([PREDEFINED_COMMANDS]),
    - [src/services/quickSync/quickSyncService.ts] ([QuickSyncService.run],
      [exportCommandsToAntigravity]),
    - [src/services/init/initService.ts] ([resolveScaffoldType] and the
      methods of [InitService], in the module [InitService]).

    JavaScript strings are sequences of UTF-16 code units: a string is a
    [list N], one number per code unit.  Regular expressions are embedded as
    syntax trees run by a backtracking matcher that follows the ECMAScript
    pattern semantics (leftmost match, greedy and lazy quantifiers tried in
    priority order, [^] and [$] under the [m] flag). *)

From Stdlib Require Import NArith String Ascii.
From stdpp Require Import base option list gmap.

Local Open Scope N_scope.

(** ** Strings *)

Abbreviation jsstring := (list N).

(** [js "..."] is the string literal with the escape [\n] understood as in
    JavaScript; every other character stands for itself (ASCII only). *)
Fixpoint unescape (l : list N) : jsstring :=
  match l with
  | 92 :: 110 :: l' => 10 :: unescape l'
  | x :: l' => x :: unescape l'
  | [] => []
  end.

Definition js (s : string) : jsstring :=
  unescape (N_of_ascii <$> list_ascii_of_string s).

Arguments js : simpl never.

(** WhiteSpace and LineTerminator of ECMAScript: what [\s] matches and what
    [trim] removes. *)
Definition isLineTerminator (c : N) : bool :=
  (c =? 10) || (c =? 13) || (c =? 8232) || (c =? 8233).

Definition isWhiteSpace (c : N) : bool :=
  (c =? 9) || (c =? 11) || (c =? 12) || (c =? 32) || (c =? 160)
  || (c =? 5760) || ((8192 <=? c) && (c <=? 8202)) || (c =? 8239)
  || (c =? 8287) || (c =? 12288) || (c =? 65279).

Definition isSpace (c : N) : bool := isWhiteSpace c || isLineTerminator c.

Definition isDigit (c : N) : bool := (48 <=? c) && (c <=? 57).

(** [.] without the [s] flag. *)
Definition isDot (c : N) : bool := negb (isLineTerminator c).

Definition isChar (x : N) (c : N) : bool := c =? x.

(** A letter under the [i] flag: Canonicalize maps a code unit to its upper
    case, and never maps a code unit above 0x7F to an ASCII one, so an ASCII
    letter matches exactly its two cases. *)
Definition asciiUpper (c : N) : N := if (97 <=? c) && (c <=? 122) then c - 32 else c.
Definition asciiLower (c : N) : N := if (65 <=? c) && (c <=? 90) then c + 32 else c.
Definition isCharI (x : N) (c : N) : bool := (c <? 128) && (asciiUpper c =? asciiUpper x).

Fixpoint takeWhile (p : N -> bool) (s : jsstring) : jsstring :=
  match s with
  | x :: s' => if p x then x :: takeWhile p s' else []
  | [] => []
  end.

Fixpoint dropWhile (p : N -> bool) (s : jsstring) : jsstring :=
  match s with
  | x :: s' => if p x then dropWhile p s' else s
  | [] => []
  end.

Definition trimStart (s : jsstring) : jsstring := dropWhile isSpace s.

Definition trimEnd (s : jsstring) : jsstring := rev (trimStart (rev s)).

Definition trim (s : jsstring) : jsstring := trimEnd (trimStart s).

(** [s.slice(0, n)] for [0 <= n]. *)
Definition slice0 (n : nat) (s : jsstring) : jsstring := take n s.

Fixpoint join (sep : jsstring) (parts : list jsstring) : jsstring :=
  match parts with
  | [] => []
  | [p] => p
  | p :: ps => p ++ sep ++ join sep ps
  end.

(** ** Regular expressions *)

Inductive regex : Type :=
| REmpty
| RChar (p : N -> bool)
| RSeq (r1 r2 : regex)
| RAlt (r1 r2 : regex)
| RStar (greedy : bool) (r : regex)
| RBol
| REol
| RGroup (r : regex).

Definition RPlus (greedy : bool) (r : regex) : regex := RSeq r (RStar greedy r).

(** The matcher state is the input already consumed, most recent code unit
    first, the input still ahead and the text of capture group 1.  A
    continuation receives the state after a sub-pattern; [None] asks the
    sub-pattern for its next alternative. *)
Definition mcont : Type := jsstring -> jsstring -> option jsstring ->
                           option (jsstring * jsstring * option jsstring).

Definition atBol (multiline : bool) (b : jsstring) : bool :=
  match b with
  | [] => true
  | x :: _ => multiline && isLineTerminator x
  end.

Definition atEol (multiline : bool) (a : jsstring) : bool :=
  match a with
  | [] => true
  | x :: _ => multiline && isLineTerminator x
  end.

(** The iteration of a quantified sub-pattern [step]: an iteration that
    consumes nothing is rejected, so [length a + 1] rounds always suffice. *)
Definition star_loop (step : mcont -> mcont) (greedy : bool) (k : mcont)
  : nat -> mcont :=
  fix loop (fuel : nat) (b a : jsstring) (c : option jsstring) {struct fuel} :=
    match fuel with
    | O => k b a c
    | S fuel' =>
        let again :=
          step (fun b' a' c' =>
                  if (length a' <? length a)%nat then loop fuel' b' a' c' else None)
               b a c in
        if greedy then
          match again with Some v => Some v | None => k b a c end
        else
          match k b a c with Some v => Some v | None => again end
    end.

Fixpoint rmatch (ml : bool) (r : regex) (k : mcont)
         (b a : jsstring) (c : option jsstring) {struct r}
  : option (jsstring * jsstring * option jsstring) :=
  match r with
  | REmpty => k b a c
  | RChar p =>
      match a with
      | x :: a' => if p x then k (x :: b) a' c else None
      | [] => None
      end
  | RSeq r1 r2 => rmatch ml r1 (rmatch ml r2 k) b a c
  | RAlt r1 r2 =>
      match rmatch ml r1 k b a c with
      | Some v => Some v
      | None => rmatch ml r2 k b a c
      end
  | RStar greedy r1 => star_loop (rmatch ml r1) greedy k (S (length a)) b a c
  | RBol => if atBol ml b then k b a c else None
  | REol => if atEol ml a then k b a c else None
  | RGroup r1 =>
      rmatch ml r1
        (fun b' a' _ => k b' a' (Some (take (length a - length a') a))) b a c
  end.

Definition mfinal : mcont := fun b a c => Some (b, a, c).

Record rmatched : Type := RMatched {
  m_pre : jsstring;        (* input skipped before the match *)
  m_text : jsstring;       (* the matched text *)
  m_post : jsstring;       (* input after the match *)
  m_ctx : jsstring;        (* everything before [m_post], most recent first *)
  m_group : option jsstring
}.

(** [RegExp.prototype.exec] from a position: the first position, scanning to
    the right, where the pattern matches.  [b] is what precedes the
    position (for [^]), [skipped] what the scan stepped over. *)
Fixpoint exec_from (ml : bool) (r : regex) (skipped b a : jsstring) {struct a}
  : option rmatched :=
  match rmatch ml r mfinal b a None with
  | Some (b1, a1, c) =>
      Some (RMatched (rev skipped) (take (length a - length a1) a) a1 b1 c)
  | None =>
      match a with
      | [] => None
      | x :: a' => exec_from ml r (x :: skipped) (x :: b) a'
      end
  end.

Definition exec (ml : bool) (r : regex) (s : jsstring) : option rmatched :=
  exec_from ml r [] [] s.

Definition test (ml : bool) (r : regex) (s : jsstring) : bool :=
  match exec ml r s with Some _ => true | None => false end.

(** [s.replace(r, repl)] for a pattern without the [g] flag and a
    replacement text without [$]. *)
Definition replace_first (ml : bool) (r : regex) (repl s : jsstring) : jsstring :=
  match exec ml r s with
  | Some m => m_pre m ++ repl ++ m_post m
  | None => s
  end.

(** [s.replace(r, repl)] with the [g] flag: matches are found one after the
    other, each search starting where the previous match ended; after an
    empty match the search steps one code unit ahead. *)
Fixpoint replace_all_from (fuel : nat) (ml : bool) (r : regex) (repl b a : jsstring)
  : jsstring :=
  match fuel with
  | O => a
  | S fuel' =>
      match exec_from ml r [] b a with
      | None => a
      | Some m =>
          m_pre m ++ repl ++
            match m_text m, m_post m with
            | [], x :: post' =>
                x :: replace_all_from fuel' ml r repl (x :: m_ctx m) post'
            | [], [] => []
            | _ :: _, post => replace_all_from fuel' ml r repl (m_ctx m) post
            end
      end
  end.

Definition replace_all (ml : bool) (r : regex) (repl s : jsstring) : jsstring :=
  replace_all_from (S (length s)) ml r repl [] s.

(** [s.split(r)] without a limit, for a pattern without capture groups:
    [cur] is the piece collected since the last separator, most recent
    first. *)
Fixpoint split_from (fuel : nat) (ml : bool) (r : regex) (b cur a : jsstring)
  : list jsstring :=
  match fuel with
  | O => [rev cur ++ a]
  | S fuel' =>
      match a with
      | [] => [rev cur]
      | x :: a' =>
          match rmatch ml r mfinal b a None with
          | Some (b1, a1, _) =>
              if (length a1 =? length a)%nat && bool_decide (cur = [])
              then split_from fuel' ml r (x :: b) (x :: cur) a'
              else rev cur :: split_from fuel' ml r b1 [] a1
          | None => split_from fuel' ml r (x :: b) (x :: cur) a'
          end
      end
  end.

Definition split (ml : bool) (r : regex) (s : jsstring) : list jsstring :=
  match s with
  | [] => match rmatch ml r mfinal [] [] None with Some _ => [] | None => [[]] end
  | _ => split_from (2 * length s + 2) ml r [] [] s
  end.

(** A literal run of code units. *)
Fixpoint RLit (l : jsstring) : regex :=
  match l with
  | [] => REmpty
  | x :: l' => RSeq (RChar (isChar x)) (RLit l')
  end.

(** ** The Antigravity workflow format *)

Definition DESCRIPTION_MAX_LENGTH : nat := 250.

(** [/\.md$/i] *)
Definition re_md_ext : regex :=
  RSeq (RChar (isChar 46)) (RSeq (RChar (isCharI 109)) (RSeq (RChar (isCharI 100)) REol)).

(** [/-/g] *)
Definition re_dash : regex := RChar (isChar 45).

(** [/^#\s+(.+?)(?:\n|$)/m] *)
Definition re_heading : regex :=
  RSeq RBol
    (RSeq (RChar (isChar 35))
       (RSeq (RPlus true (RChar isSpace))
          (RSeq (RGroup (RPlus false (RChar isDot)))
             (RAlt (RChar (isChar 10)) REol)))).

(** [/\n/], also with the [g] flag *)
Definition re_newline : regex := RChar (isChar 10).

(** [/\s+/g] *)
Definition re_spaces : regex := RPlus true (RChar isSpace).

(** [/^\d+\.\s+/m] *)
Definition re_numbered : regex :=
  RSeq RBol
    (RSeq (RPlus true (RChar isDigit))
       (RSeq (RChar (isChar 46)) (RPlus true (RChar isSpace)))).

(** [/^---[\s\S]*?---\s*/m] *)
Definition re_frontmatter : regex :=
  RSeq RBol
    (RSeq (RLit [45; 45; 45])
       (RSeq (RStar false (RChar (fun _ => true)))
          (RSeq (RLit [45; 45; 45]) (RStar true (RChar isSpace))))).

Section Format.

(** [String.prototype.toLowerCase] on a string that has a code unit above
    0x7F is the Unicode default case conversion, which is not part of
    this repository: it is a parameter.  On ASCII strings the conversion
    maps [A-Z] to [a-z]. *)
Variable unicodeLower : jsstring -> jsstring.

Definition toLowerCase (s : jsstring) : jsstring :=
  if forallb (fun c => c <? 128) s then asciiLower <$> s else unicodeLower s.

Definition toAntigravityFilename (filename : jsstring) : jsstring :=
  let base := replace_first false re_md_ext [] filename in
  let withUnderscores := toLowerCase (replace_all false re_dash (js "_") base) in
  withUnderscores ++ js ".md".

End Format.

(** [headingMatch[1]]: group 1 takes part in every match of [re_heading]
    (lemma [re_heading_group_defined] below), so the access never yields
    [undefined]. *)
Definition group1 (m : rmatched) : jsstring := default [] (m_group m).

(** The constants [firstLine] and [cleaned] of [deriveDescription]. *)
Definition derive_firstLine (content : jsstring) : jsstring :=
  let trimmed := trim content in
  let headingMatch := exec true re_heading trimmed in
  match headingMatch with
  | Some m => trim (group1 m)
  | None =>
      match split false re_newline trimmed with
      | l0 :: _ => if bool_decide (trim l0 = []) then js "Workflow" else trim l0
      | [] => js "Workflow"
      end
  end.

Definition derive_cleaned (content : jsstring) : jsstring :=
  trim (replace_all false re_spaces (js " ") (derive_firstLine content)).

Definition deriveDescription (content : jsstring) : jsstring :=
  let cleaned := derive_cleaned content in
  if (length cleaned <=? DESCRIPTION_MAX_LENGTH)%nat then cleaned
  else slice0 (DESCRIPTION_MAX_LENGTH - 3) cleaned ++ js "...".

Definition ensureSteps (body : jsstring) : jsstring :=
  let trimmed := trim body in
  if test true re_numbered trimmed then trimmed
  else js "1. " ++ join (js "\n   ") (split false re_newline trimmed).

(** The [options] argument: absent, or an object whose two fields are each
    optional. *)
Record workflowOptions : Type := WorkflowOptions {
  opt_description : option jsstring;
  opt_ensureSteps : option bool
}.

(** The constants [finalDescription], as it is written into the front
    matter, and [bodyWithSteps] of [toAntigravityWorkflowContent]. *)
Definition frontmatterDescription
           (content : jsstring) (options : option workflowOptions) : jsstring :=
  let description :=
    match options ≫= opt_description with
    | Some d =>
        if negb (bool_decide (d = [])) && (length d <=? DESCRIPTION_MAX_LENGTH)%nat
        then d else deriveDescription content
    | None => deriveDescription content
    end in
  let finalDescription :=
    if (DESCRIPTION_MAX_LENGTH <? length description)%nat
    then slice0 (DESCRIPTION_MAX_LENGTH - 3) description ++ js "..."
    else description in
  replace_all false re_newline (js " ") finalDescription.

Definition workflowBody
           (content : jsstring) (options : option workflowOptions) : jsstring :=
  let body := trim (replace_first true re_frontmatter [] content) in
  match options ≫= opt_ensureSteps with
  | Some false => body
  | _ => ensureSteps body
  end.

Definition toAntigravityWorkflowContent
           (content : jsstring) (options : option workflowOptions) : jsstring :=
  let frontmatter :=
    js "---\ndescription: " ++ frontmatterDescription content options ++ js "\n---\n" in
  frontmatter ++ js "\n" ++ workflowBody content options ++ js "\n".

Definition transform (s : jsstring) : jsstring := toAntigravityWorkflowContent s None.

(** ** The claims in the words of the specification *)

(** A kebab-case name: segments of lower-case letters and digits joined by
    [-]. *)
Definition isKebabChar (c : N) : bool :=
  ((97 <=? c) && (c <=? 122)) || ((48 <=? c) && (c <=? 57)).

Definition kebab_segments (segs : list jsstring) : Prop :=
  Forall (fun seg => forallb isKebabChar seg = true) segs.

(** Every code unit that satisfies [p] replaced by the text [repl]. *)
Definition subst_char (p : N -> bool) (repl : jsstring) (s : jsstring) : jsstring :=
  flat_map (fun x => if p x then repl else [x]) s.

(** A line starts at the beginning of the text or right after a line
    terminator. *)
Definition line_start (pre : jsstring) : Prop :=
  pre = [] \/ exists pre' t, pre = pre' ++ [t] /\ isLineTerminator t = true.

(** A numbered list item: a line that starts with one or more digits, a dot
    and a white-space code unit. *)
Definition has_numbered_item (s : jsstring) : Prop :=
  exists pre ds w post,
    s = pre ++ ds ++ 46 :: w :: post /\ line_start pre /\
    ds <> [] /\ forallb isDigit ds = true /\ isSpace w = true.

(** The text as one numbered step: [1. ] in front and three spaces after
    every line feed. *)
Definition indent_continuation (s : jsstring) : jsstring :=
  subst_char (isChar 10) (js "\n   ") s.

Definition wrap_as_step (s : jsstring) : jsstring := js "1. " ++ indent_continuation s.

(** A numbered list item as C9 words it: a line that starts with one or
    more digits followed by a dot and a space. *)
Definition has_numbered_item_literal (s : jsstring) : Prop :=
  exists pre ds post,
    s = pre ++ ds ++ 46 :: 32 :: post /\ line_start pre /\
    ds <> [] /\ forallb isDigit ds = true.

(** C9 in the words of the specification, at one body. *)
Definition ensureSteps_claim (body : jsstring) : Prop :=
  (~ has_numbered_item_literal body -> ensureSteps body = wrap_as_step body) /\
  (has_numbered_item_literal body -> ensureSteps body = body).

(** The pieces between the code units that satisfy [p]; [cur] is the piece
    being collected, most recent first. *)
Fixpoint split_on (p : N -> bool) (cur a : jsstring) : list jsstring :=
  match a with
  | [] => [rev cur]
  | x :: a' => if p x then rev cur :: split_on p [] a' else split_on p (x :: cur) a'
  end.

(** *** The description that the code derives, in direct form

    The definitions from here to [description_source] say what
    [deriveDescription] finds, without the patterns.  They follow the code,
    not the specification, and are proved equal to the code (lemmas
    [exec_heading], [derive_firstLine_eq] and [derive_cleaned_eq] below).

    [heading_at] is what [/^#\s+(.+?)(?:\n|$)/m] captures when it matches
    at the start of [s]: [#], then white space, which as [\s+] may run over
    line breaks and blank lines, then the text up to the end of the line on
    which that white space ends. *)
Definition heading_at (s : jsstring) : option jsstring :=
  match s with
  | x :: w :: s' =>
      if isChar 35 x && isSpace w then
        match trimStart s' with
        | [] => None
        | text => Some (trim (takeWhile isDot text))
        end
      else None
  | _ => None
  end.

(** The first line of [s] that is a first-level heading; [bol] tells
    whether [s] starts a line. *)
Fixpoint first_heading_from (bol : bool) (s : jsstring) : option jsstring :=
  match s with
  | [] => None
  | x :: s' =>
      match (if bol then heading_at s else None) with
      | Some h => Some h
      | None => first_heading_from (isLineTerminator x) s'
      end
  end.

Definition first_heading (s : jsstring) : option jsstring := first_heading_from true s.

(** The first line, without the white space around it, that has anything
    but white space. *)
Definition first_nonblank_line (s : jsstring) : option jsstring :=
  head (filter (fun l => l <> []) (trim <$> split_on (isChar 10) [] s)).

(** Every run of white space becomes one space. *)
Fixpoint collapse_from (in_run : bool) (s : jsstring) : jsstring :=
  match s with
  | [] => []
  | x :: s' =>
      if isSpace x then
        if in_run then collapse_from true s' else 32 :: collapse_from true s'
      else x :: collapse_from false s'
  end.

Definition collapse_ws (s : jsstring) : jsstring := trim (collapse_from false s).

(** What the code derives the description from: what the heading pattern
    captures first in the trimmed content, front matter included, else the
    first non-blank line of the content, else the fixed text. *)
Definition description_source (content : jsstring) : jsstring :=
  match first_heading (trim content) with
  | Some h => h
  | None => default (js "Workflow") (first_nonblank_line content)
  end.

(** *** C3 in the words of the specification *)

Definition lines_of (s : jsstring) : list jsstring := split_on (isChar 10) [] s.

(** Step 1 of the transformer: a leading front-matter block, from a first
    line that is exactly [---] to the next line that is exactly [---], is
    taken away; the body is what is left.  A text without such a leading
    block is its own body. *)
Fixpoint after_rule_line (ls : list jsstring) : option (list jsstring) :=
  match ls with
  | [] => None
  | l :: ls' => if bool_decide (l = [45; 45; 45]) then Some ls' else after_rule_line ls'
  end.

Definition body_of (content : jsstring) : jsstring :=
  match lines_of content with
  | l :: ls =>
      if bool_decide (l = [45; 45; 45]) then
        match after_rule_line ls with
        | Some rest => join [10] rest
        | None => content
        end
      else content
  | [] => content
  end.

(** The text of a first-level heading line: [#], a space or a tab, and on
    the same line a text that is not blank. *)
Definition heading_text (line : jsstring) : option jsstring :=
  match line with
  | x :: w :: text =>
      if isChar 35 x && isWhiteSpace w && negb (bool_decide (trim text = []))
      then Some (trim text) else None
  | _ => None
  end.

(** Step 2: the description is the first-level heading text if one exists
    within the body, else the first non-empty line, with white space
    collapsed to single spaces, cut to 250 code units with [...] in place of
    the tail.  A blank body has neither. *)
Definition described_as (content : jsstring) : option jsstring :=
  let body := body_of content in
  let source :=
    match head (omap heading_text (lines_of body)) with
    | Some h => Some h
    | None => first_nonblank_line body
    end in
  (fun text =>
     let cleaned := collapse_ws text in
     if (length cleaned <=? 250)%nat then cleaned else take 247 cleaned ++ [46; 46; 46])
    <$> source.

Definition nonblank (s : jsstring) : Prop := exists x, x ∈ s /\ isSpace x = false.

(** No white space at the end. *)
Definition clean_end (s : jsstring) : Prop :=
  forall s' x, s = s' ++ [x] -> isSpace x = false.

Definition notNewline (x : N) : bool := negb (isChar 10 x).

(** ** Direct forms of the quantifiers over a character class *)

(** [p*] and [p*?] followed by [k]: the greedy form tries the longer run
    first, the lazy form the shorter. *)
Fixpoint star_char (greedy : bool) (p : N -> bool) (k : mcont)
         (b a : jsstring) (c : option jsstring)
  : option (jsstring * jsstring * option jsstring) :=
  match a with
  | x :: a' =>
      if p x then
        if greedy then
          match star_char greedy p k (x :: b) a' c with
          | Some v => Some v
          | None => k b a c
          end
        else
          match k b a c with
          | Some v => Some v
          | None => star_char greedy p k (x :: b) a' c
          end
      else k b a c
  | [] => k b a c
  end.

(** ** Asynchronous calls that may reject *)

(** A thrown value: an [Error] with its message, or any other value with
    what [String(...)] makes of it. *)
Inductive thrown : Type :=
| ErrorObject (message : jsstring)
| OtherValue (rendering : jsstring).

(** [error instanceof Error ? error.message : String(error)] *)
Definition errorText (e : thrown) : jsstring :=
  match e with
  | ErrorObject m => m
  | OtherValue r => r
  end.

(** An awaited call on a state [S]: it rejects with a thrown value or
    resolves to a result, and leaves a state behind in both cases. *)
Definition Eff (S A : Type) : Type := S -> (thrown + A) * S.

Definition eret {S A : Type} (a : A) : Eff S A := fun s => (inr a, s).

(** A synchronous expression inside an [async] function: its value, or the
    rejection with what it throws. *)
Definition evaluate {S A : Type} (r : thrown + A) : Eff S A := fun s => (r, s).

Definition ebind {S A B : Type} (m : Eff S A) (f : A -> Eff S B) : Eff S B :=
  fun s =>
    match m s with
    | (inl e, s') => (inl e, s')
    | (inr a, s') => f a s'
    end.

(** Whether a finished call resolved. *)
Definition resolved {S A : Type} (r : (thrown + A) * S) : bool :=
  match r.1 with inl _ => false | inr _ => true end.

Notation "'await' x <- m ; k" := (ebind m (fun x => k))
  (at level 10, x name, m at level 100, k at level 200).

(** ** The file system *)

(** A path is its list of segments ([path.join] of a directory and a name
    adds a segment). *)
Abbreviation path := (list jsstring).

Definition path_join (dir : path) (name : jsstring) : path := dir ++ [name].

(** The calls of [fs-extra] that the code makes. *)
Record FsOps (W : Type) : Type := {
  fs_pathExists : path -> W -> bool * W;
  fs_ensureDir : path -> Eff W unit;
  fs_readFile : path -> Eff W jsstring;
  fs_writeFile : path -> jsstring -> Eff W unit;
  fs_readdir : path -> Eff W (list jsstring)
}.

Arguments fs_pathExists {W}.
Arguments fs_ensureDir {W}.
Arguments fs_readFile {W}.
Arguments fs_writeFile {W}.
Arguments fs_readdir {W}.

(** An in-memory file system: files and directories by path; the root [[]]
    is a directory. *)
Inductive node : Type :=
| File (content : jsstring)
| Directory.

Definition lookup_node (m : gmap path node) (p : path) : option node :=
  match p with
  | [] => Some Directory
  | _ => m !! p
  end.

Definition mem_pathExists (p : path) (m : gmap path node) : bool * gmap path node :=
  (match lookup_node m p with Some _ => true | None => false end, m).

(** [mkdir -p]: every prefix of the path becomes a directory; a file in the
    way rejects. *)
Fixpoint mkdirs (pre rest : path) (m : gmap path node) : (thrown + unit) * gmap path node :=
  match rest with
  | [] => (inr tt, m)
  | seg :: rest' =>
      let p := pre ++ [seg] in
      match m !! p with
      | Some (File _) => (inl (ErrorObject (js "ENOTDIR")), m)
      | _ => mkdirs p rest' (<[p := Directory]> m)
      end
  end.

Definition mem_ensureDir (p : path) : Eff (gmap path node) unit := mkdirs [] p.

Definition mem_readFile (p : path) : Eff (gmap path node) jsstring :=
  fun m =>
    match lookup_node m p with
    | Some (File c) => (inr c, m)
    | Some Directory => (inl (ErrorObject (js "EISDIR")), m)
    | None => (inl (ErrorObject (js "ENOENT")), m)
    end.

Definition mem_writeFile (p : path) (c : jsstring) : Eff (gmap path node) unit :=
  fun m =>
    match lookup_node m p with
    | Some Directory => (inl (ErrorObject (js "EISDIR")), m)
    | _ =>
        match lookup_node m (removelast p) with
        | Some Directory => (inr tt, <[p := File c]> m)
        | Some (File _) => (inl (ErrorObject (js "ENOTDIR")), m)
        | None => (inl (ErrorObject (js "ENOENT")), m)
        end
    end.

Definition mem_readdir (p : path) : Eff (gmap path node) (list jsstring) :=
  fun m =>
    match lookup_node m p with
    | Some Directory =>
        (inr (omap (fun q => if bool_decide (removelast q = p) then last q else None)
                   (elements (dom m))), m)
    | Some (File _) => (inl (ErrorObject (js "ENOTDIR")), m)
    | None => (inl (ErrorObject (js "ENOENT")), m)
    end.

Definition memfs : FsOps (gmap path node) := {|
  fs_pathExists := mem_pathExists;
  fs_ensureDir := mem_ensureDir;
  fs_readFile := mem_readFile;
  fs_writeFile := mem_writeFile;
  fs_readdir := mem_readdir
|}.

(** ** The command generator *)

Record CommandTemplate : Type := {
  filename : jsstring;
  content : jsstring
}.

Definition init_mcp_only : CommandTemplate :=
  {| filename := js "init-mcp-only.md";
     content :=
       js "# Init context (MCP only)\n\nInitialize the project context **only via MCP** "
       ++ [8212]
       ++ js " do not run init from the CLI.\n\nUse the context tool with action `init` in your MCP-enabled client (e.g. Cursor, Claude). Suggested parameters:\n\n- **type**: `both` (docs + agents)\n- **semantic**: `true`\n- **autoFill**: `true`\n- **generateSkills**: `true`\n\nThis ensures the scaffolding is created and filled using the MCP server attached to this repo." |}.

Definition PREDEFINED_COMMANDS : list CommandTemplate := [init_mcp_only].

Record GenerateCommandsResult : Type := {
  commandsDir : path;
  generated : list jsstring;
  skipped : list jsstring
}.

Section Generator.

Context {W : Type} (fsx : FsOps W).

Definition pathExists (p : path) : Eff W bool :=
  fun w => let (b, w') := fs_pathExists fsx p w in (inr b, w').

(** The loop over the templates, with the two result arrays so far. *)
Fixpoint generate_loop (dir : path) (force : bool) (cmds : list CommandTemplate)
         (gen skip : list jsstring) : Eff W (list jsstring * list jsstring) :=
  match cmds with
  | [] => eret (gen, skip)
  | cmd :: cmds' =>
      let filePath := path_join dir (filename cmd) in
      await exist <- pathExists filePath;
      if exist && negb force then
        generate_loop dir force cmds' gen (skip ++ [filename cmd])
      else
        await _ <- fs_writeFile fsx filePath (trimEnd (content cmd) ++ js "\n");
        generate_loop dir force cmds' (gen ++ [filename cmd]) skip
  end.

Definition generateCommands (outputDir : path) (force : option bool)
  : Eff W GenerateCommandsResult :=
  let dir := path_join outputDir (js "commands") in
  await _ <- fs_ensureDir fsx dir;
  await r <- generate_loop dir (default false force) PREDEFINED_COMMANDS [] [];
  eret {| commandsDir := dir; generated := r.1; skipped := r.2 |}.

(** ** The export of the commands as workflows *)

Variable unicodeLower : jsstring -> jsstring.

Fixpoint export_loop (sourceDir targetDir : path) (filenames : list jsstring)
         (written : nat) : Eff W nat :=
  match filenames with
  | [] => eret written
  | name :: rest =>
      let srcPath := path_join sourceDir name in
      await text <- fs_readFile fsx srcPath;
      let workflowContent := toAntigravityWorkflowContent text None in
      let outFilename := toAntigravityFilename unicodeLower name in
      let outPath := path_join targetDir outFilename in
      await _ <- fs_writeFile fsx outPath workflowContent;
      export_loop sourceDir targetDir rest (S written)
  end.

Definition exportCommandsToAntigravity (sourceDir targetDir : path)
           (filenames : list jsstring) (force dryRun : bool) : Eff W nat :=
  if dryRun then eret (length filenames)
  else
    await _ <- fs_ensureDir fsx targetDir;
    export_loop sourceDir targetDir filenames 0.

End Generator.

(** Whether the generator writes the file of a template: it is absent or
    the overwrite is forced. *)
Definition will_write (dir : path) (force : bool) (m : gmap path node)
           (cmd : CommandTemplate) : bool :=
  negb ((match m !! path_join dir (filename cmd) with Some _ => true | None => false end)
        && negb force).

Definition fresh_content (cmd : CommandTemplate) : jsstring :=
  trimEnd (content cmd) ++ js "\n".

(** A small file system to run the generator and the export on: one
    command file that the user has edited, and one source command. *)
Definition demo_dest : path :=
  path_join (path_join [js ".context"] (js "commands")) (filename init_mcp_only).

Definition demo_fs : gmap path node :=
  <[demo_dest := File (js "# mine\n")]> ∅.

Definition demo_source_fs : gmap path node :=
  <[[js "src"; js "init-mcp-only.md"] := File (js "# Init\n\nRun the init.")]>
    (<[[js "src"] := Directory]> ∅).

(** ** The quick sync *)

(** [QuickSyncOptions]; [llmConfig] is not read by [run]. *)
Record QuickSyncOptions : Type := {
  skipAgents : option bool;
  skipSkills : option bool;
  skipDocs : option bool;
  force : option bool;
  dryRun : option bool;
  verbose : option bool;
  agentTargets : option (list jsstring);
  skillTargets : option (list jsstring);
  docTargets : option (list jsstring);
  skipCommands : option bool;
  commandTargets : option (list jsstring)
}.

Record QuickSyncResult : Type := {
  agentsSynced : nat;
  skillsExported : nat;
  commandsSynced : nat;
  docsUpdated : bool;
  errors : list jsstring
}.

(** The arguments of [SyncService.run]; a target is a preset name or a
    resolved directory. *)
Record SyncRunOptions : Type := {
  sync_source : path;
  sync_preset : option jsstring;
  sync_target : option (list (jsstring + path));
  sync_force : option bool;
  sync_dryRun : option bool;
  sync_verbose : bool
}.

(** The arguments of [SkillExportService.run]. *)
Record SkillExportOptions : Type := {
  skill_preset : option jsstring;
  skill_targets : option (list jsstring);
  skill_force : option bool;
  skill_dryRun : option bool;
  skill_verbose : bool;
  skill_includeBuiltIn : bool
}.

(** The arguments of [ExportRulesService.run]. *)
Record ExportRulesOptions : Type := {
  rules_source : path;
  rules_preset : option jsstring;
  rules_targets : option (list jsstring);
  rules_force : option bool;
  rules_dryRun : option bool
}.

(** What [StateDetector.detect] resolves to, as far as [run] reads it. *)
Record Detection : Type := {
  det_state : jsstring;
  det_daysBehind : option N
}.

(** The collaborators of [QuickSyncService] that are not part of these
    sources: the file system, the services, the state detector, the command
    presets ([getCommandsSyncPresets()], the own keys in order, each with its
    path), [path.resolve] of the repository path, and the [TypeError] that
    [path.resolve] throws when an argument is [undefined]. *)
Record Services (W : Type) : Type := {
  svc_fs : FsOps W;
  svc_unicodeLower : jsstring -> jsstring;
  svc_resolve : path -> path;
  svc_resolveUndefined : thrown;
  svc_syncRun : SyncRunOptions -> Eff W unit;
  svc_skillExportRun : path -> SkillExportOptions -> Eff W (list jsstring);
  svc_exportRulesRun : path -> ExportRulesOptions -> Eff W unit;
  svc_detect : path -> Eff W Detection;
  svc_commandsPresets : list (jsstring * path)
}.

Arguments svc_fs {W}.
Arguments svc_unicodeLower {W}.
Arguments svc_resolve {W}.
Arguments svc_resolveUndefined {W}.
Arguments svc_syncRun {W}.
Arguments svc_skillExportRun {W}.
Arguments svc_exportRulesRun {W}.
Arguments svc_detect {W}.
Arguments svc_commandsPresets {W}.

(** What the spinner is told. *)
Inductive message : Type :=
| Translated (key : jsstring) (days : option N)
| Synced (count : nat) (what : jsstring) (targets : option (list jsstring))
| RulesExported (targets : option (list jsstring))
| Text (text : jsstring).

Inductive event : Type :=
| StartSpinner (m : message)
| UpdateSpinner (m : message) (kind : jsstring)
| StopSpinner.

(** The state of a run: the outside world, what the user interface was
    told (oldest first) and the result object being filled. *)
Record RunState (W : Type) : Type := {
  rs_world : W;
  rs_log : list event;
  rs_result : QuickSyncResult
}.

Arguments rs_world {W}.
Arguments rs_log {W}.
Arguments rs_result {W}.

(** The five steps of [run]. *)
Inductive pass : Type := PAgents | PSkills | PCommands | PRules | PDocsCheck.

#[global] Instance pass_eq_dec : EqDecision pass.
Proof. solve_decision. Defined.

Definition pass_key (p : pass) : jsstring :=
  match p with
  | PAgents => js "prompts.quickSync.syncing.agents"
  | PSkills => js "prompts.quickSync.syncing.skills"
  | PCommands => js "prompts.quickSync.syncing.commands"
  | PRules => js "prompts.quickSync.syncing.rules"
  | PDocsCheck => js "prompts.quickSync.syncing.docs"
  end.

(** [!flag] *)
Definition notSet (flag : option bool) : bool := negb (default false flag).

(** [Array.isArray(t) && t.length === 0] *)
Definition isEmptyArray (t : option (list jsstring)) : bool :=
  match t with Some [] => true | _ => false end.

(** [t && t.length > 0] *)
Definition hasCustom (t : option (list jsstring)) : bool :=
  match t with Some (_ :: _) => true | _ => false end.

Definition endsWith (suffix s : jsstring) : bool :=
  bool_decide (drop (length s - length suffix) s = suffix).

Definition mdFiles (files : list jsstring) : list jsstring :=
  List.filter (endsWith (js ".md")) files.

Definition contextDir (abs : path) (name : jsstring) : path := abs ++ [js ".context"; name].

(** The property names that every ordinary object inherits from
    [Object.prototype]. *)
Definition objectPrototypeKeys : list jsstring :=
  [js "constructor"; js "__defineGetter__"; js "__defineSetter__"; js "hasOwnProperty";
   js "__lookupGetter__"; js "__lookupSetter__"; js "isPrototypeOf";
   js "propertyIsEnumerable"; js "toString"; js "valueOf"; js "__proto__";
   js "toLocaleString"].

(** What [commandsPresets[id]] yields when it is not [undefined]: the
    preset of an own key, or for an inherited name a function or object,
    which is truthy and has no [path]. *)
Inductive presetValue : Type :=
| OwnPreset (presetPath : path)
| InheritedProperty.

(** [commandsPresets[id]]; the presets are an ordinary object. *)
Definition lookupPreset (id : jsstring) (presets : list (jsstring * path))
  : option presetValue :=
  match List.find (fun kv => bool_decide (kv.1 = id)) presets with
  | Some kv => Some (OwnPreset kv.2)
  | None => if bool_decide (id ∈ objectPrototypeKeys) then Some InheritedProperty else None
  end.

(** [path.resolve(absolutePath, p.path)]: without a [path] the second
    argument is [undefined] and [path.resolve] throws. *)
Definition resolvePresetPath (resolveUndefined : thrown) (abs : path) (p : presetValue)
  : thrown + path :=
  match p with
  | OwnPreset presetPath => inr (abs ++ presetPath)
  | InheritedProperty => inl resolveUndefined
  end.

(** [ps.map((p) => path.resolve(absolutePath, p.path))] *)
Fixpoint resolvePresetPaths (resolveUndefined : thrown) (abs : path) (ps : list presetValue)
  : thrown + list path :=
  match ps with
  | [] => inr []
  | p :: ps' =>
      match resolvePresetPath resolveUndefined abs p with
      | inl e => inl e
      | inr q =>
          match resolvePresetPaths resolveUndefined abs ps' with
          | inl e => inl e
          | inr qs => inr (q :: qs)
          end
      end
  end.

Definition agents_sync_options (abs : path) (o : QuickSyncOptions) : SyncRunOptions :=
  let hasCustomTargets := hasCustom (agentTargets o) in
  {| sync_source := contextDir abs (js "agents");
     sync_preset := if hasCustomTargets then None else Some (js "all");
     sync_target :=
       if hasCustomTargets
       then option_map (List.map (fun name => inl name)) (agentTargets o)
       else None;
     sync_force := force o;
     sync_dryRun := dryRun o;
     sync_verbose := false |}.

Definition skills_export_options (o : QuickSyncOptions) : SkillExportOptions :=
  let hasCustomTargets := hasCustom (skillTargets o) in
  {| skill_preset := if hasCustomTargets then None else Some (js "all");
     skill_targets := if hasCustomTargets then skillTargets o else None;
     skill_force := force o;
     skill_dryRun := dryRun o;
     skill_verbose := false;
     skill_includeBuiltIn := true |}.

Definition rules_export_options (abs : path) (o : QuickSyncOptions) : ExportRulesOptions :=
  let hasCustomTargets := hasCustom (docTargets o) in
  {| rules_source := contextDir abs (js "docs");
     rules_preset := if hasCustomTargets then None else Some (js "all");
     rules_targets := if hasCustomTargets then docTargets o else None;
     rules_force := force o;
     rules_dryRun := dryRun o |}.

(** [targetIds] of the commands step. *)
Definition command_target_ids (presets : list (jsstring * path)) (o : QuickSyncOptions)
  : list jsstring :=
  if hasCustom (commandTargets o) then default [] (commandTargets o) else fst <$> presets.

Definition targetInfo (t : option (list jsstring)) : option (list jsstring) :=
  if hasCustom t then t else None.

Section QuickSync.

Context {W : Type} (svc : Services W).

Definition call {A : Type} (m : Eff W A) : Eff (RunState W) A :=
  fun s =>
    let (r, w) := m (rs_world s) in
    (r, {| rs_world := w; rs_log := rs_log s; rs_result := rs_result s |}).

Definition tell (e : event) : Eff (RunState W) unit :=
  fun s =>
    (inr tt, {| rs_world := rs_world s; rs_log := rs_log s ++ [e];
                rs_result := rs_result s |}).

Definition setResult (f : QuickSyncResult -> QuickSyncResult) : Eff (RunState W) unit :=
  fun s =>
    (inr tt, {| rs_world := rs_world s; rs_log := rs_log s;
                rs_result := f (rs_result s) |}).

Definition pushError (text : jsstring) (r : QuickSyncResult) : QuickSyncResult :=
  {| agentsSynced := agentsSynced r; skillsExported := skillsExported r;
     commandsSynced := commandsSynced r; docsUpdated := docsUpdated r;
     errors := errors r ++ [text] |}.

(** [try { body } catch (error) { updateSpinner(failText, 'fail');
    result.errors.push(...) } finally { stopSpinner() }] *)
Definition tryPass (body : Eff (RunState W) unit) (failText : jsstring)
  : RunState W -> RunState W :=
  fun s =>
    match body s with
    | (inr _, s1) => (tell StopSpinner s1).2
    | (inl e, s1) =>
        (tell StopSpinner
           (setResult (pushError (errorText e))
              (tell (UpdateSpinner (Text failText) (js "fail")) s1).2).2).2
    end.

Definition agents_body (abs : path) (o : QuickSyncOptions) : Eff (RunState W) unit :=
  await _ <- tell (StartSpinner (Translated (pass_key PAgents) None));
  let agentsPath := contextDir abs (js "agents") in
  await present <- call (pathExists (svc_fs svc) agentsPath);
  if present then
    await _ <- call (svc_syncRun svc (agents_sync_options abs o));
    await files <- call (fs_readdir (svc_fs svc) agentsPath);
    let n := length (mdFiles files) in
    await _ <- setResult (fun r =>
        {| agentsSynced := n; skillsExported := skillsExported r;
           commandsSynced := commandsSynced r; docsUpdated := docsUpdated r;
           errors := errors r |});
    tell (UpdateSpinner (Synced n (js "agents") (targetInfo (agentTargets o))) (js "success"))
  else tell (UpdateSpinner (Text (js "No agents to sync")) (js "info")).

Definition skills_body (abs : path) (o : QuickSyncOptions) : Eff (RunState W) unit :=
  await _ <- tell (StartSpinner (Translated (pass_key PSkills) None));
  let skillsPath := contextDir abs (js "skills") in
  await present <- call (pathExists (svc_fs svc) skillsPath);
  if present then
    await exported <- call (svc_skillExportRun svc abs (skills_export_options o));
    let n := length exported in
    await _ <- setResult (fun r =>
        {| agentsSynced := agentsSynced r; skillsExported := n;
           commandsSynced := commandsSynced r; docsUpdated := docsUpdated r;
           errors := errors r |});
    tell (UpdateSpinner (Synced n (js "skills") (targetInfo (skillTargets o))) (js "success"))
  else tell (UpdateSpinner (Text (js "No skills to export")) (js "info")).

Definition commands_body (abs : path) (o : QuickSyncOptions) : Eff (RunState W) unit :=
  await _ <- tell (StartSpinner (Translated (pass_key PCommands) None));
  let commandsPath := contextDir abs (js "commands") in
  await present <- call (pathExists (svc_fs svc) commandsPath);
  if present then
    let commandsPresets := svc_commandsPresets svc in
    let targetIds := command_target_ids commandsPresets o in
    await antigravityPath <-
      evaluate
        (match lookupPreset (js "antigravity") commandsPresets with
         | Some antigravityPreset =>
             if bool_decide (js "antigravity" ∈ targetIds) then
               match resolvePresetPath (svc_resolveUndefined svc) abs antigravityPreset with
               | inl e => inl e
               | inr target => inr (Some target)
               end
             else inr None
         | None => inr None
         end);
    let otherTargetIds :=
      List.filter (fun id => negb (bool_decide (id = js "antigravity"))) targetIds in
    await otherTargetPaths <-
      evaluate
        (resolvePresetPaths (svc_resolveUndefined svc) abs
           (omap (fun id => lookupPreset id commandsPresets) otherTargetIds));
    await files <- call (fs_readdir (svc_fs svc) commandsPath);
    let commandFiles := mdFiles files in
    await _ <-
      (if (0 <? length otherTargetPaths)%nat then
         call (svc_syncRun svc
                 {| sync_source := commandsPath; sync_preset := None;
                    sync_target := Some (List.map (fun dir => inr dir) otherTargetPaths);
                    sync_force := force o; sync_dryRun := dryRun o;
                    sync_verbose := false |})
       else eret tt);
    await _ <-
      (match antigravityPath with
       | Some target =>
           if (0 <? length commandFiles)%nat then
             await _ <- call (exportCommandsToAntigravity (svc_fs svc)
                                (svc_unicodeLower svc) commandsPath target commandFiles
                                (default false (force o)) (default false (dryRun o)));
             eret tt
           else eret tt
       | None => eret tt
       end);
    let n := length commandFiles in
    await _ <- setResult (fun r =>
        {| agentsSynced := agentsSynced r; skillsExported := skillsExported r;
           commandsSynced := n; docsUpdated := docsUpdated r;
           errors := errors r |});
    tell (UpdateSpinner (Synced n (js "commands") (targetInfo (commandTargets o)))
            (js "success"))
  else tell (UpdateSpinner (Text (js "No commands to sync")) (js "info")).

Definition rules_body (abs : path) (o : QuickSyncOptions) : Eff (RunState W) unit :=
  await _ <- tell (StartSpinner (Translated (pass_key PRules) None));
  let docsPath := contextDir abs (js "docs") in
  await present <- call (pathExists (svc_fs svc) docsPath);
  if present then
    await _ <- call (svc_exportRulesRun svc abs (rules_export_options abs o));
    tell (UpdateSpinner (RulesExported (targetInfo (docTargets o))) (js "success"))
  else tell (UpdateSpinner (Text (js "No docs to export")) (js "info")).

Definition setDocsUpdated (b : bool) : Eff (RunState W) unit :=
  setResult (fun r =>
    {| agentsSynced := agentsSynced r; skillsExported := skillsExported r;
       commandsSynced := commandsSynced r; docsUpdated := b;
       errors := errors r |}).

Definition docs_check_body (abs : path) (o : QuickSyncOptions) : Eff (RunState W) unit :=
  await _ <- tell (StartSpinner (Translated (pass_key PDocsCheck) None));
  await state <- call (svc_detect svc abs);
  match det_daysBehind state with
  | Some days =>
      if bool_decide (det_state state = js "outdated") && negb (days =? 0) then
        await _ <- tell (UpdateSpinner (Translated (js "prompts.quickSync.docsOutdated")
                                          (Some days)) (js "warn"));
        await _ <- tell StopSpinner;
        setDocsUpdated false
      else
        await _ <- tell (UpdateSpinner (Text (js "Docs up to date")) (js "success"));
        setDocsUpdated true
  | None =>
      await _ <- tell (UpdateSpinner (Text (js "Docs up to date")) (js "success"));
      setDocsUpdated true
  end.

Definition pass_body (p : pass) (abs : path) (o : QuickSyncOptions)
  : Eff (RunState W) unit :=
  match p with
  | PAgents => agents_body abs o
  | PSkills => skills_body abs o
  | PCommands => commands_body abs o
  | PRules => rules_body abs o
  | PDocsCheck => docs_check_body abs o
  end.

Definition pass_failText (p : pass) : jsstring :=
  match p with
  | PAgents => js "Failed to sync agents"
  | PSkills => js "Failed to export skills"
  | PCommands => js "Failed to sync commands"
  | PRules => js "Failed to export rules"
  | PDocsCheck => js "Failed to check docs"
  end.

(** The guards around the [try] of each step. *)
Definition pass_enabled (p : pass) (o : QuickSyncOptions) : bool :=
  match p with
  | PAgents => notSet (skipAgents o) && negb (isEmptyArray (agentTargets o))
  | PSkills => notSet (skipSkills o) && negb (isEmptyArray (skillTargets o))
  | PCommands => notSet (skipCommands o) && negb (isEmptyArray (commandTargets o))
  | PRules => notSet (skipDocs o) && negb (isEmptyArray (docTargets o))
  | PDocsCheck => notSet (skipDocs o)
  end.

Definition pass_step (p : pass) (abs : path) (o : QuickSyncOptions)
  : RunState W -> RunState W :=
  fun s => if pass_enabled p o then tryPass (pass_body p abs o) (pass_failText p) s else s.

Definition initialResult : QuickSyncResult :=
  {| agentsSynced := 0; skillsExported := 0; commandsSynced := 0;
     docsUpdated := false; errors := [] |}.

Definition all_passes : list pass := [PAgents; PSkills; PCommands; PRules; PDocsCheck].

(** [run]: the five steps one after the other; the result object is
    [rs_result] of the final state. *)
Definition run (repoPath : path) (o : QuickSyncOptions) (w : W) : RunState W :=
  let abs := svc_resolve svc repoPath in
  foldl (fun s p => pass_step p abs o s)
        {| rs_world := w; rs_log := []; rs_result := initialResult |} all_passes.

End QuickSync.


Definition is_start (p : pass) (e : event) : bool :=
  match e with
  | StartSpinner (Translated k _) => bool_decide (k = pass_key p)
  | _ => false
  end.

(** How many times the [try] block of a step was entered. *)
Definition attempts (p : pass) (log : list event) : nat :=
  length (List.filter (is_start p) log).

(** *** Which calls a step makes

    The services wrapped so that every call of a service is written down
    with its arguments, in the order of the calls, beside the world that
    the services act on; the calls of the file system are passed on
    unrecorded. *)
Inductive service_call : Type :=
| CallSync (options : SyncRunOptions)
| CallSkillExport (repo : path) (options : SkillExportOptions)
| CallExportRules (repo : path) (options : ExportRulesOptions)
| CallDetect (repo : path).

Definition recorded {W A : Type} (c : service_call) (m : Eff W A)
  : Eff (W * list service_call) A :=
  fun wl => let (r, w') := m wl.1 in (r, (w', wl.2 ++ [c])).

Definition unrecorded {W A : Type} (m : Eff W A) : Eff (W * list service_call) A :=
  fun wl => let (r, w') := m wl.1 in (r, (w', wl.2)).

Definition recording {W : Type} (svc : Services W) : Services (W * list service_call) := {|
  svc_fs :=
    {| fs_pathExists := fun p wl =>
         let (b, w') := fs_pathExists (svc_fs svc) p wl.1 in (b, (w', wl.2));
       fs_ensureDir := fun p => unrecorded (fs_ensureDir (svc_fs svc) p);
       fs_readFile := fun p => unrecorded (fs_readFile (svc_fs svc) p);
       fs_writeFile := fun p c => unrecorded (fs_writeFile (svc_fs svc) p c);
       fs_readdir := fun p => unrecorded (fs_readdir (svc_fs svc) p) |};
  svc_unicodeLower := svc_unicodeLower svc;
  svc_resolve := svc_resolve svc;
  svc_resolveUndefined := svc_resolveUndefined svc;
  svc_syncRun := fun options => recorded (CallSync options) (svc_syncRun svc options);
  svc_skillExportRun := fun repo options =>
    recorded (CallSkillExport repo options) (svc_skillExportRun svc repo options);
  svc_exportRulesRun := fun repo options =>
    recorded (CallExportRules repo options) (svc_exportRulesRun svc repo options);
  svc_detect := fun repo => recorded (CallDetect repo) (svc_detect svc repo);
  svc_commandsPresets := svc_commandsPresets svc
|}.






(** A repository in memory and collaborators to run the quick sync on: the
    agents sync rejects when [syncFails] is set. *)
Definition demo_repo_fs : gmap path node :=
  <[[js ".context"; js "commands"; js "init-mcp-only.md"] := File (js "# Init\n\nRun the init.")]>
    (<[[js ".context"; js "commands"] := Directory]>
       (<[[js ".context"; js "agents"; js "reviewer.md"] := File (js "# Reviewer")]>
          (<[[js ".context"; js "agents"] := Directory]>
             (<[[js ".context"; js "skills"] := Directory]>
                (<[[js ".context"; js "docs"] := Directory]>
                   (<[[js ".context"] := Directory]> ∅)))))).

Definition demo_services (syncFails : bool) : Services (gmap path node) := {|
  svc_fs := memfs;
  svc_unicodeLower := fun s => s;
  svc_resolve := fun repo => repo;
  svc_resolveUndefined :=
    ErrorObject (js "The paths[1] argument must be of type string. Received undefined");
  svc_syncRun := fun _ w =>
    (if syncFails then inl (ErrorObject (js "sync failed")) else inr tt, w);
  svc_skillExportRun := fun _ _ w => (inr [js "review"; js "deploy"], w);
  svc_exportRulesRun := fun _ _ w => (inr tt, w);
  svc_detect := fun _ w => (inr {| det_state := js "fresh"; det_daysBehind := None |}, w);
  svc_commandsPresets := [(js "cursor", [js ".cursor"; js "commands"]);
                          (js "antigravity", [js ".agent"; js "workflows"])]
|}.

Definition demo_options (docs : option (list jsstring)) : QuickSyncOptions := {|
  skipAgents := None; skipSkills := None; skipDocs := None;
  force := None; dryRun := None; verbose := None;
  agentTargets := None; skillTargets := None; docTargets := docs;
  skipCommands := None; commandTargets := None
|}.

(** A computation that enters no step and leaves the error list alone. *)
Definition silent {W A : Type} (m : Eff (RunState W) A) : Prop :=
  forall s, (forall p, attempts p (rs_log (m s).2) = attempts p (rs_log s)) /\
            errors (rs_result (m s).2) = errors (rs_result s).

(** A thrown value as the text that C7 wants in the error list: the
    message of an [Error], and for any other value what the string
    conversion makes of it. *)
Definition stringified (e : thrown) : jsstring :=
  match e with
  | ErrorObject message => message
  | OtherValue rendering => rendering
  end.

(** The texts of the values thrown by a sequence of steps, from the state
    the sequence starts in: one text for each step that is entered and
    throws, in the order of the steps. *)
Fixpoint recorded_errors {W : Type} (svc : Services W) (abs : path) (o : QuickSyncOptions)
         (ps : list pass) (s : RunState W) : list jsstring :=
  match ps with
  | [] => []
  | p :: ps' =>
      (if pass_enabled p o then
         match (pass_body svc p abs o s).1 with
         | inl e => [stringified e]
         | inr _ => []
         end
       else [])
      ++ recorded_errors svc abs o ps' (pass_step svc p abs o s)
  end.

(** ** The init service *)

Module InitService.

(** [InitCommandFlags], the [rawOptions] of [run]. *)
Record InitCommandFlags : Type := {
  raw_output : option jsstring;
  raw_include : option (list jsstring);
  raw_exclude : option (list jsstring);
  raw_verbose : option bool;
  raw_docsOnly : option bool;
  raw_agentsOnly : option bool;
  raw_semantic : option bool;
  raw_contentStubs : option bool;
  raw_autoFill : option bool
}.

Record InitOptions : Type := {
  repoPath : path;
  outputDir : path;
  include : option (list jsstring);
  exclude : list jsstring;
  verbose : bool;
  scaffoldDocs : bool;
  scaffoldAgents : bool;
  scaffoldSkills : bool;
  semantic : bool;
  includeContentStubs : bool;
  autoFill : bool
}.

(** The value of [skipOverwrites]. *)
Record SkipOverwrites : Type := {
  skipDocs : bool;
  skipAgents : bool;
  skipSkills : bool
}.

(** What [generateScaffolds] returns. *)
Record Generated : Type := {
  docsGenerated : nat;
  agentsGenerated : nat;
  skillsGenerated : nat;
  commandsGenerated : nat
}.

(** [RepoStructure], as far as [run] reads it. *)
Record RepoStructure : Type := {
  totalFiles : nat;
  directories : list path
}.

(** The options object passed to the two generators. *)
Record GeneratorOptions : Type := {
  gen_semantic : bool;
  gen_includeContentStubs : bool;
  gen_autoFill : bool;
  gen_filtered : option (list jsstring)
}.

(** A parameter of a translated message. *)
Inductive param : Type :=
| PText (s : jsstring)
| PPath (p : path)
| PAccent (p : path)
| PCount (n : nat).

(** [TranslateFn] *)
Abbreviation TranslateFn := (jsstring -> list (jsstring * param) -> jsstring).

(** The calls on the user interface. *)
Inductive ui_call : Type :=
| DisplayWarning (text : jsstring)
| DisplayWelcome (version : jsstring)
| DisplayProjectInfo (repo out : path) (type : jsstring)
| DisplayStep (current total : nat) (text : jsstring)
| StartSpinner (text : jsstring)
| UpdateSpinner (text kind : jsstring)
| DisplayGenerationSummary (counts : Generated)
| DisplaySuccess (text : jsstring).

(** The collaborators of [InitService] that are not part of these sources:
    the file system, [path.resolve] and [path.relative], the translation
    function, the confirm prompt of [inquirer] (it resolves to
    [answer.overwrite]), the file mapper made by [fileMapperFactory] for an
    exclude list, the stack detection with the classification and the
    filter that follow it (the filtered docs and agents), the two
    generators and the skill generator (it resolves to [generatedSkills]). *)
Record InitServiceDependencies (W : Type) : Type := {
  dep_fs : FsOps W;
  dep_unicodeLower : jsstring -> jsstring;
  dep_resolve : jsstring -> path;
  dep_relative : path -> path -> jsstring;
  dep_t : TranslateFn;
  dep_version : jsstring;
  dep_prompt : jsstring -> Eff W bool;
  dep_mapRepository : list jsstring -> path -> option (list jsstring) -> Eff W RepoStructure;
  dep_filteredScaffolds : path -> Eff W (option (list jsstring) * option (list jsstring));
  dep_generateDocumentation :
    RepoStructure -> path -> GeneratorOptions -> bool -> Eff W nat;
  dep_generateAgentPrompts :
    RepoStructure -> path -> GeneratorOptions -> bool -> Eff W nat;
  dep_generateSkills : path -> jsstring -> Eff W (list jsstring)
}.

Arguments dep_fs {W}.
Arguments dep_unicodeLower {W}.
Arguments dep_resolve {W}.
Arguments dep_relative {W}.
Arguments dep_t {W}.
Arguments dep_version {W}.
Arguments dep_prompt {W}.
Arguments dep_mapRepository {W}.
Arguments dep_filteredScaffolds {W}.
Arguments dep_generateDocumentation {W}.
Arguments dep_generateAgentPrompts {W}.
Arguments dep_generateSkills {W}.

(** The state of a call: the outside world and what the user interface was
    told, oldest first. *)
Record InitState (W : Type) : Type := {
  is_world : W;
  is_ui : list ui_call
}.

Arguments is_world {W}.
Arguments is_ui {W}.

Definition allowed : list jsstring := [js "docs"; js "agents"; js "both"].

(** A flag that is set and true. *)
Definition isSet (flag : option bool) : bool := default false flag.

Definition resolveScaffoldType (unicodeLower : jsstring -> jsstring) (t : TranslateFn)
           (type : jsstring) (rawOptions : InitCommandFlags) : thrown + jsstring :=
  let normalized :=
    toLowerCase unicodeLower (if bool_decide (type = []) then js "both" else type) in
  if negb (bool_decide (normalized ∈ allowed)) then
    inl (ErrorObject (t (js "errors.init.invalidType")
                        [(js "value", PText type);
                         (js "allowed", PText (join (js ", ") allowed))]))
  else if isSet (raw_docsOnly rawOptions) then inr (js "docs")
  else if isSet (raw_agentsOnly rawOptions) then inr (js "agents")
  else inr normalized.

(** [throw] and [try { m } catch { handler }] *)
Definition reject {S A : Type} (e : thrown) : Eff S A := fun s => (inl e, s).

Definition tryCatch {S A : Type} (m handler : Eff S A) : Eff S A :=
  fun s =>
    match m s with
    | (inl _, s') => handler s'
    | (inr a, s') => (inr a, s')
    end.

Section WithDependencies.

Context {W : Type} (deps : InitServiceDependencies W).

Definition display (c : ui_call) : Eff (InitState W) unit :=
  fun s => (inr tt, {| is_world := is_world s; is_ui := is_ui s ++ [c] |}).

Definition io {A : Type} (m : Eff W A) : Eff (InitState W) A :=
  fun s =>
    let (r, w) := m (is_world s) in
    (r, {| is_world := w; is_ui := is_ui s |}).

Definition ensurePaths (options : InitOptions) : Eff (InitState W) unit :=
  await present <- io (pathExists (dep_fs deps) (repoPath options));
  if negb present then
    reject (ErrorObject (dep_t deps (js "errors.common.repoMissing")
                           [(js "path", PPath (repoPath options))]))
  else io (fs_ensureDir (dep_fs deps) (outputDir options)).

Definition directoryHasContent (dirPath : path) : Eff (InitState W) bool :=
  await present <- io (pathExists (dep_fs deps) dirPath);
  if negb present then eret false
  else
    await entries <- io (fs_readdir (dep_fs deps) dirPath);
    eret (0 <? length entries)%nat.

Definition confirmOverwriteIfNeeded (options : InitOptions)
  : Eff (InitState W) SkipOverwrites :=
  await skipD <-
    (if scaffoldDocs options then
       let docsPath := path_join (outputDir options) (js "docs") in
       await has <- directoryHasContent docsPath;
       if has then
         await overwrite <-
           io (dep_prompt deps (dep_t deps (js "prompts.init.confirmOverwriteDocs")
                                  [(js "path", PPath docsPath)]));
         eret (negb overwrite)
       else eret false
     else eret false);
  await skipA <-
    (if scaffoldAgents options then
       let agentsPath := path_join (outputDir options) (js "agents") in
       await has <- directoryHasContent agentsPath;
       if has then
         await overwrite <-
           io (dep_prompt deps (dep_t deps (js "prompts.init.confirmOverwriteAgents")
                                  [(js "path", PPath agentsPath)]));
         eret (negb overwrite)
       else eret false
     else eret false);
  await skipS <-
    (if scaffoldSkills options then
       let skillsPath := path_join (outputDir options) (js "skills") in
       await has <- directoryHasContent skillsPath;
       if has then
         await overwrite <-
           io (dep_prompt deps (dep_t deps (js "prompts.init.confirmOverwriteSkills")
                                  [(js "path", PPath skillsPath)]));
         eret (negb overwrite)
       else eret false
     else eret false);
  eret {| skipDocs := skipD; skipAgents := skipA; skipSkills := skipS |}.

Definition totalSteps (options : InitOptions) (skipOverwrites : SkipOverwrites) : nat :=
  (if scaffoldDocs options && negb (skipDocs skipOverwrites) then 1 else 0) +
  (if scaffoldAgents options && negb (skipAgents skipOverwrites) then 1 else 0) +
  (if scaffoldSkills options && negb (skipSkills skipOverwrites) then 1 else 0) +
  1.

(** The four guarded blocks of [generateScaffolds]; each takes the current
    step number and resolves to its count and the step number after it. *)
Definition docsBlock (options : InitOptions) (repoStructure : RepoStructure)
           (skipOverwrites : SkipOverwrites) (filteredDocs : option (list jsstring))
           (currentStep : nat) : Eff (InitState W) (nat * nat) :=
  if scaffoldDocs options && negb (skipDocs skipOverwrites) then
    await _ <- display (DisplayStep currentStep (totalSteps options skipOverwrites)
                          (dep_t deps (js "steps.init.docs") []));
    await _ <- display (StartSpinner
                          (if semantic options
                           then dep_t deps (js "spinner.docs.creatingWithSemantic") []
                           else dep_t deps (js "spinner.docs.creating") []));
    await n <- io (dep_generateDocumentation deps repoStructure (outputDir options)
                     {| gen_semantic := semantic options;
                        gen_includeContentStubs := includeContentStubs options;
                        gen_autoFill := autoFill options;
                        gen_filtered := filteredDocs |}
                     (verbose options));
    await _ <- display (UpdateSpinner
                          (dep_t deps (js "spinner.docs.created") [(js "count", PCount n)])
                          (js "success"));
    eret (n, S currentStep)
  else eret (0%nat, currentStep).

Definition agentsBlock (options : InitOptions) (repoStructure : RepoStructure)
           (skipOverwrites : SkipOverwrites) (filteredAgents : option (list jsstring))
           (currentStep : nat) : Eff (InitState W) (nat * nat) :=
  if scaffoldAgents options && negb (skipAgents skipOverwrites) then
    await _ <- display (DisplayStep currentStep (totalSteps options skipOverwrites)
                          (dep_t deps (js "steps.init.agents") []));
    await _ <- display (StartSpinner
                          (if semantic options
                           then dep_t deps (js "spinner.agents.creatingWithSemantic") []
                           else dep_t deps (js "spinner.agents.creating") []));
    await n <- io (dep_generateAgentPrompts deps repoStructure (outputDir options)
                     {| gen_semantic := semantic options;
                        gen_includeContentStubs := includeContentStubs options;
                        gen_autoFill := autoFill options;
                        gen_filtered := filteredAgents |}
                     (verbose options));
    await _ <- display (UpdateSpinner
                          (dep_t deps (js "spinner.agents.created") [(js "count", PCount n)])
                          (js "success"));
    eret (n, S currentStep)
  else eret (0%nat, currentStep).

Definition skillsBlock (options : InitOptions) (skipOverwrites : SkipOverwrites)
           (currentStep : nat) : Eff (InitState W) (nat * nat) :=
  if scaffoldSkills options && negb (skipSkills skipOverwrites) then
    await _ <- display (DisplayStep currentStep (totalSteps options skipOverwrites)
                          (dep_t deps (js "steps.init.skills") []));
    await _ <- display (StartSpinner (dep_t deps (js "spinner.skills.creating") []));
    await n <-
      tryCatch
        (let relativeOutputDir := dep_relative deps (repoPath options) (outputDir options) in
         await generatedSkills <-
           io (dep_generateSkills deps (repoPath options)
                 (if bool_decide (relativeOutputDir = []) then js ".context"
                  else relativeOutputDir));
         eret (length generatedSkills))
        (eret 0%nat);
    await _ <- display (UpdateSpinner
                          (dep_t deps (js "spinner.skills.created") [(js "count", PCount n)])
                          (js "success"));
    eret (n, S currentStep)
  else eret (0%nat, currentStep).

Definition commandsBlock (options : InitOptions) (skipOverwrites : SkipOverwrites)
           (currentStep : nat) : Eff (InitState W) nat :=
  if scaffoldDocs options || scaffoldAgents options then
    await _ <- display (DisplayStep currentStep (totalSteps options skipOverwrites)
                          (dep_t deps (js "steps.init.commands") []));
    await _ <- display (StartSpinner (dep_t deps (js "spinner.commands.creating") []));
    tryCatch
      (await result <- io (generateCommands (dep_fs deps) (outputDir options) (Some false));
       let n := length (generated result) in
       await _ <- display (UpdateSpinner
                             (dep_t deps (js "spinner.commands.created")
                                [(js "count", PCount n)])
                             (js "success"));
       eret n)
      (eret 0%nat)
  else eret 0%nat.

Definition generateScaffolds (options : InitOptions) (repoStructure : RepoStructure)
           (skipOverwrites : SkipOverwrites) : Eff (InitState W) Generated :=
  await filtered <-
    tryCatch (io (dep_filteredScaffolds deps (repoPath options))) (eret (None, None));
  await docs <- docsBlock options repoStructure skipOverwrites filtered.1 1;
  await agents <- agentsBlock options repoStructure skipOverwrites filtered.2 docs.2;
  await skills <- skillsBlock options skipOverwrites agents.2;
  await commands <- commandsBlock options skipOverwrites skills.2;
  eret {| docsGenerated := docs.1; agentsGenerated := agents.1;
          skillsGenerated := skills.1; commandsGenerated := commands |}.

(** The [options] that [run] builds. *)
Definition initOptions (repo : jsstring) (resolvedType : jsstring)
           (rawOptions : InitCommandFlags) : InitOptions :=
  {| repoPath := dep_resolve deps repo;
     outputDir :=
       dep_resolve deps (match raw_output rawOptions with
                         | Some (c :: o) => c :: o
                         | _ => js "./.context"
                         end);
     include := raw_include rawOptions;
     exclude := default [] (raw_exclude rawOptions);
     verbose := isSet (raw_verbose rawOptions);
     scaffoldDocs :=
       bool_decide (resolvedType = js "docs") || bool_decide (resolvedType = js "both");
     scaffoldAgents :=
       bool_decide (resolvedType = js "agents") || bool_decide (resolvedType = js "both");
     scaffoldSkills := bool_decide (resolvedType = js "both");
     semantic := match raw_semantic rawOptions with Some false => false | _ => true end;
     includeContentStubs :=
       match raw_contentStubs rawOptions with Some false => false | _ => true end;
     autoFill := default false (raw_autoFill rawOptions) |}.

Definition run (repo type : jsstring) (rawOptions : InitCommandFlags)
  : Eff (InitState W) unit :=
  match resolveScaffoldType (dep_unicodeLower deps) (dep_t deps) type rawOptions with
  | inl e => reject e
  | inr resolvedType =>
      let options := initOptions repo resolvedType rawOptions in
      if negb (scaffoldDocs options) && negb (scaffoldAgents options) then
        display (DisplayWarning (dep_t deps (js "warnings.scaffold.noneSelected") []))
      else
        await _ <- ensurePaths options;
        await skipOverwrites <- confirmOverwriteIfNeeded options;
        await _ <- display (DisplayWelcome (dep_version deps));
        await _ <- display (DisplayProjectInfo (repoPath options) (outputDir options)
                              resolvedType);
        await _ <- display (DisplayStep 1 3 (dep_t deps (js "steps.init.analyze") []));
        await _ <- display (StartSpinner (dep_t deps (js "spinner.repo.scanning") []));
        await repoStructure <-
          io (dep_mapRepository deps (exclude options) (repoPath options) (include options));
        await _ <- display (UpdateSpinner
                              (dep_t deps (js "spinner.repo.scanComplete")
                                 [(js "fileCount", PCount (totalFiles repoStructure));
                                  (js "directoryCount",
                                   PCount (length (directories repoStructure)))])
                              (js "success"));
        await counts <- generateScaffolds options repoStructure skipOverwrites;
        await _ <- display (DisplayGenerationSummary counts);
        display (DisplaySuccess (dep_t deps (js "success.scaffold.ready")
                                   [(js "path", PAccent (outputDir options))]))
  end.

End WithDependencies.

(** The step numbers shown, each with the total shown beside it. *)
Definition shown_steps (log : list ui_call) : list (nat * nat) :=
  omap (fun c => match c with DisplayStep cur total _ => Some (cur, total) | _ => None end)
       log.

Definition is_warning (c : ui_call) : bool :=
  match c with DisplayWarning _ => true | _ => false end.

End InitService.

(** ** More of the code in direct form *)

Definition isAsciiString (s : jsstring) : bool := forallb (fun c => c <? 128) s.

Definition isUpperAscii (c : N) : bool := (65 <=? c) && (c <=? 90).

(** Whether a name ends in [.md], in any letter case. *)
Fixpoint has_md_ext (a : jsstring) : bool :=
  match a with
  | [] => false
  | x0 :: a' =>
      match a' with
      | [x1; x2] => isChar 46 x0 && isCharI 109 x1 && isCharI 100 x2
      | _ => has_md_ext a'
      end
  end.

(** The name without its [.md]. *)
Definition md_stem (f : jsstring) : jsstring :=
  if has_md_ext f then take (length f - 3) f else f.

(** One code unit of a workflow file name: [-] becomes [_], a capital
    letter its small letter. *)
Definition workflow_char (c : N) : N := if isChar 45 c then 95 else asciiLower c.

(** Whether the text starts with [---], and whether [---] occurs in it. *)
Definition starts_with_rule (a : jsstring) : bool :=
  match a with
  | x :: y :: z :: _ => isChar 45 x && isChar 45 y && isChar 45 z
  | _ => false
  end.

Fixpoint has_rule (a : jsstring) : bool :=
  starts_with_rule a || match a with [] => false | _ :: a' => has_rule a' end.

(** The text after the prefix [l], when the text starts with it. *)
Fixpoint strip_prefix (l a : jsstring) : option jsstring :=
  match l, a with
  | [], _ => Some a
  | x :: l', y :: a' => if isChar x y then strip_prefix l' a' else None
  | _ :: _, [] => None
  end.

(** The first position, from the left, where [k] accepts. *)
Fixpoint first_some (k : mcont) (b a : jsstring) (c : option jsstring)
  : option (jsstring * jsstring * option jsstring) :=
  match k b a c with
  | Some v => Some v
  | None =>
      match a with
      | [] => None
      | x :: a' => first_some k (x :: b) a' c
      end
  end.

(** The constant [body] of [toAntigravityWorkflowContent]. *)
Definition stripped_body (content : jsstring) : jsstring :=
  trim (replace_first true re_frontmatter [] content).

(** The fields of the result that a step may write: every count and flag
    but the one of step [p] is the same in [r] and [r']; with [None] all
    four are. *)
Definition same_fields_except (p : option pass) (r r' : QuickSyncResult) : Prop :=
  (p <> Some PAgents -> agentsSynced r' = agentsSynced r) /\
  (p <> Some PSkills -> skillsExported r' = skillsExported r) /\
  (p <> Some PCommands -> commandsSynced r' = commandsSynced r) /\
  (p <> Some PDocsCheck -> docsUpdated r' = docsUpdated r).

(** [state.state === 'outdated' && state.details.daysBehind] *)
Definition reportsOutdated (d : Detection) : bool :=
  bool_decide (det_state d = js "outdated") &&
  match det_daysBehind d with Some days => negb (days =? 0) | None => false end.

(** The dependencies with other generators in place of the three of
    [deps]. *)
Definition with_generators {W : Type} (deps : InitService.InitServiceDependencies W)
           (docs agents : InitService.RepoStructure -> path ->
                          InitService.GeneratorOptions -> bool -> Eff W nat)
           (skills : path -> jsstring -> Eff W (list jsstring))
  : InitService.InitServiceDependencies W :=
  {| InitService.dep_fs := InitService.dep_fs deps;
     InitService.dep_unicodeLower := InitService.dep_unicodeLower deps;
     InitService.dep_resolve := InitService.dep_resolve deps;
     InitService.dep_relative := InitService.dep_relative deps;
     InitService.dep_t := InitService.dep_t deps;
     InitService.dep_version := InitService.dep_version deps;
     InitService.dep_prompt := InitService.dep_prompt deps;
     InitService.dep_mapRepository := InitService.dep_mapRepository deps;
     InitService.dep_filteredScaffolds := InitService.dep_filteredScaffolds deps;
     InitService.dep_generateDocumentation := docs;
     InitService.dep_generateAgentPrompts := agents;
     InitService.dep_generateSkills := skills |}.

(** Whether a directory of the in-memory file system has an entry. *)
Definition has_entries (m : gmap path node) (dir : path) : bool :=
  match lookup_node m dir with
  | Some Directory =>
      match (mem_readdir dir m).1 with
      | inr entries => (0 <? length entries)%nat
      | inl _ => false
      end
  | _ => false
  end.

(** Collaborators to run the init service on, in memory: the documentation
    generator rejects when [docsFail] is set, the prompt answers [answer],
    and the stack detection always fails. *)
Definition demo_init_deps (docsFail answer : bool)
  : InitService.InitServiceDependencies (gmap path node) :=
  {| InitService.dep_fs := memfs;
     InitService.dep_unicodeLower := fun s => s;
     InitService.dep_resolve := fun s => [s];
     InitService.dep_relative := fun _ _ => js ".context";
     InitService.dep_t := fun key _ => key;
     InitService.dep_version := js "1.0.0";
     InitService.dep_prompt := fun _ m => (inr answer, m);
     InitService.dep_mapRepository := fun _ _ _ m =>
       (inr {| InitService.totalFiles := 1; InitService.directories := [] |}, m);
     InitService.dep_filteredScaffolds := fun _ m => (inl (ErrorObject (js "no stack")), m);
     InitService.dep_generateDocumentation := fun _ _ _ _ m =>
       (if docsFail then inl (ErrorObject (js "docs failed")) else inr 2%nat, m);
     InitService.dep_generateAgentPrompts := fun _ _ _ _ m => (inr 3%nat, m);
     InitService.dep_generateSkills := fun _ _ m => (inl (ErrorObject (js "no skills")), m) |}.

Definition demo_raw : InitService.InitCommandFlags :=
  {| InitService.raw_output := Some (js "out"); InitService.raw_include := None;
     InitService.raw_exclude := None; InitService.raw_verbose := None;
     InitService.raw_docsOnly := None; InitService.raw_agentsOnly := None;
     InitService.raw_semantic := None; InitService.raw_contentStubs := None;
     InitService.raw_autoFill := None |}.

(** A repository [repo] and an output directory [out] whose [docs] holds a
    file already. *)
Definition demo_init_fs : gmap path node :=
  <[[js "out"; js "docs"; js "README.md"] := File (js "# mine")]>
    (<[[js "out"; js "docs"] := Directory]>
       (<[[js "out"] := Directory]> (<[[js "repo"] := Directory]> ∅))).

(** A computation that displays no warning. *)
Definition quiet {W A : Type} (m : Eff (InitService.InitState W) A) : Prop :=
  forall s, List.filter InitService.is_warning (InitService.is_ui (m s).2)
            = List.filter InitService.is_warning (InitService.is_ui s).

(** A computation that shows no step number. *)
Definition stepless {W A : Type} (m : Eff (InitService.InitState W) A) : Prop :=
  forall s, InitService.shown_steps (InitService.is_ui (m s).2)
            = InitService.shown_steps (InitService.is_ui s).

(** * Properties *)

Lemma star_loop_char ml g p k :
  forall a fuel b c, (length a < fuel)%nat ->
    star_loop (rmatch ml (RChar p)) g k fuel b a c = star_char g p k b a c.
Proof.
  induction a as [|x a IH]; intros fuel b c Hf; destruct fuel as [|fuel];
    simpl in Hf; try lia; simpl.
  - destruct g; [done|]. by destruct (k b [] c).
  - destruct (p x); [|destruct g; [done|by destruct (k b (x :: a) c)]].
    assert (Hlt : (length a <? S (length a))%nat = true) by (apply Nat.ltb_lt; lia).
    rewrite Hlt, IH by lia. done.
Qed.

Lemma rmatch_star_char ml g p k b a c :
  rmatch ml (RStar g (RChar p)) k b a c = star_char g p k b a c.
Proof.
  change (rmatch ml (RStar g (RChar p)) k b a c)
    with (star_loop (rmatch ml (RChar p)) g k (S (length a)) b a c).
  apply star_loop_char. lia.
Qed.

Lemma rmatch_plus_char ml g p k b a c :
  rmatch ml (RPlus g (RChar p)) k b a c =
  match a with
  | x :: a' => if p x then star_char g p k (x :: b) a' c else None
  | [] => None
  end.
Proof.
  unfold RPlus.
  change (rmatch ml (RSeq (RChar p) (RStar g (RChar p))) k b a c)
    with (match a with
          | x :: a' => if p x then rmatch ml (RStar g (RChar p)) k (x :: b) a' c else None
          | [] => None
          end).
  destruct a as [|x a]; [done|].
  destruct (p x); [|done]. apply rmatch_star_char.
Qed.

(** ** Unfolding the matcher *)

Arguments rmatch : simpl never.

Lemma rmatch_seq ml r1 r2 k b a c :
  rmatch ml (RSeq r1 r2) k b a c = rmatch ml r1 (rmatch ml r2 k) b a c.
Proof. reflexivity. Qed.

Lemma rmatch_char ml p k b a c :
  rmatch ml (RChar p) k b a c =
  match a with
  | x :: a' => if p x then k (x :: b) a' c else None
  | [] => None
  end.
Proof. reflexivity. Qed.

Lemma rmatch_alt ml r1 r2 k b a c :
  rmatch ml (RAlt r1 r2) k b a c =
  match rmatch ml r1 k b a c with
  | Some v => Some v
  | None => rmatch ml r2 k b a c
  end.
Proof. reflexivity. Qed.

Lemma rmatch_bol ml k b a c :
  rmatch ml RBol k b a c = if atBol ml b then k b a c else None.
Proof. reflexivity. Qed.

Lemma rmatch_eol ml k b a c :
  rmatch ml REol k b a c = if atEol ml a then k b a c else None.
Proof. reflexivity. Qed.

Lemma rmatch_group ml r k b a c :
  rmatch ml (RGroup r) k b a c =
  rmatch ml r (fun b' a' _ => k b' a' (Some (take (length a - length a') a))) b a c.
Proof. reflexivity. Qed.

Lemma exec_from_eq ml r sk b a :
  exec_from ml r sk b a =
  match rmatch ml r mfinal b a None with
  | Some (b1, a1, c) =>
      Some (RMatched (rev sk) (take (length a - length a1) a) a1 b1 c)
  | None =>
      match a with
      | [] => None
      | x :: a' => exec_from ml r (x :: sk) (x :: b) a'
      end
  end.
Proof. destruct a; reflexivity. Qed.

(** ** Runs of a character class *)

Lemma take_drop_while p s : takeWhile p s ++ dropWhile p s = s.
Proof. induction s as [|x s IH]; simpl; [done|]. destruct (p x); simpl; congruence. Qed.

Lemma takeWhile_all p s : forallb p (takeWhile p s) = true.
Proof. induction s as [|x s IH]; simpl; [done|]. destruct (p x) eqn:E; simpl; [|done]. by rewrite E. Qed.

Lemma dropWhile_head p s x s' : dropWhile p s = x :: s' -> p x = false.
Proof.
  induction s as [|y s IH]; simpl; [done|].
  destruct (p y) eqn:E; [done|]. intros [= -> _]. done.
Qed.

Lemma dropWhile_length p s : (length (dropWhile p s) <= length s)%nat.
Proof. induction s as [|x s IH]; simpl; [done|]. destruct (p x); simpl; lia. Qed.

(** What a successful match of [p*] followed by [k] consumed. *)
Lemma star_char_sound g p k : forall a b c v,
  star_char g p k b a c = Some v ->
  exists a1 a2, a = a1 ++ a2 /\ forallb p a1 = true /\ k (rev a1 ++ b) a2 c = Some v.
Proof.
  induction a as [|x a IH]; intros b c v H; simpl in H.
  - exists [], []. done.
  - destruct (p x) eqn:E; [|by exists [], (x :: a)].
    assert (Hrec : star_char g p k (x :: b) a c = Some v \/ k b (x :: a) c = Some v).
    { destruct g.
      - destruct (star_char true p k (x :: b) a c); [left; congruence|by right].
      - destruct (k b (x :: a) c); [right; congruence|by left]. }
    destruct Hrec as [Hrec|Hk]; [|by exists [], (x :: a)].
    destruct (IH _ _ _ Hrec) as (a1 & a2 & -> & Hall & Hk).
    exists (x :: a1), a2. simpl. rewrite E, Hall. split; [done|split; [done|]].
    by rewrite <- app_assoc.
Qed.

(** [p*] followed by [k] matches as soon as some run of [p] does. *)
Lemma star_char_complete g p k : forall a1 a2 b c,
  forallb p a1 = true -> is_Some (k (rev a1 ++ b) a2 c) ->
  is_Some (star_char g p k b (a1 ++ a2) c).
Proof.
  induction a1 as [|x a1 IH]; intros a2 b c Hall Hk; simpl in *.
  - destruct a2 as [|y a2]; simpl; [done|].
    destruct (p y); [|done].
    destruct g.
    + destruct (star_char true p k (y :: b) a2 c); [done|done].
    + destruct Hk as [v Hk]. by rewrite Hk.
  - apply andb_prop in Hall as [Hx Hall]. rewrite Hx.
    assert (Hrec : is_Some (star_char g p k (x :: b) (a1 ++ a2) c)).
    { apply IH; [done|]. by rewrite <- app_assoc in Hk. }
    destruct Hrec as [v Hv]. rewrite Hv.
    destruct g; [done|]. by destruct (k b (x :: a1 ++ a2) c).
Qed.

(** The greedy form returns what [k] gives after the longest run, when [k]
    succeeds there. *)
Lemma star_char_greedy_max p k : forall a b c v,
  k (rev (takeWhile p a) ++ b) (dropWhile p a) c = Some v ->
  star_char true p k b a c = Some v.
Proof.
  induction a as [|x a IH]; intros b c v H; simpl in *; [done|].
  destruct (p x); [|done].
  simpl in H. rewrite <- app_assoc in H. simpl in H. by rewrite (IH _ _ _ H).
Qed.

(** The lazy form stops at the end of the run when [k] rejects every
    position inside it. *)
Lemma star_char_lazy_run p k c :
  (forall b x a, p x = true -> k b (x :: a) c = None) ->
  forall a b, star_char false p k b a c = k (rev (takeWhile p a) ++ b) (dropWhile p a) c.
Proof.
  intros Hk. induction a as [|x a IH]; intros b; simpl; [done|].
  destruct (p x) eqn:E; [|done].
  rewrite (Hk _ _ _ E), IH. simpl. by rewrite <- app_assoc.
Qed.

Lemma star_char_final g p b a c : is_Some (star_char g p mfinal b a c).
Proof. apply (star_char_complete g p mfinal [] a b c); done. Qed.

(** ** Searching for a single code unit *)

Ltac charcases :=
  repeat match goal with
    | |- context [(?a <=? ?b)%N] => destruct (N.leb_spec a b)
    | |- context [(?a <? ?b)%N] => destruct (N.ltb_spec a b)
    | |- context [(?a =? ?b)%N] => destruct (N.eqb_spec a b)
    | H : context [(?a <=? ?b)%N] |- _ => destruct (N.leb_spec a b)
    | H : context [(?a <? ?b)%N] |- _ => destruct (N.ltb_spec a b)
    | H : context [(?a =? ?b)%N] |- _ => destruct (N.eqb_spec a b)
    end; simpl in *; try done; try lia.

Lemma take_one_more {A} (x : A) (l : list A) :
  take (length (x :: l) - length l) (x :: l) = [x].
Proof. simpl. replace (S (length l) - length l)%nat with 1%nat by lia. done. Qed.

Lemma exec_from_char ml p : forall a sk b,
  exec_from ml (RChar p) sk b a =
  match dropWhile (fun x => negb (p x)) a with
  | [] => None
  | x :: a' =>
      Some (RMatched (rev sk ++ takeWhile (fun x => negb (p x)) a) [x] a'
              (x :: rev (takeWhile (fun x => negb (p x)) a) ++ b) None)
  end.
Proof.
  induction a as [|x a IH]; intros sk b; [done|].
  rewrite exec_from_eq, rmatch_char. simpl dropWhile. simpl takeWhile.
  destruct (p x); simpl negb; cbv iota.
  - unfold mfinal. rewrite take_one_more. by rewrite app_nil_r.
  - rewrite IH. destruct (dropWhile _ a); [done|].
    simpl. by rewrite <- !app_assoc.
Qed.

Lemma subst_char_app p repl s1 s2 :
  subst_char p repl (s1 ++ s2) = subst_char p repl s1 ++ subst_char p repl s2.
Proof. unfold subst_char. apply flat_map_app. Qed.

Lemma subst_char_none p repl s :
  forallb (fun x => negb (p x)) s = true -> subst_char p repl s = s.
Proof.
  induction s as [|x s IH]; simpl; [done|].
  intros [Hx Hs]%andb_prop. destruct (p x); [done|]. simpl. by rewrite (IH Hs).
Qed.

Lemma replace_all_from_char ml p repl : forall fuel a b,
  (length a < fuel)%nat ->
  replace_all_from fuel ml (RChar p) repl b a = subst_char p repl a.
Proof.
  induction fuel as [|fuel IH]; intros a b Hf; [lia|].
  simpl replace_all_from. rewrite exec_from_char.
  pose proof (take_drop_while (fun x => negb (p x)) a) as Hsplit.
  pose proof (takeWhile_all (fun x => negb (p x)) a) as Hall.
  pose proof (dropWhile_length (fun x => negb (p x)) a) as Hlen.
  destruct (dropWhile (fun x => negb (p x)) a) as [|x a'] eqn:E.
  - rewrite app_nil_r in Hsplit. rewrite Hsplit in Hall.
    by rewrite subst_char_none.
  - apply dropWhile_head in E as Hx. apply negb_false_iff in Hx.
    simpl. rewrite IH by (simpl in Hlen; lia).
    transitivity (subst_char p repl (takeWhile (fun x => negb (p x)) a ++ x :: a'));
      [|by rewrite Hsplit].
    rewrite subst_char_app, (subst_char_none _ _ _ Hall).
    unfold subst_char at 2. simpl. by rewrite Hx.
Qed.

Lemma replace_all_char ml p repl s :
  replace_all ml (RChar p) repl s = subst_char p repl s.
Proof. apply replace_all_from_char. lia. Qed.

(** ** [toAntigravityFilename] *)

Lemma re_md_ext_long b a :
  (3 < length a)%nat -> rmatch false re_md_ext mfinal b a None = None.
Proof.
  intros Hlen. unfold re_md_ext. rewrite !rmatch_seq, rmatch_char.
  destruct a as [|x0 [|x1 [|x2 [|x3 a]]]]; simpl in Hlen; try lia.
  destruct (isChar 46 x0); [|done].
  rewrite rmatch_seq, rmatch_char. destruct (isCharI 109 x1); [|done].
  rewrite rmatch_seq, rmatch_char. destruct (isCharI 100 x2); [|done].
  reflexivity.
Qed.

Lemma exec_md_ext : forall base sk b,
  exec_from false re_md_ext sk b (base ++ js ".md") =
  Some (RMatched (rev sk ++ base) (js ".md") [] (rev (js ".md") ++ rev base ++ b) None).
Proof.
  induction base as [|x base IH]; intros sk b.
  - simpl. by rewrite app_nil_r.
  - rewrite exec_from_eq, re_md_ext_long.
    + change ((x :: base) ++ js ".md") with (x :: (base ++ js ".md")).
      cbv iota. rewrite IH. simpl rev. by rewrite <- !app_assoc.
    + simpl. rewrite length_app. simpl. lia.
Qed.

Lemma strip_md_ext base : replace_first false re_md_ext [] (base ++ js ".md") = base.
Proof.
  unfold replace_first, exec. rewrite exec_md_ext. simpl. by rewrite app_nil_r.
Qed.

Lemma kebab_not_dash c : isKebabChar c = true -> negb (isChar 45 c) = true.
Proof. unfold isKebabChar, isChar. charcases. Qed.

Lemma kebab_lower c :
  isKebabChar c = true \/ c = 95 -> (c <? 128) = true /\ asciiLower c = c.
Proof. unfold isKebabChar, asciiLower. intros [H| ->]; [|done]. charcases. Qed.

Lemma subst_dash_join segs :
  kebab_segments segs ->
  subst_char (isChar 45) (js "_") (join (js "-") segs) = join (js "_") segs.
Proof.
  induction 1 as [|seg segs Hseg Hsegs IH]; [done|].
  assert (Hs : subst_char (isChar 45) (js "_") seg = seg).
  { apply subst_char_none. clear -Hseg. induction seg as [|c seg IH]; [done|].
    simpl in *. apply andb_prop in Hseg as [Hc Hseg].
    by rewrite (kebab_not_dash c Hc), (IH Hseg). }
  destruct segs as [|seg' segs]; [done|].
  change (join (js "-") (seg :: seg' :: segs))
    with (seg ++ js "-" ++ join (js "-") (seg' :: segs)).
  change (join (js "_") (seg :: seg' :: segs))
    with (seg ++ js "_" ++ join (js "_") (seg' :: segs)).
  rewrite !subst_char_app, Hs, IH. done.
Qed.

Lemma join_underscore_lower segs :
  kebab_segments segs ->
  Forall (fun c => (c <? 128) = true /\ asciiLower c = c) (join (js "_") segs).
Proof.
  induction 1 as [|seg segs Hseg Hsegs IH]; [constructor|].
  assert (Hs : Forall (fun c => (c <? 128) = true /\ asciiLower c = c) seg).
  { clear -Hseg. induction seg as [|c seg IH]; [constructor|].
    simpl in Hseg. apply andb_prop in Hseg as [Hc Hseg].
    constructor; [apply kebab_lower; by left|by apply IH]. }
  destruct segs as [|seg' segs]; [done|].
  change (join (js "_") (seg :: seg' :: segs))
    with (seg ++ js "_" ++ join (js "_") (seg' :: segs)).
  apply Forall_app; split; [done|].
  apply Forall_app; split; [|done].
  repeat constructor.
Qed.

Lemma toLowerCase_fixed unicodeLower s :
  Forall (fun c => (c <? 128) = true /\ asciiLower c = c) s ->
  toLowerCase unicodeLower s = s.
Proof.
  intros H. unfold toLowerCase.
  assert (Ha : forallb (fun c => c <? 128) s = true).
  { induction H as [|c s [Hc _] _ IH]; [done|]. simpl. by rewrite Hc, IH. }
  rewrite Ha. induction H as [|c s [_ Hc] Hs IH]; [done|].
  simpl in Ha. apply andb_prop in Ha as [_ Ha].
  rewrite fmap_cons, Hc. f_equal. by apply IH.
Qed.

(** C8.  For every kebab-case file name [x-y-z.md] (segments of lower-case
    letters and digits joined by [-], any number of them),
    [toAntigravityFilename] yields [x_y_z.md]: every [-] replaced by [_],
    lower case, one [.md] extension. *)
Theorem toAntigravityFilename_kebab unicodeLower segs :
  kebab_segments segs ->
  toAntigravityFilename unicodeLower (join (js "-") segs ++ js ".md")
  = join (js "_") segs ++ js ".md".
Proof.
  intros Hk. unfold toAntigravityFilename.
  rewrite strip_md_ext. unfold re_dash.
  rewrite replace_all_char, (subst_dash_join _ Hk).
  by rewrite (toLowerCase_fixed _ _ (join_underscore_lower _ Hk)).
Qed.

Lemma toAntigravityFilename_kebab_witness :
  kebab_segments [js "init"; js "mcp"; js "only"] /\
  toAntigravityFilename (fun s => s) (js "init-mcp-only.md") = js "init_mcp_only.md".
Proof.
  assert (H : kebab_segments [js "init"; js "mcp"; js "only"])
    by (repeat constructor).
  split; [exact H|].
  exact (toAntigravityFilename_kebab (fun s => s) [js "init"; js "mcp"; js "only"] H).
Defined.

(** ** Where a search succeeds *)

Lemma exec_from_is_Some ml r : forall a sk b,
  is_Some (exec_from ml r sk b a) <->
  exists a1 a2, a = a1 ++ a2 /\ is_Some (rmatch ml r mfinal (rev a1 ++ b) a2 None).
Proof.
  induction a as [|x a IH]; intros sk b; rewrite exec_from_eq.
  - split.
    + intros H. exists [], []. split; [done|]. simpl.
      destruct (rmatch ml r mfinal b [] None); [done|by destruct H].
    + intros (a1 & a2 & Heq & Hm). symmetry in Heq.
      apply app_eq_nil in Heq as [-> ->]. simpl in Hm.
      destruct (rmatch ml r mfinal b [] None) as [[[? ?] ?]|]; [done|by destruct Hm].
  - split.
    + intros H.
      destruct (rmatch ml r mfinal b (x :: a) None) as [v|] eqn:E.
      * exists [], (x :: a). split; [done|]. simpl. by rewrite E.
      * apply IH in H as (a1 & a2 & -> & Hm).
        exists (x :: a1), a2. split; [done|]. simpl. by rewrite <- app_assoc.
    + intros (a1 & a2 & Heq & Hm).
      destruct (rmatch ml r mfinal b (x :: a) None) as [[[? ?] ?]|] eqn:E; [done|].
      destruct a1 as [|y a1]; simpl in Heq.
      * subst a2. simpl in Hm. rewrite E in Hm. by destruct Hm.
      * injection Heq as <- ->. apply IH. exists a1, a2. split; [done|].
        simpl in Hm. by rewrite <- app_assoc in Hm.
Qed.

Lemma test_true_iff ml r s :
  test ml r s = true <->
  exists a1 a2, s = a1 ++ a2 /\ is_Some (rmatch ml r mfinal (rev a1) a2 None).
Proof.
  unfold test, exec. split.
  - intros H. destruct (exec_from ml r [] [] s) eqn:E; [|done].
    assert (Hs : is_Some (exec_from ml r [] [] s)) by (by rewrite E).
    apply exec_from_is_Some in Hs as (a1 & a2 & Heq & Hm).
    rewrite app_nil_r in Hm. by exists a1, a2.
  - intros (a1 & a2 & Heq & Hm).
    assert (Hs : is_Some (exec_from ml r [] [] s)).
    { apply exec_from_is_Some. exists a1, a2. by rewrite app_nil_r. }
    by destruct Hs as [m ->].
Qed.

Lemma atBol_line_start a1 : atBol true (rev a1) = true <-> line_start a1.
Proof.
  unfold line_start. destruct a1 as [|x a1 _] using rev_ind.
  - simpl. split; [by left|done].
  - rewrite rev_unit. simpl. split.
    + intros H. right. by exists a1, x.
    + intros [H|(pre & t & Heq & Ht)]; [by destruct a1|].
      apply app_inj_tail in Heq as [_ ->]. done.
Qed.

(** ** [ensureSteps] *)

Lemma re_numbered_match b a :
  is_Some (rmatch true re_numbered mfinal b a None) <->
  atBol true b = true /\
  exists ds w post, a = ds ++ 46 :: w :: post /\ ds <> [] /\
                    forallb isDigit ds = true /\ isSpace w = true.
Proof.
  unfold re_numbered. rewrite rmatch_seq, rmatch_bol, rmatch_seq, rmatch_plus_char.
  destruct (atBol true b); [|split; [by intros []|by intros []]].
  split.
  - intros [v Hv]. split; [done|].
    destruct a as [|x a]; [done|]. destruct (isDigit x) eqn:Ex; [|done].
    apply star_char_sound in Hv as (d1 & a2 & -> & Hd & Hk).
    rewrite rmatch_seq, rmatch_char in Hk.
    destruct a2 as [|y a2]; [done|]. destruct (isChar 46 y) eqn:Ey; [|done].
    rewrite rmatch_plus_char in Hk.
    destruct a2 as [|w a2]; [done|]. destruct (isSpace w) eqn:Ew; [|done].
    exists (x :: d1), w, a2. unfold isChar in Ey. apply N.eqb_eq in Ey as ->.
    simpl. by rewrite Ex, Hd.
  - intros (_ & ds & w & post & -> & Hne & Hd & Hw).
    destruct ds as [|x d1]; [done|]. simpl in Hd. apply andb_prop in Hd as [Hx Hd].
    simpl. rewrite Hx. apply star_char_complete; [done|].
    rewrite rmatch_seq, rmatch_char. simpl. rewrite rmatch_plus_char, Hw.
    apply star_char_final.
Qed.

Lemma test_numbered s : test true re_numbered s = true <-> has_numbered_item s.
Proof.
  rewrite test_true_iff. unfold has_numbered_item. split.
  - intros (a1 & a2 & -> & Hm). apply re_numbered_match in Hm as (Hb & ds & w & post & -> & ?).
    exists a1, ds, w, post. split; [done|]. split; [by apply atBol_line_start|done].
  - intros (pre & ds & w & post & -> & Hpre & H).
    exists pre, (ds ++ 46 :: w :: post). split; [done|].
    apply re_numbered_match. split; [by apply atBol_line_start|].
    by exists ds, w, post.
Qed.

Lemma split_from_char ml p : forall a fuel b cur,
  (length a < fuel)%nat -> split_from fuel ml (RChar p) b cur a = split_on p cur a.
Proof.
  induction a as [|x a IH]; intros fuel b cur Hf; destruct fuel as [|fuel];
    simpl in Hf; try lia; [done|].
  simpl split_from. simpl split_on. rewrite rmatch_char. unfold mfinal.
  destruct (p x); simpl.
  - assert (Hlen : (length a =? S (length a))%nat = false) by (apply Nat.eqb_neq; lia).
    rewrite Hlen. simpl. f_equal. apply IH. lia.
  - apply IH. lia.
Qed.

Lemma split_char ml p s : split ml (RChar p) s = split_on p [] s.
Proof.
  destruct s as [|x s]; [done|]. unfold split. apply split_from_char. simpl. lia.
Qed.

Lemma split_on_nonempty p : forall a cur, split_on p cur a <> [].
Proof. induction a as [|x a IH]; intros cur; simpl; [done|]. by destruct (p x). Qed.

Lemma join_cons sep p ps :
  ps <> [] -> join sep (p :: ps) = p ++ sep ++ join sep ps.
Proof. by destruct ps. Qed.

Lemma join_split_on x sep : forall a cur,
  join (x :: sep) (split_on (isChar x) cur a) = rev cur ++ subst_char (isChar x) (x :: sep) a.
Proof.
  induction a as [|y a IH]; intros cur; simpl.
  - by rewrite app_nil_r.
  - destruct (isChar x y) eqn:E.
    + rewrite join_cons by apply split_on_nonempty. by rewrite IH.
    + rewrite IH. simpl. by rewrite <- app_assoc.
Qed.

Lemma ensureSteps_unfold body :
  ensureSteps body =
  if test true re_numbered (trim body) then trim body else wrap_as_step (trim body).
Proof.
  unfold ensureSteps, wrap_as_step, indent_continuation, re_newline.
  destruct (test true re_numbered (trim body)); [done|].
  rewrite split_char. f_equal. apply (join_split_on 10 (js "   ")).
Qed.

Lemma ensureSteps_cases body :
  (has_numbered_item (trim body) -> ensureSteps body = trim body) /\
  (~ has_numbered_item (trim body) -> ensureSteps body = wrap_as_step (trim body)).
Proof.
  rewrite ensureSteps_unfold.
  destruct (test true re_numbered (trim body)) eqn:E.
  - split; [done|]. intros Hn. destruct Hn. by apply test_numbered.
  - split; [|done]. intros Hn%test_numbered. congruence.
Qed.

Lemma numbered_item_literal_any s : has_numbered_item_literal s -> has_numbered_item s.
Proof.
  intros (pre & ds & post & -> & Hpre & Hds & Hdig).
  by exists pre, ds, 32, post.
Qed.

(** C9, amended.  [ensureSteps] receives its body trimmed (its only caller
    passes the text without leading and trailing white space).  On such a
    body: when a line starts with digits, a dot and one white-space code
    unit, a space as the claim says or any other, a tab for one, the body
    is returned verbatim; otherwise it is returned wrapped as one numbered
    step, [1. ] in front and every continuation line indented by three
    spaces. *)
Theorem ensureSteps_trimmed body :
  trim body = body ->
  (has_numbered_item body -> ensureSteps body = body) /\
  (~ has_numbered_item body -> ensureSteps body = wrap_as_step body) /\
  (has_numbered_item_literal body -> ensureSteps body = body).
Proof.
  intros Ht. destruct (ensureSteps_cases body) as [H1 H2]. rewrite Ht in H1, H2.
  split; [done|]. split; [done|].
  intros H. by apply H1, numbered_item_literal_any.
Qed.

(** ** White space at the ends *)

Lemma isSpace_not_dot x : isSpace x = false -> isDot x = true.
Proof.
  unfold isSpace, isDot. destruct (isLineTerminator x); [|done].
  by rewrite orb_true_r.
Qed.

Lemma isDot_false x : isDot x = false -> isLineTerminator x = true.
Proof. unfold isDot. by destruct (isLineTerminator x). Qed.

Lemma dropWhile_nil_all p s : dropWhile p s = [] -> forallb p s = true.
Proof.
  intros H. pose proof (take_drop_while p s) as Hs. rewrite H, app_nil_r in Hs.
  rewrite <- Hs. apply takeWhile_all.
Qed.

Lemma dropWhile_all_nil p s : forallb p s = true -> dropWhile p s = [].
Proof.
  induction s as [|x s IH]; simpl; [done|].
  intros [Hx Hs]%andb_prop. rewrite Hx. by apply IH.
Qed.

Lemma forallb_rev p (s : jsstring) : forallb p (rev s) = forallb p s.
Proof.
  induction s as [|x s IH]; simpl; [done|].
  rewrite forallb_app, IH. simpl. rewrite andb_true_r. apply andb_comm.
Qed.

Lemma clean_end_suffix a1 a2 : clean_end (a1 ++ a2) -> clean_end a2.
Proof. intros H s' x ->. apply (H (a1 ++ s') x). by rewrite <- app_assoc. Qed.

Lemma clean_end_tail x a : clean_end (x :: a) -> clean_end a.
Proof. apply (clean_end_suffix [x] a). Qed.

Lemma trimEnd_clean s : clean_end (trimEnd s).
Proof.
  intros s' x H. unfold trimEnd in H.
  apply (f_equal (@rev N)) in H. rewrite rev_involutive, rev_unit in H.
  by apply dropWhile_head in H.
Qed.

Lemma trim_clean s : clean_end (trim s).
Proof. apply trimEnd_clean. Qed.

Lemma clean_end_spaces w s :
  clean_end (w :: s) -> isSpace w = true -> dropWhile isSpace s <> [].
Proof.
  intros Hc Hw Hd. apply dropWhile_nil_all in Hd.
  destruct s as [|x s _] using rev_ind.
  - specialize (Hc [] w eq_refl). congruence.
  - rewrite forallb_app in Hd. apply andb_prop in Hd as [_ Hx]. simpl in Hx.
    specialize (Hc (w :: s) x eq_refl). rewrite Hc in Hx. done.
Qed.

Lemma trimEnd_decomp s :
  exists v, s = trimEnd s ++ v /\ forallb isSpace v = true.
Proof.
  exists (rev (takeWhile isSpace (rev s))). split.
  - unfold trimEnd. rewrite <- rev_app_distr, take_drop_while. by rewrite rev_involutive.
  - rewrite forallb_rev. apply takeWhile_all.
Qed.

Lemma trimEnd_fixed s : clean_end s -> trimEnd s = s.
Proof.
  intros Hc. destruct s as [|x s _] using rev_ind; [done|].
  unfold trimEnd, trimStart. rewrite rev_unit. simpl.
  rewrite (Hc s x eq_refl). simpl. by rewrite rev_involutive.
Qed.

Lemma trimStart_spaces_app w s : forallb isSpace w = true -> trimStart (w ++ s) = trimStart s.
Proof.
  unfold trimStart. induction w as [|y w IH]; simpl; [done|].
  intros [Hy Hw]%andb_prop. rewrite Hy. by apply IH.
Qed.

Lemma trimEnd_app_spaces u v : forallb isSpace v = true -> trimEnd (u ++ v) = trimEnd u.
Proof.
  intros Hv. unfold trimEnd. rewrite rev_app_distr, trimStart_spaces_app; [done|].
  by rewrite forallb_rev.
Qed.

Lemma trimStart_app_spaces u v :
  forallb isSpace v = true -> trimEnd (trimStart (u ++ v)) = trimEnd (trimStart u).
Proof.
  intros Hv. unfold trimStart. induction u as [|x u IH]; simpl.
  - by rewrite (dropWhile_all_nil _ _ Hv).
  - destruct (isSpace x); [done|]. by apply (trimEnd_app_spaces (x :: u) v).
Qed.

Lemma trim_app_spaces u v : forallb isSpace v = true -> trim (u ++ v) = trim u.
Proof. apply trimStart_app_spaces. Qed.

Lemma trim_spaces_app w s : forallb isSpace w = true -> trim (w ++ s) = trim s.
Proof. intros H. unfold trim. by rewrite trimStart_spaces_app. Qed.

Lemma trim_all_spaces s : forallb isSpace s = true -> trim s = [].
Proof. intros H. unfold trim, trimStart. by rewrite (dropWhile_all_nil _ _ H). Qed.

Lemma nonblank_dropWhile s : nonblank s -> nonblank (dropWhile isSpace s).
Proof.
  intros (x & Hin & Hx). exists x. split; [|done].
  induction s as [|y s IH]; [done|]. simpl.
  destruct (isSpace y) eqn:Ey; [|done].
  apply elem_of_cons in Hin as [->|Hin]; [congruence|by apply IH].
Qed.

Lemma nonblank_rev s : nonblank s -> nonblank (rev s).
Proof.
  intros (x & Hin & Hx). exists x. split; [|done].
  apply list_elem_of_In, in_rev. rewrite rev_involutive. by apply list_elem_of_In.
Qed.

Lemma nonblank_trim s : nonblank s -> nonblank (trim s).
Proof.
  intros H. unfold trim, trimEnd, trimStart.
  by apply nonblank_rev, nonblank_dropWhile, nonblank_rev, nonblank_dropWhile.
Qed.

Lemma nonblank_nonempty s : nonblank s -> s <> [].
Proof. intros (x & Hin & _) ->. by apply not_elem_of_nil in Hin. Qed.

Lemma nonblank_head x s : isSpace x = false -> nonblank (x :: s).
Proof. intros H. exists x. split; [left|done]. Qed.

Lemma trim_nonempty_nonblank s : trim s <> [] -> nonblank (trim s).
Proof.
  intros H. unfold trim in *. unfold trimStart in *.
  destruct (dropWhile isSpace s) as [|x t] eqn:E; [done|].
  apply dropWhile_head in E.
  unfold trimEnd. apply nonblank_rev, nonblank_dropWhile, nonblank_rev.
  by apply nonblank_head.
Qed.

(** ** The heading pattern *)

Lemma take_takeWhile p a : take (length a - length (dropWhile p a)) a = takeWhile p a.
Proof.
  induction a as [|x a IH]; [done|]. simpl.
  destruct (p x).
  - rewrite Nat.sub_succ_l by apply dropWhile_length. simpl. by rewrite IH.
  - simpl. by rewrite Nat.sub_diag.
Qed.

(** From the first code unit of the heading text on: the lazy [.+?] runs to
    the end of the line, where the line feed or [$] matches. *)
Lemma re_heading_text x text b c :
  isSpace x = false ->
  exists b1 a1,
    rmatch true (RSeq (RGroup (RPlus false (RChar isDot)))
                      (RAlt (RChar (isChar 10)) REol)) mfinal b (x :: text) c
    = Some (b1, a1, Some (takeWhile isDot (x :: text))).
Proof.
  intros Hx. pose proof (isSpace_not_dot x Hx) as Hd.
  rewrite rmatch_seq, rmatch_group, rmatch_plus_char, Hd.
  rewrite star_char_lazy_run; cbv beta.
  2: { intros b' y a' Hy. rewrite rmatch_alt, rmatch_char.
       assert (Hy10 : isChar 10 y = false).
       { unfold isChar. destruct (N.eqb_spec y 10) as [->|]; [done|done]. }
       rewrite Hy10, rmatch_eol. simpl atEol.
       unfold isDot in Hy. apply negb_true_iff in Hy. by rewrite Hy. }
  assert (Hg : take (length (x :: text) - length (dropWhile isDot text)) (x :: text)
               = takeWhile isDot (x :: text)).
  { simpl takeWhile. rewrite Hd. simpl length.
    rewrite Nat.sub_succ_l by apply dropWhile_length. simpl. f_equal.
    apply take_takeWhile. }
  rewrite Hg, rmatch_alt, rmatch_char.
  destruct (dropWhile isDot text) as [|y A] eqn:E.
  - rewrite rmatch_eol. simpl. unfold mfinal. eauto.
  - destruct (isChar 10 y); [unfold mfinal; eauto|].
    rewrite rmatch_eol. simpl atEol.
    apply dropWhile_head, isDot_false in E. rewrite E. unfold mfinal. eauto.
Qed.

(** A match of the heading pattern at one position, on a text without
    white space at its end. *)
Lemma re_heading_at b a :
  clean_end a ->
  (rmatch true re_heading mfinal b a None = None /\
   (atBol true b = false \/ heading_at a = None)) \/
  (exists b1 a1 g,
      rmatch true re_heading mfinal b a None = Some (b1, a1, Some g) /\
      atBol true b = true /\ heading_at a = Some (trim g)).
Proof.
  intros Hc. unfold re_heading. rewrite rmatch_seq, rmatch_bol.
  destruct (atBol true b) eqn:Eb; [|left; auto].
  rewrite rmatch_seq, rmatch_char.
  destruct a as [|x0 a]; [left; auto|].
  destruct a as [|w s'].
  - left. split; [|by right]. destruct (isChar 35 x0); [|done].
    by rewrite rmatch_seq, rmatch_plus_char.
  - simpl heading_at. destruct (isChar 35 x0) eqn:E0; simpl andb; [|left; auto].
    rewrite rmatch_seq, rmatch_plus_char. destruct (isSpace w) eqn:Ew; [|left; auto].
    pose proof (clean_end_spaces w s' (clean_end_tail _ _ Hc) Ew) as Hne.
    unfold trimStart. destruct (dropWhile isSpace s') as [|x text] eqn:Ed; [done|].
    right. apply dropWhile_head in Ed as Hx.
    destruct (re_heading_text x text (rev (takeWhile isSpace s') ++ w :: x0 :: b) None Hx)
      as (b1 & a1 & Hm).
    exists b1, a1, (takeWhile isDot (x :: text)). split; [|done].
    apply star_char_greedy_max. rewrite Ed. exact Hm.
Qed.

Lemma first_heading_from_cons bol x s :
  first_heading_from bol (x :: s) =
  match (if bol then heading_at (x :: s) else None) with
  | Some h => Some h
  | None => first_heading_from (isLineTerminator x) s
  end.
Proof. reflexivity. Qed.

(** The search for the heading pattern finds the first heading line. *)
Lemma exec_heading : forall a sk b,
  clean_end a ->
  (fun m => trim (group1 m)) <$> exec_from true re_heading sk b a
  = first_heading_from (atBol true b) a.
Proof.
  induction a as [|x a IH]; intros sk b Hc; rewrite exec_from_eq;
    destruct (re_heading_at b _ Hc) as [[Hm Hn]|(b1 & a1 & g & Hm & Hb & Hh)];
    rewrite Hm.
  - done.
  - done.
  - rewrite IH by (by eapply clean_end_tail). rewrite first_heading_from_cons.
    destruct Hn as [-> | ->]; [done|]. by destruct (atBol true b).
  - rewrite first_heading_from_cons. by rewrite Hb, Hh.
Qed.

(** Capture group 1 takes part in every match of the heading pattern. *)
Lemma re_heading_group_defined b a v :
  rmatch true re_heading mfinal b a None = Some v -> is_Some (v.2).
Proof.
  unfold re_heading. rewrite rmatch_seq, rmatch_bol.
  destruct (atBol true b); [|done].
  rewrite rmatch_seq, rmatch_char. destruct a as [|x0 a]; [done|].
  destruct (isChar 35 x0); [|done].
  rewrite rmatch_seq, rmatch_plus_char. destruct a as [|w a]; [done|].
  destruct (isSpace w); [|done].
  intros (a1 & a2 & -> & _ & Hk)%star_char_sound.
  rewrite rmatch_seq, rmatch_group, rmatch_plus_char in Hk.
  destruct a2 as [|y a2]; [done|]. destruct (isDot y); [|done].
  apply star_char_sound in Hk as (a3 & a4 & -> & _ & Hk).
  rewrite rmatch_alt, rmatch_char, rmatch_eol in Hk. unfold mfinal in Hk.
  destruct a4 as [|z a4]; simpl in Hk.
  - by injection Hk as <-.
  - destruct (isChar 10 z); [by injection Hk as <-|].
    destruct (isLineTerminator z); [by injection Hk as <-|done].
Qed.

(** ** The first line *)

Lemma split_on_head p : forall a cur,
  exists rest, split_on p cur a = (rev cur ++ takeWhile (fun x => negb (p x)) a) :: rest.
Proof.
  induction a as [|x a IH]; intros cur; simpl.
  - exists []. by rewrite app_nil_r.
  - destruct (p x); simpl.
    + eexists. by rewrite app_nil_r.
    + destruct (IH (x :: cur)) as [rest ->]. exists rest. simpl. by rewrite <- app_assoc.
Qed.

Lemma takeWhile_app q (u v : jsstring) :
  takeWhile q (u ++ v) = if forallb q u then u ++ takeWhile q v else takeWhile q u.
Proof.
  induction u as [|x u IH]; simpl; [done|].
  destruct (q x); [|done]. simpl. rewrite IH. by destruct (forallb q u).
Qed.

Lemma takeWhile_all_id q (u : jsstring) : forallb q u = true -> takeWhile q u = u.
Proof.
  induction u as [|x u IH]; simpl; [done|].
  intros [Hx Hu]%andb_prop. by rewrite Hx, IH.
Qed.

Lemma forallb_takeWhile r q (v : jsstring) :
  forallb r v = true -> forallb r (takeWhile q v) = true.
Proof.
  induction v as [|x v IH]; simpl; [done|].
  intros [Hx Hv]%andb_prop. destruct (q x); [|done]. simpl. by rewrite Hx, IH.
Qed.

(** The first line of a text and of the same text without its trailing
    white space differ by white space only. *)
Lemma trim_first_line_trimEnd q s :
  trim (takeWhile q (trimEnd s)) = trim (takeWhile q s).
Proof.
  destruct (trimEnd_decomp s) as (v & Hs & Hv).
  remember (trimEnd s) as u eqn:Hu. clear Hu. subst s.
  rewrite takeWhile_app. destruct (forallb q u) eqn:E; [|done].
  rewrite (takeWhile_all_id _ _ E), trim_app_spaces; [done|].
  by apply forallb_takeWhile.
Qed.

Lemma first_nonblank_all_spaces : forall s cur,
  forallb isSpace cur = true -> forallb isSpace s = true ->
  head (filter (fun l => l <> []) (trim <$> split_on (isChar 10) cur s)) = None.
Proof.
  induction s as [|y s IH]; intros cur Hcur Hs; simpl.
  - rewrite trim_all_spaces by (by rewrite forallb_rev). done.
  - simpl in Hs. apply andb_prop in Hs as [Hy Hs]. destruct (isChar 10 y).
    + rewrite fmap_cons, trim_all_spaces by (by rewrite forallb_rev).
      rewrite filter_cons_False by (intros H; by apply H). by apply IH.
    + apply IH; [|done]. simpl. by rewrite Hy, Hcur.
Qed.

Lemma first_line_nonblank x t :
  isSpace x = false -> nonblank (trim (takeWhile notNewline (x :: t))).
Proof.
  intros Hx. apply nonblank_trim. simpl.
  assert (Hn : notNewline x = true).
  { unfold notNewline, isChar. destruct (N.eqb_spec x 10) as [->|]; done. }
  rewrite Hn. by apply nonblank_head.
Qed.

Lemma first_nonblank_skip x t : forall w cur,
  forallb isSpace w = true -> forallb isSpace cur = true -> isSpace x = false ->
  head (filter (fun l => l <> []) (trim <$> split_on (isChar 10) cur (w ++ x :: t)))
  = Some (trim (takeWhile notNewline (x :: t))).
Proof.
  induction w as [|y w IH]; intros cur Hw Hcur Hx.
  - simpl app. destruct (split_on_head (isChar 10) (x :: t) cur) as [rest ->].
    rewrite fmap_cons, trim_spaces_app by (by rewrite forallb_rev).
    rewrite filter_cons_True; [done|].
    apply nonblank_nonempty. by apply first_line_nonblank.
  - simpl in Hw. apply andb_prop in Hw as [Hy Hw]. simpl.
    destruct (isChar 10 y).
    + rewrite fmap_cons, trim_all_spaces by (by rewrite forallb_rev).
      rewrite filter_cons_False by (intros H; by apply H). by apply IH.
    + apply IH; [done| |done]. simpl. by rewrite Hy, Hcur.
Qed.

Lemma first_nonblank_line_eq content :
  first_nonblank_line content =
  let l := trim (takeWhile notNewline (trim content)) in
  if bool_decide (l = []) then None else Some l.
Proof.
  unfold first_nonblank_line. cbv zeta.
  pose proof (take_drop_while isSpace content) as Hsplit.
  pose proof (takeWhile_all isSpace content) as Hw.
  assert (Ht : trim content = trimEnd (dropWhile isSpace content)) by done.
  rewrite Ht. clear Ht.
  destruct (dropWhile isSpace content) as [|x t] eqn:E.
  - rewrite first_nonblank_all_spaces; [done|done|].
    rewrite <- Hsplit, app_nil_r. done.
  - apply dropWhile_head in E as Hx. clear E.
    revert Hw Hsplit. generalize (takeWhile isSpace content) as w. intros w Hw <-.
    rewrite (first_nonblank_skip x t w [] Hw eq_refl Hx).
    rewrite trim_first_line_trimEnd.
    rewrite bool_decide_eq_false_2; [done|].
    apply nonblank_nonempty. by apply first_line_nonblank.
Qed.

Lemma derive_firstLine_eq content :
  derive_firstLine content = description_source content.
Proof.
  unfold derive_firstLine, description_source, first_heading, exec.
  pose proof (exec_heading (trim content) [] [] (trim_clean content)) as H.
  simpl atBol in H. rewrite <- H.
  destruct (exec_from true re_heading [] [] (trim content)) as [m|]; [done|].
  simpl. rewrite first_nonblank_line_eq. cbv zeta.
  unfold re_newline. rewrite split_char.
  destruct (split_on_head (isChar 10) (trim content) []) as [rest ->].
  simpl rev. simpl app. fold notNewline.
  destruct (bool_decide (trim (takeWhile notNewline (trim content)) = []));
    simpl default; reflexivity.
Qed.

(** ** Collapsing white space *)

Lemma star_char_greedy_final p b a c :
  star_char true p mfinal b a c = Some (rev (takeWhile p a) ++ b, dropWhile p a, c).
Proof. by apply star_char_greedy_max. Qed.

Lemma exec_from_plus ml p : forall a sk b,
  exec_from ml (RPlus true (RChar p)) sk b a =
  match dropWhile (fun x => negb (p x)) a with
  | [] => None
  | x :: a' =>
      Some (RMatched (rev sk ++ takeWhile (fun x => negb (p x)) a)
              (x :: takeWhile p a') (dropWhile p a')
              (rev (takeWhile p a') ++ x :: rev (takeWhile (fun x => negb (p x)) a) ++ b)
              None)
  end.
Proof.
  induction a as [|x a IH]; intros sk b; rewrite exec_from_eq, rmatch_plus_char; [done|].
  simpl dropWhile. simpl takeWhile. destruct (p x) eqn:E; simpl negb; cbv iota.
  - rewrite star_char_greedy_final. rewrite app_nil_r. simpl length.
    rewrite Nat.sub_succ_l by apply dropWhile_length.
    simpl. by rewrite take_takeWhile.
  - rewrite IH. destruct (dropWhile _ a); [done|].
    simpl. by rewrite <- !app_assoc.
Qed.

Lemma collapse_nonspace f s :
  forallb (fun x => negb (isSpace x)) s = true -> collapse_from f s = s.
Proof.
  revert f. induction s as [|x s IH]; intros f; simpl; [done|].
  intros [Hx Hs]%andb_prop. apply negb_true_iff in Hx. rewrite Hx. by rewrite IH.
Qed.

Lemma collapse_nonspace_prefix pre s :
  forallb (fun x => negb (isSpace x)) pre = true ->
  collapse_from false (pre ++ s) = pre ++ collapse_from false s.
Proof.
  induction pre as [|x pre IH]; simpl; [done|].
  intros [Hx Hs]%andb_prop. apply negb_true_iff in Hx. rewrite Hx. by rewrite IH.
Qed.

Lemma collapse_true_drop s :
  collapse_from true s = collapse_from false (dropWhile isSpace s).
Proof.
  induction s as [|x s IH]; simpl; [done|].
  destruct (isSpace x) eqn:E; [done|]. simpl. by rewrite E.
Qed.

Lemma replace_all_from_spaces ml : forall fuel a b,
  (length a < fuel)%nat ->
  replace_all_from fuel ml re_spaces (js " ") b a = collapse_from false a.
Proof.
  unfold re_spaces.
  induction fuel as [|fuel IH]; intros a b Hf; [lia|].
  simpl replace_all_from. rewrite exec_from_plus.
  pose proof (take_drop_while (fun x => negb (isSpace x)) a) as Hsplit.
  pose proof (takeWhile_all (fun x => negb (isSpace x)) a) as Hall.
  pose proof (dropWhile_length (fun x => negb (isSpace x)) a) as Hlen.
  destruct (dropWhile (fun x => negb (isSpace x)) a) as [|x a'] eqn:E.
  - rewrite app_nil_r in Hsplit. rewrite Hsplit in Hall.
    by rewrite collapse_nonspace.
  - apply dropWhile_head in E as Hx. apply negb_false_iff in Hx.
    pose proof (dropWhile_length isSpace a') as Hlen'.
    simpl. rewrite IH by (simpl in Hlen; lia).
    transitivity (collapse_from false (takeWhile (fun x => negb (isSpace x)) a ++ x :: a'));
      [|by rewrite Hsplit].
    rewrite (collapse_nonspace_prefix _ _ Hall). simpl. rewrite Hx.
    by rewrite collapse_true_drop.
Qed.

Lemma replace_all_spaces s :
  replace_all false re_spaces (js " ") s = collapse_from false s.
Proof. apply replace_all_from_spaces. lia. Qed.

Lemma nonblank_collapse s : forall f, nonblank s -> nonblank (collapse_from f s).
Proof.
  induction s as [|y s IH]; intros f (x & Hin & Hx); [by apply not_elem_of_nil in Hin|].
  simpl. apply elem_of_cons in Hin as [<-|Hin].
  - rewrite Hx. by apply nonblank_head.
  - assert (Hs : nonblank s) by (by exists x).
    destruct (isSpace y); [destruct f|].
    + by apply IH.
    + destruct (IH true Hs) as (z & Hz & Hzs). exists z. split; [by right|done].
    + destruct (IH false Hs) as (z & Hz & Hzs). exists z. split; [by right|done].
Qed.

(** ** [deriveDescription] *)

Lemma derive_cleaned_eq content :
  derive_cleaned content = collapse_ws (description_source content).
Proof.
  unfold derive_cleaned, collapse_ws.
  by rewrite replace_all_spaces, derive_firstLine_eq.
Qed.

Lemma heading_at_nonblank a h : heading_at a = Some h -> nonblank h.
Proof.
  unfold heading_at. destruct a as [|x [|w s']]; try done.
  destruct (isChar 35 x && isSpace w); [|done].
  unfold trimStart. destruct (dropWhile isSpace s') as [|n l] eqn:E; [done|].
  intros [= <-]. apply dropWhile_head in E.
  apply nonblank_trim. simpl. rewrite (isSpace_not_dot _ E). by apply nonblank_head.
Qed.

Lemma first_heading_nonblank : forall a bol h,
  first_heading_from bol a = Some h -> nonblank h.
Proof.
  induction a as [|x a IH]; intros bol h; [done|].
  rewrite first_heading_from_cons.
  destruct (if bol then heading_at (x :: a) else None) as [h'|] eqn:E.
  - intros [= <-]. destruct bol; [|done]. by apply heading_at_nonblank in E.
  - apply IH.
Qed.

Lemma workflow_nonblank : nonblank (js "Workflow").
Proof. exists 87. split; [|done]. vm_compute. left. Qed.

Lemma description_source_nonblank content : nonblank (description_source content).
Proof.
  unfold description_source.
  destruct (first_heading (trim content)) as [h|] eqn:E.
  - by apply first_heading_nonblank in E.
  - rewrite first_nonblank_line_eq. cbv zeta.
    destruct (bool_decide _) eqn:Eb; simpl default; [apply workflow_nonblank|].
    apply bool_decide_eq_false in Eb. by apply trim_nonempty_nonblank.
Qed.

Lemma derive_cleaned_nonempty content : derive_cleaned content <> [].
Proof.
  rewrite derive_cleaned_eq. unfold collapse_ws.
  apply nonblank_nonempty, nonblank_trim, nonblank_collapse, description_source_nonblank.
Qed.

Lemma deriveDescription_length content :
  (length (deriveDescription content) <= DESCRIPTION_MAX_LENGTH)%nat.
Proof.
  unfold deriveDescription. cbv zeta.
  destruct (Nat.leb_spec (length (derive_cleaned content)) DESCRIPTION_MAX_LENGTH) as [H|H];
    [done|].
  unfold slice0. rewrite length_app, length_take. unfold DESCRIPTION_MAX_LENGTH in *.
  assert (Hdots : length (js "...") = 3%nat) by (vm_compute; reflexivity).
  rewrite Hdots. lia.
Qed.

Lemma deriveDescription_nonempty content : deriveDescription content <> [].
Proof.
  unfold deriveDescription. cbv zeta.
  destruct (length (derive_cleaned content) <=? DESCRIPTION_MAX_LENGTH)%nat.
  - apply derive_cleaned_nonempty.
  - intros H. apply app_eq_nil in H as [_ H]. vm_compute in H. done.
Qed.

(** The description in direct form: the source with every run of white
    space collapsed to one space; at most 250 code units are returned as
    they are, more are cut to the first 247 followed by [...], 250 in
    all. *)
Lemma deriveDescription_cut content :
  let cleaned := collapse_ws (description_source content) in
  ((length cleaned <= 250)%nat -> deriveDescription content = cleaned) /\
  ((250 < length cleaned)%nat ->
   deriveDescription content = take 247 cleaned ++ js "..." /\
   length (deriveDescription content) = 250%nat).
Proof.
  cbv zeta. unfold deriveDescription. rewrite derive_cleaned_eq. cbv zeta.
  unfold DESCRIPTION_MAX_LENGTH, slice0.
  destruct (Nat.leb_spec (length (collapse_ws (description_source content))) 250) as [H|H].
  - split; [done|lia].
  - split; [lia|]. intros _. split; [done|].
    assert (Hdots : length (js "...") = 3%nat) by (vm_compute; reflexivity).
    rewrite length_app, length_take, Hdots. lia.
Qed.

(** C3.  The description that is written is not the one the specification
    describes.  On a text with a leading front-matter block the body is
    [Real first line ...] and has no heading, so the description is to be
    its first non-empty line; the code derives from the text before the
    strip and writes [---].  On a text whose first line is a bare [#] the
    first non-empty line is [#]; the heading pattern runs over the line
    break and the code writes the text of a later line.  On a text with a
    heading of more than 250 code units the two agree: 247 code units and
    [...]. *)
Theorem description_not_from_body :
  body_of (js "---\ntitle: x\n---\n\nReal first line\nmore") = js "\nReal first line\nmore" /\
  described_as (js "---\ntitle: x\n---\n\nReal first line\nmore")
  = Some (js "Real first line") /\
  frontmatterDescription (js "---\ntitle: x\n---\n\nReal first line\nmore") None = js "---" /\
  transform (js "---\ntitle: x\n---\n\nReal first line\nmore")
  = js "---\ndescription: ---\n---\n\n1. Real first line\n   more\n" /\
  described_as (js "#\n\nfoo\nbar") = Some (js "#") /\
  deriveDescription (js "#\n\nfoo\nbar") = js "foo" /\
  described_as (js "# " ++ replicate 300 97) = Some (replicate 247 97 ++ js "...") /\
  deriveDescription (js "# " ++ replicate 300 97) = replicate 247 97 ++ js "...".
Proof. repeat split; vm_compute; reflexivity. Qed.

Lemma subst_char_nonempty p repl s : repl <> [] -> s <> [] -> subst_char p repl s <> [].
Proof.
  intros Hr Hs. destruct s as [|x s]; [done|]. unfold subst_char. simpl.
  destruct (p x); [|done]. intros H. by apply app_eq_nil in H as [H _].
Qed.

Lemma deriveDescription_blank content :
  forallb isSpace content = true -> deriveDescription content = js "Workflow".
Proof.
  intros H. unfold deriveDescription, derive_cleaned, derive_firstLine.
  rewrite (trim_all_spaces _ H). vm_compute. reflexivity.
Qed.

Lemma frontmatterDescription_nonempty content options :
  frontmatterDescription content options <> [].
Proof.
  unfold frontmatterDescription. cbv zeta. unfold re_newline. rewrite replace_all_char.
  apply subst_char_nonempty; [by vm_compute|].
  match goal with
  | |- (if (_ <? length ?d)%nat then _ else _) <> [] =>
      assert (Hd : d <> []); [|destruct (DESCRIPTION_MAX_LENGTH <? length d)%nat; [|done]]
  end.
  - destruct (options ≫= opt_description) as [d|]; [|apply deriveDescription_nonempty].
    destruct (bool_decide (d = [])) eqn:E; simpl negb; simpl andb;
      [apply deriveDescription_nonempty|].
    apply bool_decide_eq_false in E.
    destruct (length d <=? DESCRIPTION_MAX_LENGTH)%nat; [done|apply deriveDescription_nonempty].
  - intros H. apply app_eq_nil in H as [_ H]. vm_compute in H. done.
Qed.

(** C10.  [deriveDescription] never returns the empty string; on an input
    that is empty or all white space it returns [Workflow]; and the
    description written into the front matter, with or without options, is
    never empty. *)
Theorem deriveDescription_never_empty :
  (forall content, deriveDescription content <> []) /\
  (forall content, forallb isSpace content = true ->
                   deriveDescription content = js "Workflow") /\
  (forall content options,
      toAntigravityWorkflowContent content options
      = (js "---\ndescription: " ++ frontmatterDescription content options ++ js "\n---\n")
          ++ js "\n" ++ workflowBody content options ++ js "\n" /\
      frontmatterDescription content options <> []).
Proof.
  split; [apply deriveDescription_nonempty|].
  split; [apply deriveDescription_blank|].
  intros content options. split; [reflexivity|apply frontmatterDescription_nonempty].
Qed.

Lemma deriveDescription_never_empty_witness :
  forallb isSpace (js " \n  ") = true /\ deriveDescription (js " \n  ") = js "Workflow".
Proof.
  assert (H : forallb isSpace (js " \n  ") = true) by (vm_compute; reflexivity).
  split; [exact H|].
  exact (proj1 (proj2 deriveDescription_never_empty) (js " \n  ") H).
Defined.

Lemma ensureSteps_trimmed_witness :
  (has_numbered_item (js "1." ++ 9 :: js "Build") /\
   ensureSteps (js "1." ++ 9 :: js "Build") = js "1." ++ 9 :: js "Build") /\
  (~ has_numbered_item (js "run\nit") /\
   ensureSteps (js "run\nit") = wrap_as_step (js "run\nit")).
Proof.
  assert (T1 : trim (js "1." ++ 9 :: js "Build") = js "1." ++ 9 :: js "Build")
    by (vm_compute; reflexivity).
  assert (T2 : trim (js "run\nit") = js "run\nit") by (vm_compute; reflexivity).
  assert (H1 : has_numbered_item (js "1." ++ 9 :: js "Build")).
  { exists [], [49], 9, (js "Build"). vm_compute. repeat split; try done. by left. }
  assert (H2 : ~ has_numbered_item (js "run\nit")).
  { intros H%test_numbered. vm_compute in H. discriminate. }
  split.
  - split; [exact H1|]. exact (proj1 (ensureSteps_trimmed _ T1) H1).
  - split; [exact H2|]. exact (proj1 (proj2 (ensureSteps_trimmed _ T2)) H2).
Defined.

(** C9 as stated fails on a body that reaches [ensureSteps]: the text
    [1.<tab>Build] comes through the strip and the trim unchanged, no line
    of it starts with digits followed by a dot and a space, and it is
    returned as it is, not wrapped. *)
Lemma ensureSteps_claim_fails :
  stripped_body (js "1." ++ 9 :: js "Build") = js "1." ++ 9 :: js "Build" /\
  ~ ensureSteps_claim (js "1." ++ 9 :: js "Build").
Proof.
  split; [vm_compute; reflexivity|].
  intros [H _].
  assert (Hn : ~ has_numbered_item_literal (js "1." ++ 9 :: js "Build")).
  { intros (pre & ds & post & Heq & _).
    assert (Hin : 32 ∈ js "1." ++ 9 :: js "Build").
    { rewrite Heq. apply elem_of_app. right. apply elem_of_app. right.
      right. left. }
    vm_compute in Hin.
    repeat (apply elem_of_cons in Hin as [Hin|Hin]; [discriminate|]).
    by apply not_elem_of_nil in Hin. }
  specialize (H Hn). vm_compute in H. discriminate.
Qed.

(** C1.  The transform applied to its own output changes the description:
    the description is derived from the text before the front matter is
    stripped, so the second pass finds the line [---].  It happens on the
    predefined command as well. *)
Theorem transform_twice_description :
  transform (js "# Title\n\nSome text")
  = js "---\ndescription: Title\n---\n\n1. # Title\n   \n   Some text\n" /\
  transform (transform (js "# Title\n\nSome text"))
  = js "---\ndescription: ---\n---\n\n1. # Title\n   \n   Some text\n" /\
  frontmatterDescription (content init_mcp_only) None = js "Init context (MCP only)" /\
  frontmatterDescription (transform (content init_mcp_only)) None = js "---".
Proof. repeat split; vm_compute; reflexivity. Qed.

(** C2.  A block between two [---] lines in the middle of the text is
    removed as if it were front matter: under the [m] flag the [^] of the
    pattern matches at the start of every line. *)
Theorem frontmatter_stripped_mid_body :
  replace_first true re_frontmatter [] (js "Intro\n---\nkeep\n---\nend")
  = js "Intro\nend" /\
  workflowBody (js "Intro\n---\nkeep\n---\nend") None = js "1. Intro\n   end".
Proof. split; vm_compute; reflexivity. Qed.

(** ** The format on some inputs *)

Example filename_any_case :
  toAntigravityFilename (fun s => s) (js "Init-MCP-Only.MD") = js "init_mcp_only.md".
Proof. vm_compute. reflexivity. Qed.

Example leading_frontmatter_stripped :
  workflowBody (js "---\ntitle: x\n---\n\n1. Do this\n2. Do that\n") None
  = js "1. Do this\n2. Do that".
Proof. vm_compute. reflexivity. Qed.

Example heading_preferred_to_first_line :
  deriveDescription (js "Some intro\n\n#   The   title  \nmore") = js "The title".
Proof. vm_compute. reflexivity. Qed.

Example second_level_heading_is_no_heading :
  deriveDescription (js "\n\n  ## Setup\n# ") = js "## Setup".
Proof. vm_compute. reflexivity. Qed.

Example empty_body_wrapped_twice :
  ensureSteps (js "") = js "1. " /\ ensureSteps (js "1. ") = js "1. 1.".
Proof. split; vm_compute; reflexivity. Qed.

(** ** The in-memory file system *)

Lemma path_join_nonempty dir name : path_join dir name <> [].
Proof. unfold path_join. by destruct dir. Qed.

Lemma lookup_node_join m dir name :
  lookup_node m (path_join dir name) = m !! path_join dir name.
Proof.
  pose proof (path_join_nonempty dir name) as H.
  unfold lookup_node. by destruct (path_join dir name).
Qed.

Lemma path_join_inj dir n1 n2 : path_join dir n1 = path_join dir n2 -> n1 = n2.
Proof. unfold path_join. intros H. apply app_inv_head in H. by injection H. Qed.

Lemma mkdirs_lookup_longer : forall rest pre m r m' q,
  mkdirs pre rest m = (r, m') -> (length (pre ++ rest) < length q)%nat ->
  m' !! q = m !! q.
Proof.
  induction rest as [|seg rest IH]; intros pre m r m' q H Hlen; simpl in H.
  - by injection H as _ <-.
  - assert (Hne : pre ++ [seg] <> q).
    { intros <-. rewrite !length_app in Hlen. simpl in Hlen. lia. }
    assert (Hrec : forall m1, mkdirs (pre ++ [seg]) rest (<[pre ++ [seg] := Directory]> m1)
                              = (r, m') -> m' !! q = m1 !! q).
    { intros m1 H1. rewrite (IH _ _ _ _ q H1).
      - by rewrite lookup_insert_ne.
      - by rewrite <- app_assoc. }
    destruct (m !! (pre ++ [seg])) as [[c|]|]; [by injection H as _ <-|by apply Hrec..].
Qed.

Lemma mkdirs_directory : forall rest pre m m',
  rest <> [] -> mkdirs pre rest m = (inr tt, m') ->
  m' !! (pre ++ rest) = Some Directory.
Proof.
  induction rest as [|seg rest IH]; intros pre m m' Hne H; [done|]. simpl in H.
  assert (Hrec : mkdirs (pre ++ [seg]) rest (<[pre ++ [seg] := Directory]> m)
                 = (inr tt, m') -> m' !! (pre ++ seg :: rest) = Some Directory).
  { intros H1. destruct rest as [|seg' rest].
    - simpl in H1. injection H1 as <-. by rewrite lookup_insert_eq.
    - rewrite (cons_middle seg), app_assoc. by apply (IH _ _ _ ltac:(done) H1). }
  destruct (m !! (pre ++ [seg])) as [[c|]|]; [done|by apply Hrec..].
Qed.

Lemma mem_writeFile_ok dir name c m :
  m !! dir = Some Directory -> m !! path_join dir name <> Some Directory ->
  mem_writeFile (path_join dir name) c m = (inr tt, <[path_join dir name := File c]> m).
Proof.
  intros Hdir Hp. unfold mem_writeFile. rewrite lookup_node_join.
  assert (Hparent : lookup_node m (removelast (path_join dir name)) = Some Directory).
  { unfold path_join. rewrite removelast_last. unfold lookup_node. by destruct dir. }
  rewrite Hparent. by destruct (m !! path_join dir name) as [[?|]|].
Qed.

Lemma mem_writeFile_inv p c m m' :
  mem_writeFile p c m = (inr tt, m') -> m' = <[p := File c]> m.
Proof.
  unfold mem_writeFile.
  destruct (lookup_node m p) as [[?|]|];
    destruct (lookup_node m (removelast p)) as [[?|]|]; intros H; by inversion H.
Qed.

(** ** [generateCommands] *)

Lemma will_write_insert dir force m cmd q c :
  q <> path_join dir (filename cmd) ->
  will_write dir force (<[q := c]> m) cmd = will_write dir force m cmd.
Proof. intros H. unfold will_write. by rewrite lookup_insert_ne. Qed.

Lemma generate_loop_spec dir force : forall cmds gen skip m r m',
  NoDup (filename <$> cmds) ->
  generate_loop memfs dir force cmds gen skip m = (inr r, m') ->
  r.1 = gen ++ (filename <$> List.filter (will_write dir force m) cmds) /\
  r.2 = skip ++ (filename <$> List.filter (fun cmd => negb (will_write dir force m cmd)) cmds) /\
  (forall q, (forall cmd, cmd ∈ cmds -> q <> path_join dir (filename cmd)) ->
             m' !! q = m !! q) /\
  (forall cmd, cmd ∈ cmds ->
     m' !! path_join dir (filename cmd) =
     if will_write dir force m cmd then Some (File (fresh_content cmd))
     else m !! path_join dir (filename cmd)).
Proof.
  induction cmds as [|cmd cmds IH]; intros gen skip m r m' Hnd H.
  - simpl in H. injection H as <- <-. simpl. rewrite !app_nil_r.
    split; [done|split; [done|split; [done|]]].
    intros cmd Hin. by apply not_elem_of_nil in Hin.
  - rewrite fmap_cons in Hnd. apply NoDup_cons in Hnd as [Hfresh Hnd].
    assert (Hother : forall cmd', cmd' ∈ cmds ->
              path_join dir (filename cmd) <> path_join dir (filename cmd')).
    { intros cmd' Hin Heq. apply path_join_inj in Heq. apply Hfresh.
      rewrite Heq. by apply list_elem_of_fmap_2. }
    simpl in H. unfold ebind at 1 in H. unfold pathExists in H. simpl in H.
    rewrite lookup_node_join in H.
    assert (Hcond : (match m !! path_join dir (filename cmd) with
                     | Some _ => true
                     | None => false
                     end && negb force) = negb (will_write dir force m cmd)).
    { unfold will_write. by rewrite negb_involutive. }
    rewrite Hcond in H. clear Hcond. simpl List.filter.
    destruct (will_write dir force m cmd) eqn:Hww; simpl in H |- *.
    + (* absent or forced: written *)
      unfold ebind at 1 in H.
      destruct (mem_writeFile _ _ m) as [[e|[]] m1] eqn:Hw; [done|].
      apply mem_writeFile_inv in Hw. subst m1.
      destruct (IH _ _ _ _ _ Hnd H) as (Hg & Hs & Hframe & Hcmds).
      rewrite Hg, Hs, <- app_assoc. simpl.
      rewrite (List.filter_ext_in (will_write dir force (<[_ := _]> m)) (will_write dir force m)),
        (List.filter_ext_in (fun c => negb (will_write dir force (<[_ := _]> m) c))
           (fun c => negb (will_write dir force m c))).
      2,3: intros c Hc%list_elem_of_In; rewrite will_write_insert; [done|by apply Hother].
      split; [done|split; [done|split]].
      * intros q Hq'. rewrite Hframe.
        -- rewrite lookup_insert_ne; [done|]. intros Heq. eapply Hq'; [left|done].
        -- intros c Hc. apply Hq'. by right.
      * intros c [->|Hc]%elem_of_cons.
        -- rewrite Hframe by (intros c Hc; by apply Hother).
           by rewrite lookup_insert_eq, Hww.
        -- rewrite (Hcmds c Hc), will_write_insert by (by apply Hother).
           destruct (will_write dir force m c); [done|].
           rewrite lookup_insert_ne; [done|by apply Hother].
    + (* present and not forced: skipped *)
      destruct (IH _ _ _ _ _ Hnd H) as (Hg & Hs & Hframe & Hcmds).
      rewrite Hg, Hs, <- app_assoc. simpl.
      split; [done|split; [done|split]].
      * intros q Hq'. apply Hframe. intros c Hc. apply Hq'. by right.
      * intros c [->|Hc]%elem_of_cons.
        -- rewrite Hww. apply Hframe. intros c Hc. by apply Hother.
        -- by apply Hcmds.
Qed.

Lemma will_write_filename dir force m c1 c2 :
  filename c1 = filename c2 -> will_write dir force m c1 = will_write dir force m c2.
Proof. intros H. unfold will_write. by rewrite H. Qed.

Lemma filter_filename_elem (f : CommandTemplate -> bool) cmds cmd :
  (forall c1 c2, filename c1 = filename c2 -> f c1 = f c2) ->
  cmd ∈ cmds ->
  filename cmd ∈ filename <$> List.filter f cmds <-> f cmd = true.
Proof.
  intros Hf Hin. split.
  - intros (c & Heq & Hc)%list_elem_of_fmap.
    apply list_elem_of_In, filter_In in Hc as [_ Hc]. by rewrite (Hf _ _ Heq).
  - intros H. apply list_elem_of_fmap_2, list_elem_of_In, filter_In.
    split; [by apply list_elem_of_In|done].
Qed.

Lemma predefined_filenames_distinct : NoDup (filename <$> PREDEFINED_COMMANDS).
Proof.
  unfold PREDEFINED_COMMANDS. rewrite fmap_cons, fmap_nil.
  apply NoDup_singleton.
Qed.

Lemma generate_loop_resolves dir force : forall cmds gen skip m,
  m !! dir = Some Directory ->
  (forall cmd, cmd ∈ cmds -> m !! path_join dir (filename cmd) <> Some Directory) ->
  exists r m', generate_loop memfs dir force cmds gen skip m = (inr r, m').
Proof.
  induction cmds as [|cmd cmds IH]; intros gen skip m Hdir Hdest; simpl.
  - by eexists _, _.
  - unfold ebind at 1. unfold pathExists. simpl.
    destruct (_ && negb force).
    + apply IH; [done|]. intros c Hc. apply Hdest. by right.
    + unfold ebind at 1.
      rewrite (mem_writeFile_ok dir (filename cmd) _ m Hdir (Hdest cmd ltac:(left))).
      apply IH.
      * rewrite lookup_insert_ne; [done|]. unfold path_join. intros H.
        apply (f_equal length) in H. rewrite length_app in H. simpl in H. lia.
      * intros c Hc. destruct (decide (path_join dir (filename cmd) = path_join dir (filename c)))
          as [<-|Hne].
        -- by rewrite lookup_insert_eq.
        -- rewrite lookup_insert_ne by done. apply Hdest. by right.
Qed.

(** The generator resolves whenever the commands directory can be made and
    no destination is a directory. *)
Lemma generateCommands_resolves outputDir force m :
  (mem_ensureDir (path_join outputDir (js "commands")) m).1 = inr tt ->
  (forall cmd, cmd ∈ PREDEFINED_COMMANDS ->
     m !! path_join (path_join outputDir (js "commands")) (filename cmd) <> Some Directory) ->
  exists res m', generateCommands memfs outputDir force m = (inr res, m').
Proof.
  intros Hmk Hdest. unfold generateCommands. cbv zeta.
  unfold ebind at 1. simpl fs_ensureDir. unfold mem_ensureDir in *.
  destruct (mkdirs [] (path_join outputDir (js "commands")) m) as [[e|[]] m1] eqn:E;
    [done|].
  destruct (generate_loop_resolves (path_join outputDir (js "commands"))
              (default false force) PREDEFINED_COMMANDS [] [] m1) as (r & m2 & Hloop).
  - apply (mkdirs_directory _ [] _ _ (path_join_nonempty _ _) E).
  - intros cmd Hin. rewrite (mkdirs_lookup_longer _ _ _ _ _ _ E); [by apply Hdest|].
    unfold path_join. rewrite !length_app. simpl. lia.
  - unfold ebind. rewrite Hloop. by eexists _, _.
Qed.

(** C5.  For every predefined template, after a call of [generateCommands]
    that returns: without [force], an existing destination keeps its
    content and its name is in [skipped] and not in [generated], and an
    absent one is written with the template content and reported in
    [generated]; with [force] the destination holds the template content and
    is reported in [generated]. *)
Theorem generateCommands_skip_or_overwrite outputDir force m res m' cmd :
  generateCommands memfs outputDir force m = (inr res, m') ->
  cmd ∈ PREDEFINED_COMMANDS ->
  let dest := path_join (path_join outputDir (js "commands")) (filename cmd) in
  (default false force = false ->
   (is_Some (m !! dest) ->
    m' !! dest = m !! dest /\
    filename cmd ∈ skipped res /\ filename cmd ∉ generated res) /\
   (m !! dest = None ->
    m' !! dest = Some (File (fresh_content cmd)) /\
    filename cmd ∈ generated res /\ filename cmd ∉ skipped res)) /\
  (force = Some true ->
   m' !! dest = Some (File (fresh_content cmd)) /\
   filename cmd ∈ generated res /\ filename cmd ∉ skipped res).
Proof.
  intros H Hin dest. unfold generateCommands in H. cbv zeta in H.
  unfold ebind at 1 in H. simpl fs_ensureDir in H. unfold mem_ensureDir in H.
  destruct (mkdirs [] (path_join outputDir (js "commands")) m) as [[e|[]] m1] eqn:Hmk;
    [done|].
  unfold ebind at 1 in H.
  destruct (generate_loop memfs _ _ PREDEFINED_COMMANDS [] [] m1) as [[e|r] m2] eqn:Hloop;
    [done|].
  unfold eret in H. injection H as <- <-. simpl generated. simpl skipped.
  destruct (generate_loop_spec _ _ _ _ _ _ _ _ predefined_filenames_distinct Hloop)
    as (Hg & Hs & _ & Hcmds).
  rewrite app_nil_l in Hg, Hs. specialize (Hcmds cmd Hin). fold dest in Hcmds.
  assert (Hm1 : m1 !! dest = m !! dest).
  { apply (mkdirs_lookup_longer _ _ _ _ _ dest Hmk).
    unfold dest, path_join. rewrite !length_app. simpl. lia. }
  assert (Hww : will_write (path_join outputDir (js "commands")) (default false force) m1 cmd
                = negb ((match m !! dest with Some _ => true | None => false end)
                        && negb (default false force))).
  { unfold will_write. fold dest. by rewrite Hm1. }
  pose proof (filter_filename_elem
                (will_write (path_join outputDir (js "commands")) (default false force) m1)
                PREDEFINED_COMMANDS cmd
                (will_write_filename _ _ _) Hin) as Hgen.
  pose proof (filter_filename_elem
                (fun c => negb (will_write (path_join outputDir (js "commands"))
                                  (default false force) m1 c))
                PREDEFINED_COMMANDS cmd
                (fun c1 c2 Heq => f_equal negb (will_write_filename _ _ _ c1 c2 Heq)) Hin)
    as Hskip.
  rewrite <- Hg in Hgen. rewrite <- Hs in Hskip. rewrite Hm1 in Hcmds.
  split; [intros Hf; split|].
  - intros [nd Hnd]. rewrite Hf in Hww, Hcmds, Hgen, Hskip.
    rewrite Hnd in Hww. simpl in Hww. rewrite Hww in Hcmds, Hgen, Hskip.
    split; [by rewrite Hcmds, Hnd|]. split; [by apply Hskip|].
    intros Hc%Hgen. done.
  - intros Hnone. rewrite Hnone in Hww. simpl in Hww. rewrite Hww in Hcmds, Hgen, Hskip.
    split; [done|]. split; [by apply Hgen|]. intros Hc%Hskip. done.
  - intros ->. simpl default in Hww, Hcmds, Hgen, Hskip.
    simpl negb in Hww. rewrite andb_false_r in Hww. simpl in Hww.
    rewrite Hww in Hcmds, Hgen, Hskip.
    split; [done|]. split; [by apply Hgen|]. intros Hc%Hskip. done.
Qed.

Lemma generateCommands_skip_or_overwrite_witness :
  (is_Some (demo_fs !! demo_dest) /\
   (generateCommands memfs [js ".context"] None demo_fs).2 !! demo_dest
   = demo_fs !! demo_dest) /\
  (generateCommands memfs [js ".context"] (Some true) demo_fs).2 !! demo_dest
  = Some (File (fresh_content init_mcp_only)).
Proof.
  assert (Hin : init_mcp_only ∈ PREDEFINED_COMMANDS) by (unfold PREDEFINED_COMMANDS; left).
  assert (Hex : is_Some (demo_fs !! demo_dest)) by (eexists; vm_compute; reflexivity).
  split; [split; [exact Hex|]|].
  - destruct (generateCommands memfs [js ".context"] None demo_fs) as [[e|res] m'] eqn:H;
      [apply (f_equal resolved) in H; vm_compute in H; discriminate|].
    exact (proj1 (proj1 (proj1 (generateCommands_skip_or_overwrite
                                  [js ".context"] None demo_fs res m' init_mcp_only H Hin)
                           eq_refl) Hex)).
  - destruct (generateCommands memfs [js ".context"] (Some true) demo_fs)
      as [[e|res] m'] eqn:H; [apply (f_equal resolved) in H; vm_compute in H; discriminate|].
    exact (proj1 (proj2 (generateCommands_skip_or_overwrite
                           [js ".context"] (Some true) demo_fs res m' init_mcp_only H Hin)
                    eq_refl)).
Defined.

(** ** [exportCommandsToAntigravity] *)

Lemma export_loop_count {W} (fsx : FsOps W) lower src tgt : forall files written w n w',
  export_loop fsx lower src tgt files written w = (inr n, w') ->
  n = (written + length files)%nat.
Proof.
  induction files as [|name files IH]; intros written w n w' H; simpl in H.
  - unfold eret in H. injection H as <- _. simpl. lia.
  - unfold ebind at 1 in H.
    destruct (fs_readFile fsx (path_join src name) w) as [[e|text] w1]; [done|].
    unfold ebind at 1 in H.
    destruct (fs_writeFile fsx _ _ w1) as [[e|[]] w2]; [done|].
    apply IH in H. simpl. lia.
Qed.

(** C4.  With [dryRun] the export returns the number of file names at once:
    no call of the file system is made and the state is the one it started
    from; and whenever the same call without [dryRun] returns a count, it is
    that same number. *)
Theorem exportCommands_dryRun {W} (fsx : FsOps W) lower src tgt files force w :
  exportCommandsToAntigravity fsx lower src tgt files force true w
  = (inr (length files), w) /\
  (forall n w',
      exportCommandsToAntigravity fsx lower src tgt files force false w = (inr n, w') ->
      n = length files).
Proof.
  split; [reflexivity|].
  intros n w' H. unfold exportCommandsToAntigravity in H.
  unfold ebind at 1 in H.
  destruct (fs_ensureDir fsx tgt w) as [[e|[]] w1]; [done|].
  by apply export_loop_count in H.
Qed.

Lemma exportCommands_dryRun_witness :
  exportCommandsToAntigravity memfs (fun s => s) [js "src"] [js "out"]
    [js "init-mcp-only.md"] false true demo_source_fs
  = (inr 1%nat, demo_source_fs) /\
  (exportCommandsToAntigravity memfs (fun s => s) [js "src"] [js "out"]
     [js "init-mcp-only.md"] false false demo_source_fs).1 = inr 1%nat /\
  (exportCommandsToAntigravity memfs (fun s => s) [js "src"] [js "out"]
     [js "init-mcp-only.md"] false false demo_source_fs).2
    !! [js "out"; js "init_mcp_only.md"]
  = Some (File (js "---\ndescription: Init\n---\n\n1. # Init\n   \n   Run the init.\n")).
Proof.
  split; [|split].
  - exact (proj1 (exportCommands_dryRun memfs (fun s => s) [js "src"] [js "out"]
                    [js "init-mcp-only.md"] false demo_source_fs)).
  - destruct (exportCommandsToAntigravity memfs (fun s => s) [js "src"] [js "out"]
                [js "init-mcp-only.md"] false false demo_source_fs) as [[e|n] w'] eqn:H;
      [apply (f_equal resolved) in H; vm_compute in H; discriminate|].
    simpl. f_equal.
    exact (proj2 (exportCommands_dryRun memfs (fun s => s) [js "src"] [js "out"]
                    [js "init-mcp-only.md"] false demo_source_fs) n w' H).
  - vm_compute. reflexivity.
Defined.

(** ** The quick sync *)

Section QuickSyncProperties.

Context {W : Type} (svc : Services W).

Lemma attempts_snoc p log e :
  attempts p (log ++ [e]) = (attempts p log + (if is_start p e then 1 else 0))%nat.
Proof.
  unfold attempts. rewrite List.filter_app, length_app. simpl.
  by destruct (is_start p e).
Qed.

Lemma silent_ret {A} (a : A) : silent (W := W) (eret a).
Proof. by intros s. Qed.

Lemma silent_evaluate {A} (r : thrown + A) : silent (W := W) (evaluate r).
Proof. by intros s. Qed.

Lemma silent_call {A} (m : Eff W A) : silent (call m).
Proof. intros s. unfold call. by destruct (m (rs_world s)). Qed.

Lemma silent_setResult f :
  (forall r, errors (f r) = errors r) -> silent (W := W) (setResult f).
Proof. intros Hf s. split; [done|]. simpl. apply Hf. Qed.

Lemma silent_tell e : (forall p, is_start p e = false) -> silent (W := W) (tell e).
Proof.
  intros He s. split; [|done]. intros p. simpl.
  rewrite attempts_snoc, He. lia.
Qed.

Lemma silent_bind {A B} (m : Eff (RunState W) A) (f : A -> Eff (RunState W) B) :
  silent m -> (forall a, silent (f a)) -> silent (ebind m f).
Proof.
  intros Hm Hf s. unfold ebind. specialize (Hm s).
  destruct (m s) as [[e|a] s1]; [done|].
  specialize (Hf a s1). simpl in Hm. destruct Hm as [Hm1 Hm2], Hf as [Hf1 Hf2].
  split; [intros p; by rewrite Hf1|congruence].
Qed.

Lemma pass_key_inj p q : pass_key p = pass_key q -> p = q.
Proof. destruct p, q; try done; intros H; vm_compute in H; discriminate. Qed.

Lemma is_start_key p q :
  is_start q (StartSpinner (Translated (pass_key p) None))
  = bool_decide (p = q).
Proof.
  simpl. destruct (decide (p = q)) as [->|Hne].
  - by rewrite !bool_decide_eq_true_2.
  - rewrite !bool_decide_eq_false_2; [done|done|]. intros H. by apply pass_key_inj in H.
Qed.

Ltac silence :=
  repeat first
    [ apply silent_ret
    | apply silent_evaluate
    | apply silent_call
    | apply silent_tell; intros ?; reflexivity
    | apply silent_setResult; intros ?; reflexivity
    | apply silent_bind; [|intros ?] ].

(** After its [startSpinner] a step body enters no further step and does
    not touch the error list. *)
Lemma pass_body_start p abs o :
  exists rest,
    pass_body svc p abs o
    = ebind (tell (StartSpinner (Translated (pass_key p) None))) (fun _ => rest)
    /\ silent rest.
Proof.
  destruct p; eexists; (split; [reflexivity|]); cbv zeta.
  - silence. destruct a; silence.
  - silence. destruct a; silence.
  - silence. destruct a; [|silence]. silence.
    + destruct (0 <? _)%nat; silence.
    + match goal with
      | |- silent (match ?x with Some _ => _ | None => _ end) => destruct x; [|silence]
      end.
      destruct (0 <? _)%nat; silence.
  - silence. destruct a; silence.
  - silence. unfold setDocsUpdated.
    destruct (det_daysBehind a) as [days|]; [|silence].
    destruct (_ && _); silence.
Qed.

Lemma pass_body_log p q abs o s :
  attempts q (rs_log (pass_body svc p abs o s).2)
  = (attempts q (rs_log s) + (if bool_decide (p = q) then 1 else 0))%nat
  /\ errors (rs_result (pass_body svc p abs o s).2) = errors (rs_result s).
Proof.
  destruct (pass_body_start p abs o) as (rest & -> & Hrest).
  unfold ebind. simpl tell.
  destruct (Hrest {| rs_world := rs_world s;
                     rs_log := rs_log s ++ [StartSpinner (Translated (pass_key p) None)];
                     rs_result := rs_result s |}) as [Hlog Herr].
  simpl in Hlog, Herr. split; [|done].
  by rewrite Hlog, attempts_snoc, is_start_key.
Qed.

(** One step: entered once if its guards are open, not at all otherwise;
    a thrown value is recorded as one error text and nothing else is. *)
Lemma pass_step_spec p q abs o s :
  attempts q (rs_log (pass_step svc p abs o s))
  = (attempts q (rs_log s)
     + (if pass_enabled p o && bool_decide (p = q) then 1 else 0))%nat
  /\ errors (rs_result (pass_step svc p abs o s))
     = errors (rs_result s)
       ++ (if pass_enabled p o then
             match (pass_body svc p abs o s).1 with
             | inl e => [errorText e]
             | inr _ => []
             end
           else []).
Proof.
  unfold pass_step. destruct (pass_enabled p o); simpl andb; cbv iota;
    [|split; [lia|by rewrite app_nil_r]].
  unfold tryPass. destruct (pass_body_log p q abs o s) as [Hlog Herr].
  destruct (pass_body svc p abs o s) as [[e|[]] s1]; simpl in *.
  - rewrite !attempts_snoc. simpl. rewrite Hlog, Herr. split; [lia|done].
  - rewrite attempts_snoc. simpl. rewrite Hlog, Herr, app_nil_r. split; [lia|done].
Qed.

End QuickSyncProperties.

(** The text that the [catch] blocks push is the stringified value. *)
Lemma errorText_stringified e : errorText e = stringified e.
Proof. by destruct e. Qed.

Lemma foldl_recorded_errors {W} (svc : Services W) abs o : forall ps s,
  errors (rs_result (foldl (fun s p => pass_step svc p abs o s) s ps))
  = errors (rs_result s) ++ recorded_errors svc abs o ps s.
Proof.
  induction ps as [|p ps IH]; intros s; simpl.
  - by rewrite app_nil_r.
  - rewrite IH, (proj2 (pass_step_spec svc p p abs o s)), <- app_assoc.
    destruct (pass_enabled p o); [|done].
    destruct ((pass_body svc p abs o s).1) as [e|]; [|done].
    by rewrite errorText_stringified.
Qed.

Lemma foldl_attempts {W} (svc : Services W) abs o q : forall ps s,
  attempts q (rs_log (foldl (fun s p => pass_step svc p abs o s) s ps))
  = (attempts q (rs_log s)
     + length (List.filter (fun p => pass_enabled p o && bool_decide (p = q)) ps))%nat.
Proof.
  induction ps as [|p ps IH]; intros s; simpl; [lia|].
  rewrite IH, (proj1 (pass_step_spec svc p q abs o s)).
  destruct (pass_enabled p o && bool_decide (p = q)); simpl; lia.
Qed.

(** C7.  In one call of [run] every step whose guards are open is entered
    exactly once and every other step not at all, whatever the earlier
    steps threw; a step that throws adds one text to the error list, the
    message of a thrown [Error] and the string conversion of any other
    thrown value, and nothing else adds to the list; and [run] always
    returns its result object, whose error list holds these texts in the
    order of the steps. *)
Theorem run_isolates_failures {W} (svc : Services W) repo o w :
  (forall p, attempts p (rs_log (run svc repo o w))
             = if pass_enabled p o then 1%nat else 0%nat) /\
  (forall p abs s,
      errors (rs_result (pass_step svc p abs o s))
      = errors (rs_result s)
        ++ (if pass_enabled p o then
              match (pass_body svc p abs o s).1 with
              | inl (ErrorObject message) => [message]
              | inl (OtherValue rendering) => [rendering]
              | inr _ => []
              end
            else [])) /\
  errors (rs_result (run svc repo o w))
  = recorded_errors svc (svc_resolve svc repo) o all_passes
      {| rs_world := w; rs_log := []; rs_result := initialResult |}.
Proof.
  split; [|split].
  - intros p. unfold run. cbv zeta. rewrite foldl_attempts. unfold all_passes.
    destruct p; cbn [List.filter];
      generalize (pass_enabled PAgents o) (pass_enabled PSkills o)
        (pass_enabled PCommands o) (pass_enabled PRules o) (pass_enabled PDocsCheck o);
      intros [] [] [] [] []; reflexivity.
  - intros p abs s. rewrite (proj2 (pass_step_spec svc p p abs o s)).
    f_equal. destruct (pass_enabled p o); [|done].
    by destruct ((pass_body svc p abs o s).1) as [[message|rendering]|].
  - unfold run. cbv zeta. by rewrite foldl_recorded_errors.
Qed.

(** A run in which the agents sync and the commands sync both reject: the
    skills, the rules and the docs check still run, and the two texts are
    in the result. *)
Example run_with_failing_sync :
  let final := run (demo_services true) [] (demo_options None) demo_repo_fs in
  errors (rs_result final) = [js "sync failed"; js "sync failed"] /\
  skillsExported (rs_result final) = 2%nat /\
  docsUpdated (rs_result final) = true /\
  (forall p, attempts p (rs_log final) = 1%nat).
Proof.
  cbv zeta. split; [vm_compute; reflexivity|].
  split; [vm_compute; reflexivity|]. split; [vm_compute; reflexivity|].
  intros p. destruct p; vm_compute; reflexivity.
Qed.







Lemma elem_of_by_decide (x : jsstring) (l : list jsstring) :
  bool_decide (x ∈ l) = true -> x ∈ l.
Proof. intros H. by apply bool_decide_eq_true in H. Qed.

Lemma not_elem_of_by_decide (x : jsstring) (l : list jsstring) :
  bool_decide (x ∈ l) = false -> x ∉ l.
Proof. intros H. by apply bool_decide_eq_false in H. Qed.

Lemma antigravity_not_inherited : js "antigravity" ∉ objectPrototypeKeys.
Proof. apply not_elem_of_by_decide. vm_compute. reflexivity. Qed.








Lemma export_loop_recording {W} (svc : Services W) lower src tgt :
  forall files written (wl : W * list service_call),
  export_loop (svc_fs (recording svc)) lower src tgt files written wl
  = let (r, w') := export_loop (svc_fs svc) lower src tgt files written wl.1 in
    (r, (w', wl.2)).
Proof.
  induction files as [|name files IH]; intros written [w l]; [done|].
  simpl. unfold ebind. unfold unrecorded at 1. cbn [fst snd].
  destruct (fs_readFile (svc_fs svc) _ w) as [[e|text] w1]; [done|].
  unfold unrecorded at 1. cbn [fst snd].
  destruct (fs_writeFile (svc_fs svc) _ _ w1) as [[e|[]] w2]; [done|].
  by rewrite IH.
Qed.

Lemma export_recording {W} (svc : Services W) lower src tgt files force dry
      (wl : W * list service_call) :
  exportCommandsToAntigravity (svc_fs (recording svc)) lower src tgt files force dry wl
  = let (r, w') :=
      exportCommandsToAntigravity (svc_fs svc) lower src tgt files force dry wl.1 in
    (r, (w', wl.2)).
Proof.
  destruct wl as [w l]. unfold exportCommandsToAntigravity. destruct dry; [done|].
  unfold ebind. simpl fs_ensureDir. unfold unrecorded at 1. cbn [fst snd].
  destruct (fs_ensureDir (svc_fs svc) tgt w) as [[e|[]] w1]; [done|].
  by rewrite export_loop_recording.
Qed.

(** The record of calls is only an observer: without it, a step on the
    wrapped services is the step on the services themselves. *)
Lemma recording_transparent {W} (svc : Services W) p abs o
      (s : RunState (W * list service_call)) :
  let forget (s : RunState (W * list service_call)) : RunState W :=
    {| rs_world := (rs_world s).1; rs_log := rs_log s; rs_result := rs_result s |} in
  forget (pass_step (recording svc) p abs o s) = pass_step svc p abs o (forget s).
Proof.
  cbv zeta. unfold pass_step. destruct (pass_enabled p o); [|done].
  destruct s as [[w l] log res].
  pose proof (export_recording svc (svc_unicodeLower svc)) as Hexport.
  unfold pass_body, commands_body.
  change (svc_unicodeLower (recording svc)) with (svc_unicodeLower svc).
  set (export := exportCommandsToAntigravity (svc_fs (recording svc))
                   (svc_unicodeLower svc)) in *.
  clearbody export.
  destruct p;
    unfold tryPass, agents_body, skills_body, rules_body,
      docs_check_body, setDocsUpdated, ebind, call, tell, setResult, pathExists, eret,
      evaluate;
    cbn [fst snd rs_result rs_world rs_log recording recorded unrecorded svc_fs svc_syncRun
         svc_skillExportRun svc_exportRulesRun svc_detect svc_commandsPresets
         svc_resolveUndefined svc_unicodeLower fs_pathExists fs_readdir];
    unfold recorded, unrecorded; cbn [fst snd];
    repeat (rewrite ?Hexport; cbn [fst snd];
            match goal with
            | |- context [match ?m with _ => _ end] =>
                lazymatch m with
                | context [match _ with _ => _ end] => fail
                | _ => destruct m eqn:?
                end; cbn [fst snd rs_result rs_world rs_log] in *
            end);
    simplify_eq; try done.
Qed.



(** * More properties of the code *)

(** ** File names *)

Lemma re_md_ext_at b a :
  rmatch false re_md_ext mfinal b a None =
  match a with
  | [x0; x1; x2] =>
      if isChar 46 x0 && isCharI 109 x1 && isCharI 100 x2
      then Some (x2 :: x1 :: x0 :: b, [], None) else None
  | _ => None
  end.
Proof.
  unfold re_md_ext. rewrite !rmatch_seq, rmatch_char.
  destruct a as [|x0 a]; [done|]. destruct (isChar 46 x0); [|by destruct a as [|? [|? [|? ?]]]].
  rewrite rmatch_seq, rmatch_char.
  destruct a as [|x1 a]; [done|]. destruct (isCharI 109 x1); [|by destruct a as [|? [|? ?]]].
  rewrite rmatch_seq, rmatch_char.
  destruct a as [|x2 a]; [done|]. destruct (isCharI 100 x2); [|by destruct a as [|? ?]].
  rewrite rmatch_eol. by destruct a.
Qed.

Lemma has_md_ext_cons x a :
  (3 <= length a)%nat -> has_md_ext (x :: a) = has_md_ext a.
Proof. intros H. destruct a as [|? [|? [|? ?]]]; simpl in H; try lia; done. Qed.

Lemma exec_md_ext_any : forall a sk b,
  exec_from false re_md_ext sk b a =
  if has_md_ext a
  then Some (RMatched (rev sk ++ take (length a - 3) a) (drop (length a - 3) a) []
               (rev a ++ b) None)
  else None.
Proof.
  induction a as [|x a IH]; intros sk b; rewrite exec_from_eq, re_md_ext_at; [done|].
  destruct a as [|x1 [|x2 [|x3 a]]].
  - by rewrite IH.
  - by rewrite IH.
  - simpl has_md_ext.
    destruct (isChar 46 x && isCharI 109 x1 && isCharI 100 x2).
    + simpl. by rewrite app_nil_r.
    + by rewrite IH.
  - rewrite IH. rewrite (has_md_ext_cons x) by (simpl; lia).
    destruct (has_md_ext (x1 :: x2 :: x3 :: a)); [|done].
    replace (length (x1 :: x2 :: x3 :: a) - 3)%nat with (length a) by (simpl; lia).
    replace (length (x :: x1 :: x2 :: x3 :: a) - 3)%nat with (S (length a))
      by (simpl; lia).
    simpl. by rewrite <- !app_assoc.
Qed.

Lemma strip_md_ext_any f : replace_first false re_md_ext [] f = md_stem f.
Proof.
  unfold replace_first, exec, md_stem. rewrite exec_md_ext_any.
  destruct (has_md_ext f); [|done]. simpl. by rewrite app_nil_r.
Qed.

Lemma subst_dash_workflow s :
  asciiLower <$> subst_char (isChar 45) (js "_") s = workflow_char <$> s.
Proof.
  assert (Hu : js "_" = [95]) by (vm_compute; reflexivity).
  induction s as [|c s IH]; [done|].
  change (subst_char (isChar 45) (js "_") (c :: s))
    with ((if isChar 45 c then js "_" else [c]) ++ subst_char (isChar 45) (js "_") s).
  rewrite fmap_app, IH, fmap_cons. unfold workflow_char at 2.
  destruct (isChar 45 c); [by rewrite Hu|done].
Qed.

Lemma isAscii_take n s : isAsciiString s = true -> isAsciiString (take n s) = true.
Proof.
  unfold isAsciiString. revert n. induction s as [|c s IH]; intros [|n] H; simpl in *; try done.
  apply andb_prop in H as [Hc Hs]. by rewrite Hc, IH.
Qed.

Lemma isAscii_subst_dash s :
  isAsciiString s = true -> isAsciiString (subst_char (isChar 45) (js "_") s) = true.
Proof.
  unfold isAsciiString, subst_char. induction s as [|c s IH]; simpl; [done|].
  intros [Hc Hs]%andb_prop. rewrite forallb_app, (IH Hs), andb_true_r.
  destruct (isChar 45 c); [by vm_compute|]. simpl. by rewrite Hc.
Qed.

Lemma toAntigravityFilename_ascii lower f :
  isAsciiString f = true ->
  toAntigravityFilename lower f = (workflow_char <$> md_stem f) ++ js ".md".
Proof.
  intros Ha. unfold toAntigravityFilename. rewrite strip_md_ext_any. unfold re_dash.
  rewrite replace_all_char. unfold toLowerCase.
  assert (Hs : isAsciiString (md_stem f) = true).
  { unfold md_stem. destruct (has_md_ext f); [by apply isAscii_take|done]. }
  apply isAscii_subst_dash in Hs. unfold isAsciiString in Hs. rewrite Hs.
  by rewrite subst_dash_workflow.
Qed.

Lemma workflow_char_spec c :
  (c <? 128) = true ->
  workflow_char c <> 45 /\ isUpperAscii (workflow_char c) = false /\
  (workflow_char c <? 128) = true /\ workflow_char (workflow_char c) = workflow_char c.
Proof. unfold workflow_char, isChar, asciiLower, isUpperAscii. intros H. charcases. Qed.

(** X1.  For an ASCII file name the workflow file name is the name without
    a final [.md] (in any letter case), with every [-] turned into [_] and
    every capital letter into its small letter, followed by [.md]: it holds
    no [-] and no capital letter, and a name without the extension gets
    one. *)
Theorem toAntigravityFilename_lowercase_underscores lower f :
  isAsciiString f = true ->
  toAntigravityFilename lower f = (workflow_char <$> md_stem f) ++ js ".md" /\
  Forall (fun c => c <> 45 /\ isUpperAscii c = false) (toAntigravityFilename lower f).
Proof.
  intros Ha. rewrite (toAntigravityFilename_ascii lower f Ha). split; [done|].
  apply Forall_app. split.
  - apply Forall_fmap, Forall_forall. intros c Hc. simpl.
    assert (Hc128 : (c <? 128) = true).
    { assert (Hs : isAsciiString (md_stem f) = true).
      { unfold md_stem. destruct (has_md_ext f); [by apply isAscii_take|done]. }
      unfold isAsciiString in Hs. rewrite forallb_forall in Hs.
      apply Hs. by apply list_elem_of_In. }
    destruct (workflow_char_spec c Hc128) as (? & ? & _). done.
  - vm_compute. repeat constructor; done.
Qed.

Lemma toAntigravityFilename_lowercase_underscores_witness :
  isAsciiString (js "Fix-Bug.MD") = true /\
  toAntigravityFilename (fun s => s) (js "Fix-Bug.MD") = js "fix_bug.md" /\
  toAntigravityFilename (fun s => s) (js "notes") = js "notes.md".
Proof.
  assert (H1 : isAsciiString (js "Fix-Bug.MD") = true) by (vm_compute; reflexivity).
  assert (H2 : isAsciiString (js "notes") = true) by (vm_compute; reflexivity).
  split; [exact H1|]. split.
  - exact (proj1 (toAntigravityFilename_lowercase_underscores (fun s => s) _ H1)).
  - exact (proj1 (toAntigravityFilename_lowercase_underscores (fun s => s) _ H2)).
Defined.

Lemma isAscii_workflow s :
  isAsciiString s = true -> isAsciiString (workflow_char <$> s) = true.
Proof.
  unfold isAsciiString. induction s as [|c s IH]; [done|].
  rewrite fmap_cons. cbn [forallb].
  intros [Hc Hs]%andb_prop. rewrite (IH Hs), andb_true_r.
  by destruct (workflow_char_spec c Hc) as (_ & _ & ? & _).
Qed.

Lemma workflow_char_twice s :
  isAsciiString s = true -> workflow_char <$> (workflow_char <$> s) = workflow_char <$> s.
Proof.
  unfold isAsciiString. induction s as [|c s IH]; [done|].
  cbn [forallb]. intros [Hc Hs]%andb_prop. rewrite !fmap_cons, (IH Hs).
  by destruct (workflow_char_spec c Hc) as (_ & _ & _ & ->).
Qed.

(** X2.  On ASCII names the conversion is idempotent: a workflow file name
    is its own workflow file name. *)
Theorem toAntigravityFilename_idempotent lower f :
  isAsciiString f = true ->
  toAntigravityFilename lower (toAntigravityFilename lower f)
  = toAntigravityFilename lower f.
Proof.
  intros Ha.
  assert (Hs : isAsciiString (md_stem f) = true).
  { unfold md_stem. destruct (has_md_ext f); [by apply isAscii_take|done]. }
  rewrite (toAntigravityFilename_ascii lower f Ha).
  unfold toAntigravityFilename at 1. rewrite strip_md_ext. unfold re_dash.
  rewrite replace_all_char. unfold toLowerCase.
  pose proof (isAscii_workflow _ Hs) as Hw.
  pose proof (isAscii_subst_dash _ Hw) as Hd. unfold isAsciiString in Hd. rewrite Hd.
  by rewrite subst_dash_workflow, (workflow_char_twice _ Hs).
Qed.

Lemma toAntigravityFilename_idempotent_witness :
  isAsciiString (js "Fix-Bug.MD") = true /\
  toAntigravityFilename (fun s => s) (toAntigravityFilename (fun s => s) (js "Fix-Bug.MD"))
  = toAntigravityFilename (fun s => s) (js "Fix-Bug.MD").
Proof.
  assert (H1 : isAsciiString (js "Fix-Bug.MD") = true) by (vm_compute; reflexivity).
  split; [exact H1|].
  exact (toAntigravityFilename_idempotent (fun s => s) _ H1).
Defined.

(** ** The description *)

Lemma Forall_dropWhile (P : N -> Prop) p s : Forall P s -> Forall P (dropWhile p s).
Proof.
  induction 1 as [|x s Hx Hs IH]; simpl; [constructor|].
  destruct (p x); [done|by constructor].
Qed.

Lemma Forall_trim (P : N -> Prop) s : Forall P s -> Forall P (trim s).
Proof.
  intros H. unfold trim, trimEnd, trimStart.
  by apply Forall_rev, Forall_dropWhile, Forall_rev, Forall_dropWhile.
Qed.

Lemma collapse_only_spaces s : forall f,
  Forall (fun c => isSpace c = false \/ c = 32) (collapse_from f s).
Proof.
  induction s as [|x s IH]; intros f; simpl; [constructor|].
  destruct (isSpace x) eqn:E; [destruct f|].
  - apply IH.
  - constructor; [by right|apply IH].
  - constructor; [by left|apply IH].
Qed.

Lemma derive_cleaned_only_spaces content :
  Forall (fun c => isSpace c = false \/ c = 32) (derive_cleaned content).
Proof.
  unfold derive_cleaned. rewrite replace_all_spaces.
  apply Forall_trim, collapse_only_spaces.
Qed.

Lemma deriveDescription_only_spaces content :
  Forall (fun c => isSpace c = false \/ c = 32) (deriveDescription content).
Proof.
  unfold deriveDescription. cbv zeta.
  destruct (length (derive_cleaned content) <=? DESCRIPTION_MAX_LENGTH)%nat.
  - apply derive_cleaned_only_spaces.
  - apply Forall_app. split.
    + apply Forall_take, derive_cleaned_only_spaces.
    + vm_compute. repeat constructor; by left.
Qed.

(** X3.  The derived description is one line of at most 250 code units: it
    holds no line break and no white space but the plain space. *)
Theorem deriveDescription_single_line content :
  (length (deriveDescription content) <= 250)%nat /\
  Forall (fun c => isSpace c = false \/ c = 32) (deriveDescription content).
Proof.
  split; [apply deriveDescription_length|apply deriveDescription_only_spaces].
Qed.

Lemma subst_char_single_length p x s : length (subst_char p [x] s) = length s.
Proof.
  unfold subst_char. induction s as [|c s IH]; simpl; [done|].
  destruct (p c); simpl; by rewrite IH.
Qed.

Lemma subst_char_removes x y s : x <> y -> x ∉ subst_char (isChar x) [y] s.
Proof.
  intros Hne. unfold subst_char. induction s as [|c s IH]; simpl; [apply not_elem_of_nil|].
  unfold isChar at 1. destruct (N.eqb_spec c x) as [->|Hc]; simpl.
  - intros [?|?]%elem_of_cons; [done|by apply IH].
  - intros [?|?]%elem_of_cons; [by subst|by apply IH].
Qed.

Lemma deriveDescription_no_newline content :
  forallb (fun c => negb (isChar 10 c)) (deriveDescription content) = true.
Proof.
  pose proof (deriveDescription_only_spaces content) as H.
  induction H as [|c s Hc Hs IH]; [done|]. simpl. rewrite IH, andb_true_r.
  unfold isChar. destruct (N.eqb_spec c 10) as [->|]; [|done].
  by destruct Hc.
Qed.

(** The description before the line feeds are replaced: it is never cut,
    because both of its sources have at most 250 code units. *)
Lemma finalDescription_eq content options :
  frontmatterDescription content options =
  subst_char (isChar 10) (js " ")
    (match options ≫= opt_description with
     | Some d =>
         if negb (bool_decide (d = [])) && (length d <=? DESCRIPTION_MAX_LENGTH)%nat
         then d else deriveDescription content
     | None => deriveDescription content
     end).
Proof.
  unfold frontmatterDescription. cbv zeta. unfold re_newline. rewrite replace_all_char.
  f_equal.
  match goal with
  | |- (if (_ <? length ?d)%nat then _ else _) = _ =>
      assert (Hd : (length d <= DESCRIPTION_MAX_LENGTH)%nat)
  end.
  { destruct (options ≫= opt_description) as [d|]; [|apply deriveDescription_length].
    destruct (negb (bool_decide (d = []))); simpl; [|apply deriveDescription_length].
    destruct (Nat.leb_spec (length d) DESCRIPTION_MAX_LENGTH); [done|].
    apply deriveDescription_length. }
  apply Nat.ltb_ge in Hd. by rewrite Hd.
Qed.

(** X4.  Whatever the options, the description written into the front
    matter has at most 250 code units and no line feed. *)
Theorem frontmatterDescription_bounds content options :
  (length (frontmatterDescription content options) <= 250)%nat /\
  10 ∉ frontmatterDescription content options.
Proof.
  rewrite finalDescription_eq.
  assert (Hsp : js " " = [32]) by (vm_compute; reflexivity). rewrite Hsp.
  split; [|by apply subst_char_removes].
  rewrite subst_char_single_length.
  destruct (options ≫= opt_description) as [d|]; [|apply deriveDescription_length].
  destruct (negb (bool_decide (d = []))); simpl; [|apply deriveDescription_length].
  destruct (Nat.leb_spec (length d) DESCRIPTION_MAX_LENGTH); [done|].
  apply deriveDescription_length.
Qed.

(** X5.  A description given in the options that is not empty and has at
    most 250 code units is written with each of its line feeds replaced by a
    space and is otherwise as given (so one without a line feed is written
    as it is); an empty one or one of more than 250 code units is not cut
    but dropped, and the derived description is written in its place. *)
Theorem explicit_description_rules content d steps :
  (d <> [] -> (length d <= 250)%nat ->
   frontmatterDescription content (Some (WorkflowOptions (Some d) steps))
   = flat_map (fun c => if c =? 10 then [32] else [c]) d /\
   (10 ∉ d ->
    frontmatterDescription content (Some (WorkflowOptions (Some d) steps)) = d)) /\
  (d = [] \/ (250 < length d)%nat ->
   frontmatterDescription content (Some (WorkflowOptions (Some d) steps))
   = deriveDescription content).
Proof.
  rewrite finalDescription_eq. simpl mbind. unfold DESCRIPTION_MAX_LENGTH. split.
  - intros Hne Hlen. rewrite bool_decide_eq_false_2 by done. simpl negb.
    apply Nat.leb_le in Hlen. rewrite Hlen. simpl andb. cbv iota.
    assert (Hsp : js " " = [32]) by (vm_compute; reflexivity). rewrite Hsp.
    split; [reflexivity|]. intros Hnl.
    apply subst_char_none. clear -Hnl. induction d as [|c d IH]; [done|].
    simpl. rewrite IH by (intros H; apply Hnl; by right).
    unfold isChar. destruct (N.eqb_spec c 10) as [->|]; [|done].
    destruct Hnl. by left.
  - intros H.
    assert (Hc : negb (bool_decide (d = [])) && (length d <=? 250)%nat = false).
    { destruct H as [->|H]; [done|]. apply Nat.leb_gt in H. rewrite H. apply andb_false_r. }
    rewrite Hc. apply subst_char_none, deriveDescription_no_newline.
Qed.

Lemma explicit_description_rules_witness :
  frontmatterDescription (js "# Title") (Some (WorkflowOptions (Some (js "Ship\nit")) None))
  = js "Ship it" /\
  frontmatterDescription (js "# Title")
    (Some (WorkflowOptions (Some (replicate 251 97%N)) None)) = js "Title" /\
  frontmatterDescription (js "# Title") (Some (WorkflowOptions (Some []) None)) = js "Title".
Proof.
  assert (H1 : js "Ship\nit" <> []) by (vm_compute; discriminate).
  assert (H2 : (length (js "Ship\nit") <= 250)%nat) by (vm_compute; lia).
  assert (H4 : (250 < length (replicate 251 97%N))%nat) by (vm_compute; lia).
  split; [|split].
  - rewrite (proj1 (proj1 (explicit_description_rules (js "# Title") (js "Ship\nit") None)
                      H1 H2)).
    vm_compute. reflexivity.
  - exact (proj2 (explicit_description_rules (js "# Title") (replicate 251 97%N) None)
             (or_intror H4)).
  - exact (proj2 (explicit_description_rules (js "# Title") [] None) (or_introl eq_refl)).
Defined.

(** ** Numbered steps *)

Lemma js_step_prefix : js "1. " = [49; 46; 32].
Proof. vm_compute. reflexivity. Qed.

Lemma wrap_as_step_numbered t : has_numbered_item (wrap_as_step t).
Proof.
  exists [], [49], 32, (indent_continuation t). unfold wrap_as_step.
  rewrite js_step_prefix. repeat split; try done. by left.
Qed.

(** X6.  Whatever the body, what [ensureSteps] returns has a numbered list
    item. *)
Theorem ensureSteps_numbered body : has_numbered_item (ensureSteps body).
Proof.
  rewrite ensureSteps_unfold.
  destruct (test true re_numbered (trim body)) eqn:E.
  - by apply test_numbered.
  - apply wrap_as_step_numbered.
Qed.

Lemma trimEnd_head x t :
  isSpace x = false -> exists t', trimEnd (x :: t) = x :: t'.
Proof.
  intros Hx. destruct (trimEnd_decomp (x :: t)) as (v & Hs & Hv).
  destruct (trimEnd (x :: t)) as [|y t'].
  - simpl in Hs. subst v. simpl in Hv. by rewrite Hx in Hv.
  - injection Hs as <- _. by exists t'.
Qed.

Lemma trimStart_fixed x t : isSpace x = false -> trimStart (x :: t) = x :: t.
Proof. intros Hx. unfold trimStart. simpl. by rewrite Hx. Qed.

Lemma trim_trim s : trim (trim s) = trim s.
Proof.
  assert (Hs : trimStart (trim s) = trim s).
  { unfold trim at 2. unfold trim, trimStart.
    destruct (dropWhile isSpace s) as [|x t] eqn:E; [done|].
    apply dropWhile_head in E. destruct (trimEnd_head x t E) as [t' ->].
    simpl. by rewrite E. }
  unfold trim at 1. rewrite Hs. apply trimEnd_fixed, trim_clean.
Qed.

Lemma trim_head s x t : trim s = x :: t -> isSpace x = false.
Proof.
  unfold trim, trimStart. destruct (dropWhile isSpace s) as [|y u] eqn:E; [done|].
  apply dropWhile_head in E. destruct (trimEnd_head y u E) as [t' ->].
  by intros [= <- _].
Qed.

Lemma clean_end_subst sep (t : jsstring) :
  clean_end t -> t <> [] -> clean_end (subst_char (isChar 10) sep t) /\
                           subst_char (isChar 10) sep t <> [].
Proof.
  intros Hc Hne. destruct t as [|x t _] using rev_ind; [done|].
  rewrite subst_char_app. unfold subst_char at 2. simpl.
  pose proof (Hc t x eq_refl) as Hx.
  assert (Hx10 : isChar 10 x = false).
  { unfold isChar. destruct (N.eqb_spec x 10) as [->|]; done. }
  rewrite Hx10, app_nil_r. split.
  - intros s' y H. apply app_inj_tail in H as [_ <-]. done.
  - by destruct (subst_char _ _ t).
Qed.

Lemma wrap_as_step_trimmed t :
  trim t = t -> t <> [] -> trim (wrap_as_step t) = wrap_as_step t.
Proof.
  intros Ht Hne. unfold wrap_as_step, indent_continuation. rewrite js_step_prefix.
  assert (Hc : clean_end t) by (rewrite <- Ht; apply trim_clean).
  destruct (clean_end_subst (js "\n   ") t Hc Hne) as [Hce Hsne].
  unfold trim. cbn [app]. rewrite trimStart_fixed by done.
  apply trimEnd_fixed. intros s' y H.
  destruct (subst_char (isChar 10) (js "\n   ") t) as [|z u _] using rev_ind; [done|].
  change (49 :: 46 :: 32 :: u ++ [z]) with ([49; 46; 32] ++ (u ++ [z])) in H.
  rewrite app_assoc in H. apply app_inj_tail in H as [_ <-].
  by apply (Hce u z).
Qed.

Lemma ensureSteps_result_trimmed body :
  trim body <> [] -> trim (ensureSteps body) = ensureSteps body.
Proof.
  intros Hne. rewrite (ensureSteps_unfold body).
  destruct (test true re_numbered (trim body)); [apply trim_trim|].
  apply wrap_as_step_trimmed; [apply trim_trim|done].
Qed.

Lemma ensureSteps_result_numbered body :
  test true re_numbered (ensureSteps body) = true.
Proof.
  apply test_numbered. rewrite ensureSteps_unfold.
  destruct (test true re_numbered (trim body)) eqn:E;
    [by apply test_numbered|apply wrap_as_step_numbered].
Qed.

Lemma ensureSteps_result_fixed body :
  trim body <> [] -> ensureSteps (ensureSteps body) = ensureSteps body.
Proof.
  intros Hne.
  rewrite (ensureSteps_unfold (ensureSteps body)), (ensureSteps_result_trimmed body Hne).
  by rewrite ensureSteps_result_numbered.
Qed.

(** X7.  On a body that is not blank [ensureSteps] is idempotent: its result
    is trimmed and has a numbered item, so a second call returns it as it
    is. *)
Theorem ensureSteps_idempotent body :
  trim body <> [] -> ensureSteps (ensureSteps body) = ensureSteps body.
Proof. apply ensureSteps_result_fixed. Qed.

Lemma ensureSteps_idempotent_witness :
  trim (js " Build it\nship it ") <> [] /\
  ensureSteps (ensureSteps (js " Build it\nship it ")) = js "1. Build it\n   ship it".
Proof.
  assert (H : trim (js " Build it\nship it ") <> []) by (vm_compute; discriminate).
  split; [exact H|].
  exact (ensureSteps_idempotent (js " Build it\nship it ") H).
Defined.

(** ** Stripping the front matter *)

Lemma rmatch_lit ml k : forall l b a c,
  rmatch ml (RLit l) k b a c =
  match strip_prefix l a with
  | Some a' => k (rev l ++ b) a' c
  | None => None
  end.
Proof.
  induction l as [|x l IH]; intros b a c; [by destruct a|].
  change (RLit (x :: l)) with (RSeq (RChar (isChar x)) (RLit l)).
  rewrite rmatch_seq, rmatch_char. destruct a as [|y a]; [done|]. cbn [strip_prefix].
  destruct (isChar x y) eqn:E; [|done].
  apply N.eqb_eq in E as ->.
  rewrite IH. simpl rev. by rewrite <- app_assoc.
Qed.

Lemma strip_prefix_rule a :
  strip_prefix [45; 45; 45] a = if starts_with_rule a then Some (drop 3 a) else None.
Proof.
  destruct a as [|x [|y [|z a]]]; simpl; try done.
  - by destruct (isChar 45 x).
  - destruct (isChar 45 x); [|done]. by destruct (isChar 45 y).
  - destruct (isChar 45 x); [|done]. destruct (isChar 45 y); [|done].
    by destruct (isChar 45 z).
Qed.

Lemma star_char_lazy_any k c : forall a b,
  star_char false (fun _ => true) k b a c = first_some k b a c.
Proof.
  induction a as [|x a IH]; intros b; simpl.
  - by destruct (k b [] c).
  - rewrite IH. done.
Qed.

(** The closing [---] and the white space after it. *)
Lemma re_closing_at b a c :
  rmatch true (RSeq (RLit [45; 45; 45]) (RStar true (RChar isSpace))) mfinal b a c =
  if starts_with_rule a
  then Some (rev (takeWhile isSpace (drop 3 a)) ++ [45; 45; 45] ++ b,
             dropWhile isSpace (drop 3 a), c)
  else None.
Proof.
  rewrite rmatch_seq, rmatch_lit, strip_prefix_rule.
  destruct (starts_with_rule a); [|done].
  by rewrite rmatch_star_char, star_char_greedy_final.
Qed.

Lemma re_frontmatter_at b a :
  rmatch true re_frontmatter mfinal b a None =
  if atBol true b && starts_with_rule a then
    first_some (rmatch true (RSeq (RLit [45; 45; 45]) (RStar true (RChar isSpace))) mfinal)
      ([45; 45; 45] ++ b) (drop 3 a) None
  else None.
Proof.
  unfold re_frontmatter. rewrite rmatch_seq, rmatch_bol.
  destruct (atBol true b); [|done].
  rewrite rmatch_seq, rmatch_lit, strip_prefix_rule.
  destruct (starts_with_rule a); [|done]. simpl andb. cbv iota.
  by rewrite rmatch_seq, rmatch_star_char, star_char_lazy_any.
Qed.

Lemma first_some_closing_none : forall a b c,
  has_rule a = false ->
  first_some (rmatch true (RSeq (RLit [45; 45; 45]) (RStar true (RChar isSpace))) mfinal)
    b a c = None.
Proof.
  induction a as [|x a IH]; intros b c H.
  - cbn [first_some]. by rewrite re_closing_at.
  - cbn [has_rule] in H. apply orb_false_elim in H as [H1 H2].
    cbn [first_some]. rewrite re_closing_at, H1. by apply IH.
Qed.

Lemma starts_with_rule_app x fm rest :
  starts_with_rule (x :: fm ++ [45; 45; 45] ++ rest) = starts_with_rule (x :: fm ++ [45; 45]).
Proof. by destruct fm as [|y [|z fm]]. Qed.

Lemma first_some_closing_found rest c : forall fm b,
  has_rule (fm ++ [45; 45]) = false ->
  exists b1,
    first_some (rmatch true (RSeq (RLit [45; 45; 45]) (RStar true (RChar isSpace))) mfinal)
      b (fm ++ [45; 45; 45] ++ rest) c
    = Some (b1, dropWhile isSpace rest, c).
Proof.
  induction fm as [|x fm IH]; intros b H.
  - cbn [app first_some]. rewrite re_closing_at. simpl. by eexists.
  - change ((x :: fm) ++ [45; 45]) with (x :: (fm ++ [45; 45])) in H.
    cbn [has_rule] in H. apply orb_false_elim in H as [H1 H2].
    change ((x :: fm) ++ [45; 45; 45] ++ rest) with (x :: fm ++ [45; 45; 45] ++ rest).
    cbn [first_some]. rewrite re_closing_at, starts_with_rule_app, H1.
    by apply IH.
Qed.

Lemma strip_unchanged s :
  (forall pre post, s = pre ++ js "---" ++ post -> line_start pre -> has_rule post = false) ->
  replace_first true re_frontmatter [] s = s.
Proof.
  intros H. unfold replace_first, exec.
  destruct (exec_from true re_frontmatter [] [] s) as [m|] eqn:E; [|done].
  assert (Hs : is_Some (exec_from true re_frontmatter [] [] s)) by (by rewrite E).
  apply exec_from_is_Some in Hs as (a1 & a2 & -> & Hm).
  rewrite app_nil_r, re_frontmatter_at in Hm.
  destruct (atBol true (rev a1)) eqn:Eb; [|by destruct Hm].
  destruct (starts_with_rule a2) eqn:Er; [|by destruct Hm]. simpl in Hm.
  assert (Ha2 : a2 = js "---" ++ drop 3 a2).
  { destruct a2 as [|x [|y [|z a2]]]; try done. simpl in Er.
    unfold isChar in Er.
    destruct (N.eqb_spec x 45) as [->|]; [|done].
    destruct (N.eqb_spec y 45) as [->|]; [|done].
    destruct (N.eqb_spec z 45) as [->|]; [|done]. done. }
  rewrite first_some_closing_none in Hm; [by destruct Hm|].
  apply (H a1 (drop 3 a2)); [by rewrite <- Ha2|by apply atBol_line_start].
Qed.

(** X8.  A text is left as it is by the front matter strip unless some line
    starts with [---] and a further [---] follows it: a text without such a
    pair, a single horizontal rule included, loses nothing. *)
Theorem frontmatter_strip_unchanged s :
  (forall pre post, s = pre ++ js "---" ++ post -> line_start pre -> has_rule post = false) ->
  replace_first true re_frontmatter [] s = s /\ stripped_body s = trim s.
Proof.
  intros H. unfold stripped_body. by rewrite (strip_unchanged s H).
Qed.

Lemma frontmatter_strip_unchanged_witness :
  replace_first true re_frontmatter [] (js "a\n---\nb") = js "a\n---\nb".
Proof.
  assert (E : js "a\n---\nb" = [97; 10; 45; 45; 45; 10; 98]) by (vm_compute; reflexivity).
  assert (R : js "---" = [45; 45; 45]) by (vm_compute; reflexivity).
  rewrite E.
  apply (frontmatter_strip_unchanged [97; 10; 45; 45; 45; 10; 98]).
  intros pre post Heq _. rewrite R in Heq.
  assert (Hpost : post = drop (length pre + 3) [97; 10; 45; 45; 45; 10; 98]).
  { rewrite Heq, drop_app_add'; [|done]. by rewrite drop_app_length'. }
  assert (Hlen : (length pre <= 4)%nat).
  { apply (f_equal length) in Heq. rewrite !length_app in Heq. simpl in Heq. lia. }
  rewrite Hpost.
  destruct (length pre) as [|[|[|[|[|n]]]]]; [vm_compute; reflexivity ..|lia].
Defined.

Lemma js_rule : js "---" = [45; 45; 45].
Proof. vm_compute. reflexivity. Qed.

Lemma strip_block fm rest :
  has_rule (fm ++ [45; 45]) = false ->
  replace_first true re_frontmatter [] ([45; 45; 45] ++ fm ++ [45; 45; 45] ++ rest)
  = dropWhile isSpace rest.
Proof.
  intros H. unfold replace_first, exec. rewrite exec_from_eq, re_frontmatter_at.
  change (atBol true [] && starts_with_rule ([45; 45; 45] ++ fm ++ [45; 45; 45] ++ rest))
    with true. cbv iota.
  change (drop 3 ([45; 45; 45] ++ fm ++ [45; 45; 45] ++ rest))
    with (fm ++ [45; 45; 45] ++ rest).
  destruct (first_some_closing_found rest None fm ([45; 45; 45] ++ []) H) as [b1 ->].
  done.
Qed.

(** X9.  A block at the very start of the text, from [---] to the first
    [---] after it, is removed together with the white space behind it, and
    nothing else is: what remains is the rest of the text without its
    leading white space. *)
Theorem frontmatter_block_removed fm rest :
  has_rule (fm ++ js "--") = false ->
  replace_first true re_frontmatter [] (js "---" ++ fm ++ js "---" ++ rest)
  = trimStart rest.
Proof.
  intros H. rewrite js_rule. apply strip_block.
  replace [45; 45] with (js "--"); [done|vm_compute; reflexivity].
Qed.

Lemma frontmatter_block_removed_witness :
  replace_first true re_frontmatter []
    (js "---" ++ js "\ntitle: a-b\n" ++ js "---" ++ js "\n\n# Deploy\n---\nend")
  = js "# Deploy\n---\nend".
Proof.
  assert (E : trimStart (js "\n\n# Deploy\n---\nend") = js "# Deploy\n---\nend")
    by (vm_compute; reflexivity).
  rewrite <- E.
  apply (frontmatter_block_removed (js "\ntitle: a-b\n") (js "\n\n# Deploy\n---\nend")).
  vm_compute. reflexivity.
Defined.

(** ** Transforming a workflow again *)

Lemma has_rule_skip l : forall pre,
  forallb (fun c => negb (isChar 45 c)) pre = true -> has_rule (pre ++ l) = has_rule l.
Proof.
  induction pre as [|x pre IH]; [done|]. intros [Hx Hp]%andb_prop.
  apply negb_true_iff in Hx.
  change ((x :: pre) ++ l) with (x :: (pre ++ l)). cbn [has_rule].
  rewrite (IH Hp).
  replace (starts_with_rule (x :: pre ++ l)) with false; [done|].
  destruct (pre ++ l) as [|y [|z ?]]; simpl; by rewrite ?Hx.
Qed.

Lemma has_rule_sep x l : forall d,
  isChar 45 x = false -> has_rule (d ++ x :: l) = has_rule d || has_rule l.
Proof.
  intros d Hx. induction d as [|y d IH].
  - cbn [app has_rule]. replace (starts_with_rule (x :: l)) with false; [done|].
    destruct l as [|a [|b ?]]; simpl; by rewrite ?Hx.
  - change ((y :: d) ++ x :: l) with (y :: (d ++ x :: l)). cbn [has_rule].
    rewrite IH, orb_assoc. f_equal. f_equal.
    destruct d as [|a [|b d]]; simpl.
    + destruct l; simpl; by rewrite ?Hx, ?andb_false_r.
    + by rewrite Hx, !andb_false_r.
    + done.
Qed.

Lemma frontmatterDescription_derived s :
  frontmatterDescription s None = deriveDescription s.
Proof.
  rewrite finalDescription_eq. apply subst_char_none, deriveDescription_no_newline.
Qed.

Lemma workflowBody_default s : workflowBody s None = ensureSteps (stripped_body s).
Proof. reflexivity. Qed.

(** The output, line by line. *)
Lemma transform_lines s :
  transform s =
  [45; 45; 45] ++ 10 :: (js "description: " ++ frontmatterDescription s None) ++
  10 :: [45; 45; 45] ++ 10 :: [] ++ 10 :: workflowBody s None ++ [10].
Proof.
  unfold transform, toAntigravityWorkflowContent. cbv zeta.
  assert (E1 : js "---\ndescription: " = [45; 45; 45; 10] ++ js "description: ")
    by (vm_compute; reflexivity).
  assert (E2 : js "\n---\n" = [10; 45; 45; 45; 10]) by (vm_compute; reflexivity).
  assert (E3 : js "\n" = [10]) by (vm_compute; reflexivity).
  rewrite E1, E2, E3. by rewrite <- !app_assoc.
Qed.

Lemma transform_block s :
  transform s =
  [45; 45; 45] ++ (js "\ndescription: " ++ frontmatterDescription s None ++ [10]) ++
  [45; 45; 45] ++ (10 :: 10 :: workflowBody s None ++ [10]).
Proof.
  unfold transform, toAntigravityWorkflowContent. cbv zeta.
  assert (E1 : js "---\ndescription: " = [45; 45; 45] ++ js "\ndescription: ")
    by (vm_compute; reflexivity).
  assert (E2 : js "\n---\n" = [10; 45; 45; 45; 10]) by (vm_compute; reflexivity).
  assert (E3 : js "\n" = [10]) by (vm_compute; reflexivity).
  rewrite E1, E2, E3. by rewrite <- !app_assoc.
Qed.

Lemma stripped_body_transform s :
  has_rule (frontmatterDescription s None) = false -> stripped_body s <> [] ->
  stripped_body (transform s) = workflowBody s None.
Proof.
  intros Hd Hne.
  assert (Ht : trim (stripped_body s) <> []).
  { unfold stripped_body. by rewrite trim_trim. }
  pose proof (ensureSteps_result_trimmed _ Ht) as Hb.
  rewrite <- workflowBody_default in Hb.
  unfold stripped_body at 1. rewrite transform_block, strip_block.
  - destruct (workflowBody s None) as [|x t] eqn:E.
    + exfalso. pose proof (ensureSteps_result_numbered (stripped_body s)) as Hn.
      rewrite <- workflowBody_default, E in Hn. vm_compute in Hn. discriminate.
    + pose proof (trim_head _ _ _ Hb) as Hx.
      change (dropWhile isSpace (10 :: 10 :: (x :: t) ++ [10]))
        with (dropWhile isSpace ((x :: t) ++ [10])).
      cbn [app dropWhile]. rewrite Hx.
      change (x :: t ++ [10]) with ((x :: t) ++ [10]).
      by rewrite trim_app_spaces.
  - rewrite <- !app_assoc, has_rule_skip by (vm_compute; reflexivity).
    cbn [app]. rewrite has_rule_sep by done. by rewrite Hd.
Qed.

(** X10.  Transforming a transformed workflow keeps its body: the front
    matter written by the first pass is exactly what the second pass
    strips, provided the description holds no [---] and the body is not
    empty. *)
Theorem transform_keeps_body s :
  has_rule (frontmatterDescription s None) = false -> stripped_body s <> [] ->
  workflowBody (transform s) None = workflowBody s None.
Proof.
  intros Hd Hne. rewrite workflowBody_default, (stripped_body_transform s Hd Hne).
  rewrite workflowBody_default. apply ensureSteps_result_fixed.
  unfold stripped_body. by rewrite trim_trim.
Qed.

Lemma transform_keeps_body_witness :
  workflowBody (transform (js "Build it\nthen ship it")) None =
  js "1. Build it\n   then ship it".
Proof.
  assert (E : workflowBody (js "Build it\nthen ship it") None =
              js "1. Build it\n   then ship it") by (vm_compute; reflexivity).
  rewrite <- E.
  apply (transform_keeps_body (js "Build it\nthen ship it"));
    [vm_compute; reflexivity|vm_compute; discriminate].
Defined.

Lemma heading_at_other x l : isChar 35 x = false -> heading_at (x :: l) = None.
Proof. intros Hx. destruct l; simpl; by rewrite ?Hx. Qed.

Lemma first_heading_rest_of_line rest : forall line,
  forallb (fun c => negb (isLineTerminator c)) line = true ->
  first_heading_from false (line ++ 10 :: rest) = first_heading_from true rest.
Proof.
  induction line as [|x line IH]; [done|]. intros [Hx Hl]%andb_prop.
  apply negb_true_iff in Hx.
  change ((x :: line) ++ 10 :: rest) with (x :: (line ++ 10 :: rest)).
  rewrite first_heading_from_cons, Hx. by apply IH.
Qed.

(** A line that does not start with [#] is passed over. *)
Lemma first_heading_skip_line line rest :
  forallb (fun c => negb (isLineTerminator c)) line = true ->
  isChar 35 (default 0 (head line)) = false ->
  first_heading_from true (line ++ 10 :: rest) = first_heading_from true rest.
Proof.
  destruct line as [|x line]; intros Hl Hx.
  - cbn [app]. by rewrite first_heading_from_cons, heading_at_other.
  - apply andb_prop in Hl as [Hx' Hl]. apply negb_true_iff in Hx'.
    change ((x :: line) ++ 10 :: rest) with (x :: (line ++ 10 :: rest)).
    rewrite first_heading_from_cons, heading_at_other, Hx' by done.
    by apply first_heading_rest_of_line.
Qed.

Lemma deriveDescription_one_line s :
  forallb (fun c => negb (isLineTerminator c)) (deriveDescription s) = true.
Proof.
  pose proof (deriveDescription_only_spaces s) as H.
  induction H as [|c l Hc Hl IH]; [done|]. cbn [forallb]. rewrite IH, andb_true_r.
  destruct Hc as [Hc| ->]; [|done].
  unfold isSpace in Hc. apply orb_false_elim in Hc as [_ ->]. done.
Qed.

Lemma clean_end_app u v : v <> [] -> clean_end v -> clean_end (u ++ v).
Proof.
  intros Hne Hv s' x H. destruct v as [|y v _] using rev_ind; [done|].
  rewrite app_assoc in H. apply app_inj_tail in H as [_ <-]. by apply (Hv v y).
Qed.

Lemma trim_transform s :
  stripped_body s <> [] ->
  trim (transform s) =
  [45; 45; 45] ++ 10 :: (js "description: " ++ frontmatterDescription s None) ++
  10 :: [45; 45; 45] ++ 10 :: [] ++ 10 :: workflowBody s None.
Proof.
  intros Hne.
  assert (Ht : trim (stripped_body s) <> []).
  { unfold stripped_body. by rewrite trim_trim. }
  pose proof (ensureSteps_result_trimmed _ Ht) as Hb.
  rewrite <- workflowBody_default in Hb.
  assert (Hbne : workflowBody s None <> []).
  { intros E. pose proof (ensureSteps_result_numbered (stripped_body s)) as Hn.
    rewrite <- workflowBody_default, E in Hn. vm_compute in Hn. discriminate. }
  rewrite transform_lines.
  generalize (js "description: " ++ frontmatterDescription s None). intros L.
  transitivity (trim (([45; 45; 45; 10] ++ L ++
                       [10; 45; 45; 45; 10; 10] ++ workflowBody s None) ++ [10])).
  { f_equal. cbn [app]. do 4 f_equal. by rewrite <- !app_assoc. }
  rewrite trim_app_spaces by done.
  transitivity ([45; 45; 45; 10] ++ L ++ [10; 45; 45; 45; 10; 10] ++ workflowBody s None);
    [|done].
  unfold trim. cbn [app]. rewrite trimStart_fixed by done.
  apply trimEnd_fixed.
  apply (clean_end_app (45 :: 45 :: 45 :: 10 :: L ++ [10; 45; 45; 45; 10; 10])
           (workflowBody s None)) in Hbne.
  - cbn [app] in Hbne. rewrite <- app_assoc in Hbne. exact Hbne.
  - rewrite <- Hb. apply trim_clean.
Qed.

Lemma first_heading_transform s :
  stripped_body s <> [] ->
  first_heading (trim (transform s)) = first_heading (workflowBody s None).
Proof.
  intros Hne. rewrite (trim_transform s Hne). unfold first_heading.
  rewrite first_heading_skip_line by done.
  rewrite first_heading_skip_line.
  - rewrite first_heading_skip_line by done.
    by rewrite first_heading_skip_line.
  - rewrite forallb_app. apply andb_true_intro. split; [vm_compute; reflexivity|].
    rewrite frontmatterDescription_derived. apply deriveDescription_one_line.
  - vm_compute. reflexivity.
Qed.

Lemma deriveDescription_source s1 s2 :
  description_source s1 = description_source s2 ->
  deriveDescription s1 = deriveDescription s2.
Proof.
  intros H. unfold deriveDescription. by rewrite !derive_cleaned_eq, H.
Qed.

(** X11.  The transformation is idempotent on a workflow whose first
    first-level heading is also the first heading of its body, when the
    derived description holds no [---] and the body is not empty: a second
    pass writes the same description and the same body. *)
Theorem transform_idempotent s h :
  first_heading (trim s) = Some h ->
  first_heading (workflowBody s None) = Some h ->
  has_rule (frontmatterDescription s None) = false ->
  stripped_body s <> [] ->
  transform (transform s) = transform s.
Proof.
  intros H1 H2 Hd Hne.
  assert (Hb : workflowBody (transform s) None = workflowBody s None).
  { rewrite workflowBody_default, (stripped_body_transform s Hd Hne).
    rewrite workflowBody_default. apply ensureSteps_result_fixed.
    unfold stripped_body. by rewrite trim_trim. }
  assert (Hdesc : frontmatterDescription (transform s) None = frontmatterDescription s None).
  { rewrite !frontmatterDescription_derived. apply deriveDescription_source.
    unfold description_source. by rewrite (first_heading_transform s Hne), H1, H2. }
  unfold transform at 1 3, toAntigravityWorkflowContent. cbv zeta.
  by rewrite Hb, Hdesc.
Qed.

Lemma transform_idempotent_witness :
  transform (transform (js "# Deploy the app\n\n1. Build it\n2. Ship it")) =
  transform (js "# Deploy the app\n\n1. Build it\n2. Ship it").
Proof.
  apply (transform_idempotent (js "# Deploy the app\n\n1. Build it\n2. Ship it")
           (js "Deploy the app")).
  - vm_compute. reflexivity.
  - vm_compute. reflexivity.
  - vm_compute. reflexivity.
  - vm_compute. discriminate.
Defined.

(** ** More on [generateCommands] *)

Lemma generate_loop_partition {W} (fsx : FsOps W) dir force : forall cmds gen skip w r w',
  generate_loop fsx dir force cmds gen skip w = (inr r, w') ->
  r.1 ++ r.2 ≡ₚ gen ++ skip ++ (filename <$> cmds).
Proof.
  induction cmds as [|cmd cmds IH]; intros gen skip w r w' H; simpl in H.
  - unfold eret in H. injection H as <- _. simpl. by rewrite app_nil_r.
  - unfold ebind at 1 in H. unfold pathExists in H.
    destruct (fs_pathExists fsx (path_join dir (filename cmd)) w) as [ex w1].
    destruct (ex && negb force).
    + apply IH in H. rewrite H, fmap_cons.
      rewrite <- (app_assoc skip). simpl. done.
    + unfold ebind at 1 in H.
      destruct (fs_writeFile fsx _ _ w1) as [[e|[]] w2]; [done|].
      apply IH in H. rewrite H, fmap_cons.
      rewrite <- (app_assoc gen). simpl.
      by rewrite (Permutation_middle skip).
Qed.

Lemma generateCommands_dir {W} (fsx : FsOps W) outputDir force (w : W) res w' :
  generateCommands fsx outputDir force w = (inr res, w') ->
  commandsDir res = path_join outputDir (js "commands").
Proof.
  intros H. unfold generateCommands in H. cbv zeta in H.
  unfold ebind at 1 in H.
  destruct (fs_ensureDir fsx _ w) as [[e|[]] w1]; [done|].
  unfold ebind at 1 in H.
  destruct (generate_loop fsx _ _ PREDEFINED_COMMANDS [] [] w1) as [[e|r] w2]; [done|].
  unfold eret in H. by injection H as <- _.
Qed.

(** X12.  On any file system, a call of [generateCommands] that returns
    reports the directory [outputDir/commands] and names every predefined
    template exactly once, in [generated] or in [skipped]. *)
Theorem generateCommands_reports_each_once
        {W} (fsx : FsOps W) outputDir force (w : W) res w' :
  generateCommands fsx outputDir force w = (inr res, w') ->
  commandsDir res = path_join outputDir (js "commands") /\
  generated res ++ skipped res ≡ₚ filename <$> PREDEFINED_COMMANDS /\
  NoDup (generated res ++ skipped res).
Proof.
  intros H. unfold generateCommands in H. cbv zeta in H.
  unfold ebind at 1 in H.
  destruct (fs_ensureDir fsx _ w) as [[e|[]] w1]; [done|].
  unfold ebind at 1 in H.
  destruct (generate_loop fsx _ _ PREDEFINED_COMMANDS [] [] w1) as [[e|r] w2] eqn:Hloop;
    [done|].
  unfold eret in H. injection H as <- _. cbn [commandsDir generated skipped].
  apply generate_loop_partition in Hloop. cbn [app] in Hloop.
  split; [done|]. split; [done|].
  rewrite Hloop. apply predefined_filenames_distinct.
Qed.

Lemma generateCommands_reports_each_once_witness :
  generated (match (generateCommands memfs [js ".context"] None demo_fs).1 with
             | inr res => res
             | inl _ => {| commandsDir := []; generated := []; skipped := [] |}
             end) ++
  skipped (match (generateCommands memfs [js ".context"] None demo_fs).1 with
           | inr res => res
           | inl _ => {| commandsDir := []; generated := []; skipped := [] |}
           end)
  ≡ₚ filename <$> PREDEFINED_COMMANDS.
Proof.
  destruct (generateCommands memfs [js ".context"] None demo_fs) as [[e|res] m'] eqn:H;
    [apply (f_equal resolved) in H; vm_compute in H; discriminate|].
  exact (proj1 (proj2 (generateCommands_reports_each_once
                         memfs [js ".context"] None demo_fs res m' H))).
Defined.

Lemma mkdirs_change : forall rest pre m m',
  mkdirs pre rest m = (inr tt, m') ->
  forall q, m' !! q = m !! q \/
            (m !! q = None /\ m' !! q = Some Directory /\
             exists k, (0 < k <= length rest)%nat /\ q = pre ++ take k rest).
Proof.
  induction rest as [|seg rest IH]; intros pre m m' H q; simpl in H.
  - injection H as <-. by left.
  - assert (Hrec : mkdirs (pre ++ [seg]) rest (<[pre ++ [seg] := Directory]> m) = (inr tt, m') ->
                   m !! (pre ++ [seg]) <> None -> m !! (pre ++ [seg]) = Some Directory ->
                   m' !! q = m !! q \/
                   (m !! q = None /\ m' !! q = Some Directory /\
                    exists k, (0 < k <= length (seg :: rest))%nat /\
                              q = pre ++ take k (seg :: rest))).
    { intros H1 _ Hd. rewrite insert_id in H1 by done.
      destruct (IH _ _ _ H1 q) as [Hq|(Hn & Hs & k & Hk & ->)]; [by left|right].
      split; [done|]. split; [done|]. exists (S k). split; [simpl; lia|].
      by rewrite <- app_assoc. }
    destruct (m !! (pre ++ [seg])) as [[c|]|] eqn:E; [done|by apply Hrec|].
    destruct (IH _ _ _ H q) as [Hq|(Hn & Hs & k & Hk & ->)].
    + destruct (decide (q = pre ++ [seg])) as [->|Hne].
      * right. rewrite Hq, lookup_insert_eq. split; [done|]. split; [done|].
        exists 1%nat. split; [simpl; lia|]. simpl. by rewrite take_0.
      * left. by rewrite Hq, lookup_insert_ne.
    + right. destruct (decide (pre ++ [seg] = (pre ++ [seg]) ++ take k rest)) as [He|Hne].
      * rewrite <- He in Hn. by rewrite lookup_insert_eq in Hn.
      * rewrite lookup_insert_ne in Hn by done. split; [done|]. split; [done|].
        exists (S k). split; [simpl; lia|]. by rewrite <- app_assoc.
Qed.

Lemma mkdirs_prefix_dirs : forall rest pre m m',
  mkdirs pre rest m = (inr tt, m') ->
  forall k, (0 < k <= length rest)%nat -> m' !! (pre ++ take k rest) = Some Directory.
Proof.
  induction rest as [|seg rest IH]; intros pre m m' H k Hk; [simpl in Hk; lia|].
  simpl in H.
  assert (Hrec : mkdirs (pre ++ [seg]) rest (<[pre ++ [seg] := Directory]> m) = (inr tt, m') ->
                 m' !! (pre ++ take k (seg :: rest)) = Some Directory).
  { intros H1. destruct k as [|k]; [lia|]. simpl in Hk |- *.
    destruct k as [|k].
    - rewrite take_0.
      destruct (mkdirs_change _ _ _ _ H1 (pre ++ [seg])) as [Hq|(Hn & _)].
      + by rewrite Hq, lookup_insert_eq.
      + by rewrite lookup_insert_eq in Hn.
    - rewrite (cons_middle seg), app_assoc. apply (IH _ _ _ H1). lia. }
  destruct (m !! (pre ++ [seg])) as [[c|]|]; [done|by apply Hrec..].
Qed.

Lemma mkdirs_noop : forall rest pre m,
  (forall k, (0 < k <= length rest)%nat -> m !! (pre ++ take k rest) = Some Directory) ->
  mkdirs pre rest m = (inr tt, m).
Proof.
  induction rest as [|seg rest IH]; intros pre m H; [done|]. simpl.
  pose proof (H 1%nat ltac:(simpl; lia)) as H1. simpl in H1. rewrite take_0 in H1.
  rewrite H1, insert_id by done. apply IH. intros k Hk.
  rewrite <- app_assoc. apply (H (S k)). simpl. lia.
Qed.

Lemma generate_loop_all_exist dir : forall cmds gen skip m,
  (forall cmd, cmd ∈ cmds -> is_Some (m !! path_join dir (filename cmd))) ->
  generate_loop memfs dir false cmds gen skip m
  = (inr (gen, skip ++ (filename <$> cmds)), m).
Proof.
  induction cmds as [|cmd cmds IH]; intros gen skip m H; simpl.
  - by rewrite app_nil_r.
  - unfold ebind at 1. unfold pathExists. simpl. rewrite lookup_node_join.
    destruct (H cmd ltac:(left)) as [nd ->]. simpl.
    rewrite IH by (intros c Hc; apply H; by right).
    by rewrite <- app_assoc.
Qed.

Lemma path_join_longer (dir : path) (name : jsstring) k : path_join dir name <> take k dir.
Proof.
  intros H. apply (f_equal length) in H. unfold path_join in H.
  rewrite length_app, length_take in H. simpl in H. lia.
Qed.

(** What a call of [generateCommands] that returns leaves in the file
    system. *)
Lemma generateCommands_effect outputDir force m res m' :
  generateCommands memfs outputDir force m = (inr res, m') ->
  let dir := path_join outputDir (js "commands") in
  exists m1,
    mkdirs [] dir m = (inr tt, m1) /\
    (forall q, (forall cmd, cmd ∈ PREDEFINED_COMMANDS -> q <> path_join dir (filename cmd)) ->
               m' !! q = m1 !! q) /\
    (forall cmd, cmd ∈ PREDEFINED_COMMANDS ->
       m' !! path_join dir (filename cmd) =
       if will_write dir (default false force) m1 cmd then Some (File (fresh_content cmd))
       else m1 !! path_join dir (filename cmd)).
Proof.
  intros H dir. unfold generateCommands in H. cbv zeta in H. fold dir in H.
  unfold ebind at 1 in H. simpl fs_ensureDir in H. unfold mem_ensureDir in H.
  destruct (mkdirs [] dir m) as [[e|[]] m1] eqn:Hmk; [done|].
  unfold ebind at 1 in H.
  destruct (generate_loop memfs _ _ PREDEFINED_COMMANDS [] [] m1) as [[e|r] m2] eqn:Hloop;
    [done|].
  unfold eret in H. injection H as _ <-.
  destruct (generate_loop_spec _ _ _ _ _ _ _ _ predefined_filenames_distinct Hloop)
    as (_ & _ & Hframe & Hcmds).
  by exists m1.
Qed.

(** X13.  After a call of [generateCommands] that returned, a further call
    without [force] generates nothing: it reports every template as skipped
    and leaves the file system as it is. *)
Theorem generateCommands_rerun outputDir force m res m' :
  generateCommands memfs outputDir force m = (inr res, m') ->
  generateCommands memfs outputDir None m'
  = (inr {| commandsDir := commandsDir res; generated := [];
            skipped := filename <$> PREDEFINED_COMMANDS |}, m').
Proof.
  intros H.
  assert (Hdir : commandsDir res = path_join outputDir (js "commands")).
  { apply (generateCommands_dir memfs outputDir force m res m' H). }
  destruct (generateCommands_effect _ _ _ _ _ H) as (m1 & Hmk & Hframe & Hcmds).
  unfold generateCommands. cbv zeta. rewrite Hdir.
  set (dir := path_join outputDir (js "commands")) in *.
  unfold ebind at 1. simpl fs_ensureDir. unfold mem_ensureDir.
  rewrite mkdirs_noop.
  - unfold ebind at 1. simpl default. rewrite generate_loop_all_exist; [done|].
    intros cmd Hin. rewrite (Hcmds cmd Hin). unfold will_write.
    destruct (m1 !! path_join dir (filename cmd)); simpl; [|done].
    by destruct (negb (default false force)).
  - intros k Hk. cbn [app]. rewrite Hframe.
    + apply (mkdirs_prefix_dirs _ [] _ _ Hmk k Hk).
    + intros cmd _ Heq. by apply (path_join_longer dir (filename cmd) k).
Qed.

Lemma generateCommands_rerun_witness :
  (generateCommands memfs [js ".context"] None
     (generateCommands memfs [js ".context"] (Some true) demo_fs).2).2
  = (generateCommands memfs [js ".context"] (Some true) demo_fs).2.
Proof.
  destruct (generateCommands memfs [js ".context"] (Some true) demo_fs)
    as [[e|res] m'] eqn:H; [apply (f_equal resolved) in H; vm_compute in H; discriminate|].
  cbn [snd].
  exact (f_equal snd (generateCommands_rerun [js ".context"] (Some true) demo_fs res m' H)).
Defined.

(** X14.  A call of [generateCommands] that returns changes nothing but its
    own files: every other entry of the file system is kept as it was, and
    what is new is a directory on the way to [outputDir/commands] or a
    template file with the template content. *)
Theorem generateCommands_frame outputDir force m res m' q :
  generateCommands memfs outputDir force m = (inr res, m') ->
  let dir := path_join outputDir (js "commands") in
  (forall nd, m !! q = Some nd ->
     (forall cmd, cmd ∈ PREDEFINED_COMMANDS -> q <> path_join dir (filename cmd)) ->
     m' !! q = Some nd) /\
  (forall nd, m !! q = None -> m' !! q = Some nd ->
     (nd = Directory /\ q `prefix_of` dir) \/
     (exists cmd, cmd ∈ PREDEFINED_COMMANDS /\ q = path_join dir (filename cmd) /\
                  nd = File (fresh_content cmd))).
Proof.
  intros H dir.
  destruct (generateCommands_effect _ _ _ _ _ H) as (m1 & Hmk & Hframe & Hcmds).
  fold dir in Hmk, Hframe, Hcmds.
  pose proof (mkdirs_change _ _ _ _ Hmk q) as Hq. split.
  - intros nd Hnd Hother. rewrite (Hframe q Hother).
    destruct Hq as [->|(Hn & _)]; [done|]. by rewrite Hn in Hnd.
  - intros nd Hnone Hnew.
    destruct (decide (q ∈ (fun cmd => path_join dir (filename cmd)) <$> PREDEFINED_COMMANDS))
      as [(cmd & -> & Hin)%list_elem_of_fmap|Hno].
    + right. exists cmd. split; [done|]. split; [done|].
      rewrite (Hcmds cmd Hin) in Hnew.
      assert (Hm1 : m1 !! path_join dir (filename cmd) = None).
      { destruct Hq as [->|(_ & _ & k & _ & Heq)]; [done|].
        cbn [app] in Heq. by apply path_join_longer in Heq. }
      unfold will_write in Hnew. rewrite Hm1 in Hnew. simpl in Hnew. by injection Hnew as <-.
    + left. rewrite Hframe in Hnew
        by (intros cmd Hin ->; apply Hno;
            by apply (list_elem_of_fmap_2 (fun cmd => path_join dir (filename cmd)))).
      destruct Hq as [Hq|(_ & Hs & k & _ & ->)]; [by rewrite Hq, Hnone in Hnew|].
      rewrite Hs in Hnew. injection Hnew as <-. split; [done|].
      cbn [app]. exists (drop k dir). by rewrite take_drop.
Qed.

Lemma generateCommands_frame_witness :
  (generateCommands memfs [js ".context"] (Some true)
     (<[[js "README.md"] := File (js "# mine\n")]> demo_fs)).2 !! [js "README.md"]
  = Some (File (js "# mine\n")).
Proof.
  destruct (generateCommands memfs [js ".context"] (Some true)
              (<[[js "README.md"] := File (js "# mine\n")]> demo_fs))
    as [[e|res] m'] eqn:H; [apply (f_equal resolved) in H; vm_compute in H; discriminate|].
  cbn [snd].
  apply (proj1 (generateCommands_frame [js ".context"] (Some true) _ res m'
                  [js "README.md"] H)).
  - vm_compute. reflexivity.
  - intros cmd Hin Heq. apply (f_equal length) in Heq. vm_compute in Heq. discriminate.
Defined.

(** ** More on [exportCommandsToAntigravity] *)

Lemma mem_readFile_inv p m c m' :
  mem_readFile p m = (inr c, m') -> m' = m /\ lookup_node m p = Some (File c).
Proof.
  unfold mem_readFile. destruct (lookup_node m p) as [[c'|]|]; intros H; by inversion H.
Qed.

Lemma export_loop_spec lower src tgt : forall files written m n m',
  export_loop memfs lower src tgt files written m = (inr n, m') ->
  (forall n1 n2, n1 ∈ files -> n2 ∈ files ->
     path_join tgt (toAntigravityFilename lower n1) <> path_join src n2) ->
  NoDup (toAntigravityFilename lower <$> files) ->
  (forall name, name ∈ files ->
     exists c, m !! path_join src name = Some (File c) /\
               m' !! path_join tgt (toAntigravityFilename lower name)
               = Some (File (toAntigravityWorkflowContent c None))) /\
  (forall q, (forall name, name ∈ files ->
                q <> path_join tgt (toAntigravityFilename lower name)) ->
             m' !! q = m !! q).
Proof.
  induction files as [|name files IH]; intros written m n m' H Hsep Hnd.
  - simpl in H. unfold eret in H. injection H as _ <-.
    split; [|done]. intros name Hin. by apply not_elem_of_nil in Hin.
  - simpl in H. unfold ebind at 1 in H. simpl fs_readFile in H.
    destruct (mem_readFile (path_join src name) m) as [[e|text] m0] eqn:Hr; [done|].
    apply mem_readFile_inv in Hr as [-> Hsrc]. rewrite lookup_node_join in Hsrc.
    unfold ebind at 1 in H. simpl fs_writeFile in H.
    destruct (mem_writeFile _ _ m) as [[e|[]] m1] eqn:Hw; [done|].
    apply mem_writeFile_inv in Hw. subst m1.
    rewrite fmap_cons in Hnd. apply NoDup_cons in Hnd as [Hfresh Hnd].
    destruct (IH _ _ _ _ H) as [Hfiles Hframe]; [|done|].
    { intros n1 n2 H1 H2. apply Hsep; by right. }
    assert (Hout : forall name', name' ∈ files ->
              path_join tgt (toAntigravityFilename lower name)
              <> path_join tgt (toAntigravityFilename lower name')).
    { intros name' Hin Heq. apply path_join_inj in Heq. apply Hfresh.
      rewrite Heq. by apply list_elem_of_fmap_2. }
    split.
    + intros name' [->|Hin]%elem_of_cons.
      * exists text. split; [done|]. rewrite Hframe by done. by rewrite lookup_insert_eq.
      * destruct (Hfiles name' Hin) as (c & Hc & Hout'). exists c. split; [|done].
        rewrite lookup_insert_ne in Hc; [done|]. apply Hsep; [left|by right].
    + intros q Hq. rewrite Hframe by (intros name' Hin; apply Hq; by right).
      rewrite lookup_insert_ne; [done|]. intros Heq. by apply (Hq name ltac:(left)).
Qed.

(** X15.  The export mirrors the sources: when it returns, every listed
    command has its workflow file in the target directory, under the
    workflow file name and with the transformed content of the source,
    whatever was there before and whatever [force] says, and the source
    files are as they were.  The output names are taken to be distinct and
    no output path to be a source path. *)
Theorem export_mirrors_sources lower src tgt files force m n m' name :
  exportCommandsToAntigravity memfs lower src tgt files force false m = (inr n, m') ->
  (forall n1 n2, n1 ∈ files -> n2 ∈ files ->
     path_join tgt (toAntigravityFilename lower n1) <> path_join src n2) ->
  NoDup (toAntigravityFilename lower <$> files) ->
  name ∈ files ->
  exists c,
    m !! path_join src name = Some (File c) /\
    m' !! path_join src name = Some (File c) /\
    m' !! path_join tgt (toAntigravityFilename lower name)
    = Some (File (toAntigravityWorkflowContent c None)).
Proof.
  intros H Hsep Hnd Hin. unfold exportCommandsToAntigravity in H.
  unfold ebind at 1 in H. simpl fs_ensureDir in H. unfold mem_ensureDir in H.
  destruct (mkdirs [] tgt m) as [[e|[]] m1] eqn:Hmk; [done|].
  destruct (export_loop_spec _ _ _ _ _ _ _ _ H Hsep Hnd) as [Hfiles Hframe].
  destruct (Hfiles name Hin) as (c & Hc & Hout). exists c.
  assert (Hm : m !! path_join src name = Some (File c)).
  { destruct (mkdirs_change _ _ _ _ Hmk (path_join src name)) as [<-|(_ & Hd & _)]; [done|].
    by rewrite Hd in Hc. }
  split; [done|]. split; [|done].
  rewrite Hframe; [done|]. intros name' Hin' Heq. by apply (Hsep name' name).
Qed.

Lemma export_mirrors_sources_witness :
  (exportCommandsToAntigravity memfs (fun s => s) [js "src"] [js "out"]
     [js "init-mcp-only.md"] false false
     (<[[js "out"; js "init_mcp_only.md"] := File (js "stale")]>
        (<[[js "out"] := Directory]> demo_source_fs))).2
    !! [js "out"; js "init_mcp_only.md"]
  = Some (File (js "---\ndescription: Init\n---\n\n1. # Init\n   \n   Run the init.\n")).
Proof.
  destruct (exportCommandsToAntigravity memfs (fun s => s) [js "src"] [js "out"]
              [js "init-mcp-only.md"] false false
              (<[[js "out"; js "init_mcp_only.md"] := File (js "stale")]>
                 (<[[js "out"] := Directory]> demo_source_fs)))
    as [[e|n] m'] eqn:H; [apply (f_equal resolved) in H; vm_compute in H; discriminate|].
  cbn [snd].
  destruct (export_mirrors_sources (fun s => s) [js "src"] [js "out"]
              [js "init-mcp-only.md"] false _ n m' (js "init-mcp-only.md") H)
    as (c & Hc & _ & Hout).
  - intros n1 n2 _ _ Heq. apply (f_equal head) in Heq. vm_compute in Heq. discriminate.
  - rewrite fmap_cons, fmap_nil. apply NoDup_singleton.
  - left.
  - assert (Hc' : c = js "# Init\n\nRun the init.").
    { vm_compute in Hc. injection Hc as <-. vm_compute. reflexivity. }
    assert (Hp : path_join [js "out"]
                   (toAntigravityFilename (fun s => s) (js "init-mcp-only.md"))
                 = [js "out"; js "init_mcp_only.md"]) by (vm_compute; reflexivity).
    rewrite Hp in Hout. rewrite Hout, Hc'. vm_compute. reflexivity.
Defined.

(** ** More on the quick sync *)

Ltac run_effects :=
  repeat match goal with
         | |- context [match ?m with _ => _ end] =>
             lazymatch m with
             | context [match _ with _ => _ end] => fail
             | _ => destruct m eqn:?
             end; cbn [fst snd rs_result rs_world rs_log agentsSynced skillsExported
                       commandsSynced docsUpdated errors] in *
         end.

Lemma step_fields {W} (svc : Services W) p abs o (s : RunState W) :
  same_fields_except
    (if resolved (pass_body svc p abs o s) then Some p else None)
    (rs_result s) (rs_result (pass_step svc p abs o s)).
Proof.
  unfold pass_step. destruct (pass_enabled p o); [|by repeat split].
  unfold tryPass, resolved.
  destruct p; unfold pass_body, agents_body, skills_body, commands_body, rules_body,
    docs_check_body, setDocsUpdated, ebind, call, tell, setResult, pathExists, eret,
    evaluate, pushError;
    cbn [fst snd rs_result rs_world rs_log];
    run_effects; simplify_eq; repeat split; try done.
Qed.

(** X16.  A step of the quick sync writes no field of the result but its
    own, and writes that one only when it succeeds: a step that throws
    leaves the three counts and [docsUpdated] as they were, and so does the
    rules export in every case. *)
Theorem step_writes_own_field {W} (svc : Services W) p abs o (s : RunState W) :
  let r := rs_result s in
  let r' := rs_result (pass_step svc p abs o s) in
  (resolved (pass_body svc p abs o s) = false \/ p = PRules ->
   agentsSynced r' = agentsSynced r /\ skillsExported r' = skillsExported r /\
   commandsSynced r' = commandsSynced r /\ docsUpdated r' = docsUpdated r) /\
  (p <> PAgents -> agentsSynced r' = agentsSynced r) /\
  (p <> PSkills -> skillsExported r' = skillsExported r) /\
  (p <> PCommands -> commandsSynced r' = commandsSynced r) /\
  (p <> PDocsCheck -> docsUpdated r' = docsUpdated r).
Proof.
  cbv zeta. destruct (step_fields svc p abs o s) as (Ha & Hs & Hc & Hd).
  split.
  - intros [Hr| ->].
    + rewrite Hr in Ha, Hs, Hc, Hd. split; [by apply Ha|]. split; [by apply Hs|].
      split; [by apply Hc|by apply Hd].
    + split; [apply Ha|]; [|split; [apply Hs|split; [apply Hc|apply Hd]]];
        by destruct (resolved _).
  - split; [intros Hp; apply Ha|split; [intros Hp; apply Hs|
      split; [intros Hp; apply Hc|intros Hp; apply Hd]]];
      destruct (resolved _); congruence.
Qed.

Lemma step_writes_own_field_witness :
  let s0 := {| rs_world := demo_repo_fs; rs_log := [];
               rs_result := {| agentsSynced := 7; skillsExported := 0; commandsSynced := 0;
                               docsUpdated := false; errors := [] |} |} in
  agentsSynced (rs_result (pass_step (demo_services true) PAgents [] (demo_options None) s0))
  = 7%nat.
Proof.
  cbv zeta.
  refine (proj1 (proj1 (step_writes_own_field (demo_services true) PAgents []
                          (demo_options None) _) _)).
  left. vm_compute. reflexivity.
Defined.

Lemma foldl_docsUpdated {W} (svc : Services W) abs o : forall ps (s : RunState W),
  PDocsCheck ∉ ps ->
  docsUpdated (rs_result (foldl (fun s p => pass_step svc p abs o s) s ps))
  = docsUpdated (rs_result s).
Proof.
  induction ps as [|p ps IH]; intros s Hp; [done|]. simpl.
  apply not_elem_of_cons in Hp as [Hne Hp]. rewrite (IH _ Hp).
  destruct (step_fields svc p abs o s) as (_ & _ & _ & Hd). apply Hd.
  destruct (resolved _); congruence.
Qed.

Lemma docs_check_step {W} (svc : Services W) abs o (s : RunState W) :
  docsUpdated (rs_result (pass_step svc PDocsCheck abs o s)) =
  if notSet (skipDocs o) then
    match (svc_detect svc abs (rs_world s)).1 with
    | inr d => negb (reportsOutdated d)
    | inl _ => docsUpdated (rs_result s)
    end
  else docsUpdated (rs_result s).
Proof.
  unfold pass_step. cbn [pass_enabled]. destruct (notSet (skipDocs o)); [|done].
  unfold tryPass, pass_body, docs_check_body, setDocsUpdated, ebind, call, tell, setResult,
    reportsOutdated.
  cbn [fst snd rs_result rs_world rs_log].
  destruct (svc_detect svc abs (rs_world s)) as [[e|d] w1]; [done|].
  cbn [fst snd rs_result rs_world rs_log].
  destruct (det_daysBehind d) as [days|]; [|by rewrite andb_false_r].
  by destruct (bool_decide _ && negb _).
Qed.

(** X17.  [run] reports [docsUpdated] exactly when [skipDocs] is not set,
    the state detector resolves after the four sync steps, and it does not
    report the state [outdated] with a number of days other than zero: an
    outdated state with no days or zero days counts as up to date, and a
    detector that throws leaves the flag off. *)
Theorem run_docsUpdated {W} (svc : Services W) repo o (w : W) :
  let abs := svc_resolve svc repo in
  let s4 := foldl (fun s p => pass_step svc p abs o s)
                  {| rs_world := w; rs_log := []; rs_result := initialResult |}
                  [PAgents; PSkills; PCommands; PRules] in
  docsUpdated (rs_result (run svc repo o w)) =
  notSet (skipDocs o) &&
  match (svc_detect svc abs (rs_world s4)).1 with
  | inr d => negb (reportsOutdated d)
  | inl _ => false
  end.
Proof.
  cbv zeta. unfold run, all_passes. cbv zeta.
  change [PAgents; PSkills; PCommands; PRules; PDocsCheck]
    with ([PAgents; PSkills; PCommands; PRules] ++ [PDocsCheck]).
  rewrite foldl_app.
  set (s4 := foldl _ _ [PAgents; PSkills; PCommands; PRules]).
  cbn [foldl]. rewrite docs_check_step.
  assert (H4 : docsUpdated (rs_result s4) = false).
  { unfold s4. rewrite foldl_docsUpdated; [done|]. intros H.
    repeat (apply elem_of_cons in H as [H|H]; [discriminate|]).
    by apply not_elem_of_nil in H. }
  rewrite H4.
  cbn [initialResult docsUpdated rs_result].
  destruct (notSet (skipDocs o)); [|done]. simpl andb.
  by destruct ((svc_detect svc _ _).1).
Qed.

Lemma lookupPreset_unknown id presets :
  id ∉ presets.*1 ->
  lookupPreset id presets
  = if bool_decide (id ∈ objectPrototypeKeys) then Some InheritedProperty else None.
Proof.
  intros Hid. unfold lookupPreset.
  destruct (List.find _ presets) as [kv|] eqn:E; [|done].
  apply find_some in E as [Hin Heq]. apply bool_decide_eq_true in Heq.
  destruct Hid. rewrite <- Heq. apply list_elem_of_fmap_2. by apply list_elem_of_In.
Qed.

Lemma resolvePresetPaths_inherited e abs : forall ps,
  ps <> [] -> Forall (fun p => p = InheritedProperty) ps ->
  resolvePresetPaths e abs ps = inl e.
Proof. intros [|p ps] Hne Hall; [done|]. by apply Forall_cons in Hall as [-> _]. Qed.

(** X18.  Command targets that name no preset are not reported as unknown.
    When no selected target is a key of the presets: if none of them is a
    name that objects inherit from [Object.prototype] either, the commands
    step calls neither the sync service nor the workflow export (the world
    is the one that the directory listing left), and yet it succeeds and
    reports every [.md] file of the commands directory as synced; if one of
    them is such a name ([constructor], [toString], ...), the lookup finds
    the inherited property, [path.resolve] throws on its missing path, and
    the step fails before it lists the directory, with the result as it
    was. *)
Theorem unknown_command_targets {W} (svc : Services W) abs o (s : RunState W) ids w1 :
  commandTargets o = Some ids -> ids <> [] ->
  (forall id, id ∈ ids -> id ∉ (svc_commandsPresets svc).*1) ->
  fs_pathExists (svc_fs svc) (contextDir abs (js "commands")) (rs_world s) = (true, w1) ->
  let out := commands_body svc abs o s in
  ((forall id, id ∈ ids -> id ∉ objectPrototypeKeys) ->
   forall files w2,
     fs_readdir (svc_fs svc) (contextDir abs (js "commands")) w1 = (inr files, w2) ->
     out.1 = inr tt /\ rs_world out.2 = w2 /\
     commandsSynced (rs_result out.2) = length (mdFiles files) /\
     errors (rs_result out.2) = errors (rs_result s)) /\
  ((exists id, id ∈ ids /\ id ∈ objectPrototypeKeys) ->
   out.1 = inl (svc_resolveUndefined svc) /\ rs_world out.2 = w1 /\
   rs_result out.2 = rs_result s).
Proof.
  intros Ht Hne Hunknown Hex. cbv zeta.
  assert (Hids : command_target_ids (svc_commandsPresets svc) o = ids).
  { unfold command_target_ids. rewrite Ht. by destruct ids. }
  assert (Hanti : match lookupPreset (js "antigravity") (svc_commandsPresets svc) with
                  | Some antigravityPreset =>
                      if bool_decide (js "antigravity" ∈ ids) then
                        match resolvePresetPath (svc_resolveUndefined svc) abs
                                antigravityPreset with
                        | inl e => inl e
                        | inr target => inr (Some target)
                        end
                      else inr None
                  | None => inr None
                  end = inr None).
  { destruct (decide (js "antigravity" ∈ ids)) as [Hin|Hnin].
    - rewrite (lookupPreset_unknown _ _ (Hunknown _ Hin)).
      by rewrite bool_decide_eq_false_2 by exact antigravity_not_inherited.
    - rewrite (bool_decide_eq_false_2 (js "antigravity" ∈ ids)) by exact Hnin.
      by destruct (lookupPreset _ _). }
  unfold commands_body. cbv zeta. rewrite Hids, Hanti.
  unfold ebind, call, tell, setResult, pathExists, eret, evaluate.
  cbn [fst snd rs_result rs_world rs_log]. rewrite Hex.
  cbn [fst snd rs_result rs_world rs_log].
  split.
  - intros Hplain files w2 Hdir.
    assert (Hother : omap (fun id => lookupPreset id (svc_commandsPresets svc))
                       (List.filter (fun id => negb (bool_decide (id = js "antigravity"))) ids)
                     = []).
    { clear Ht Hne Hids Hanti. induction ids as [|id ids IH]; [done|]. cbn [List.filter].
      assert (IH' : omap (fun id => lookupPreset id (svc_commandsPresets svc))
                      (List.filter (fun id => negb (bool_decide (id = js "antigravity"))) ids)
                    = [])
        by (apply IH; intros i Hi; [apply Hunknown|apply Hplain]; by right).
      destruct (negb _); [|done]. cbn [omap list_omap].
      rewrite (lookupPreset_unknown _ _ (Hunknown id ltac:(left))).
      by rewrite bool_decide_eq_false_2 by (apply Hplain; left). }
    rewrite Hother. cbn [resolvePresetPaths fst snd rs_result rs_world rs_log]. rewrite Hdir.
    cbn [fst snd rs_result rs_world rs_log fmap list_fmap length Nat.ltb Nat.leb
         commandsSynced errors].
    done.
  - intros (id & Hin & Hinh).
    rewrite resolvePresetPaths_inherited; [done|..].
    + intros Hnil.
      assert (Hel : InheritedProperty
                    ∈ omap (fun id => lookupPreset id (svc_commandsPresets svc))
                        (List.filter (fun id => negb (bool_decide (id = js "antigravity")))
                           ids)).
      { apply list_elem_of_omap. exists id. split.
        - apply list_elem_of_In, filter_In. split; [by apply list_elem_of_In|].
          apply negb_true_iff, bool_decide_eq_false_2. intros ->.
          by apply antigravity_not_inherited.
        - rewrite (lookupPreset_unknown _ _ (Hunknown id Hin)).
          by rewrite bool_decide_eq_true_2 by exact Hinh. }
      rewrite Hnil in Hel. by apply not_elem_of_nil in Hel.
    + apply Forall_forall. intros p (i & Hi & Hp)%list_elem_of_omap.
      apply list_elem_of_In, filter_In in Hi as [Hi _]. apply list_elem_of_In in Hi.
      rewrite (lookupPreset_unknown _ _ (Hunknown i Hi)) in Hp.
      destruct (bool_decide (i ∈ objectPrototypeKeys)); by simplify_eq.
Qed.

Lemma unknown_command_targets_witness :
  let o ids := {| skipAgents := None; skipSkills := None; skipDocs := None;
                  force := None; dryRun := None; verbose := None;
                  agentTargets := None; skillTargets := None; docTargets := None;
                  skipCommands := None; commandTargets := Some ids |} in
  let s0 := {| rs_world := demo_repo_fs; rs_log := []; rs_result := initialResult |} in
  (rs_world (commands_body (demo_services true) [] (o [js "cursr"]) s0).2 = demo_repo_fs /\
   commandsSynced (rs_result (commands_body (demo_services true) [] (o [js "cursr"]) s0).2)
   = 1%nat) /\
  (commands_body (demo_services true) [] (o [js "constructor"]) s0).1
  = inl (svc_resolveUndefined (demo_services true)).
Proof.
  cbv zeta.
  assert (Hex : fs_pathExists (svc_fs (demo_services true)) (contextDir [] (js "commands"))
                  demo_repo_fs = (true, demo_repo_fs)).
  { cbn [demo_services svc_fs memfs fs_pathExists]. unfold mem_pathExists.
    f_equal; vm_compute; reflexivity. }
  assert (Hown : forall id, id ∈ [js "cursr"] \/ id ∈ [js "constructor"] ->
                            id ∉ (svc_commandsPresets (demo_services true)).*1).
  { intros id [Hin|Hin]; apply list_elem_of_singleton in Hin; subst id;
      intros H; apply (bool_decide_eq_true_2 _) in H; vm_compute in H; discriminate. }
  split.
  - destruct (proj1 (unknown_command_targets (demo_services true) []
                {| skipAgents := None; skipSkills := None; skipDocs := None;
                   force := None; dryRun := None; verbose := None;
                   agentTargets := None; skillTargets := None; docTargets := None;
                   skipCommands := None; commandTargets := Some [js "cursr"] |}
                {| rs_world := demo_repo_fs; rs_log := []; rs_result := initialResult |}
                [js "cursr"] demo_repo_fs eq_refl ltac:(discriminate)
                (fun id Hin => Hown id (or_introl Hin)) Hex))
      with (files := [js "init-mcp-only.md"]) (w2 := demo_repo_fs) as (_ & Hw & Hn & _).
    + intros id Hin. apply list_elem_of_singleton in Hin. subst id.
      apply not_elem_of_by_decide. vm_compute. reflexivity.
    + cbn [demo_services svc_fs memfs fs_readdir]. unfold mem_readdir.
      replace (lookup_node demo_repo_fs (contextDir [] (js "commands")))
        with (Some Directory) by (vm_compute; reflexivity).
      do 2 f_equal; vm_compute; reflexivity.
    + split; [exact Hw|]. rewrite Hn. vm_compute. reflexivity.
  - apply (proj2 (unknown_command_targets (demo_services true) []
                {| skipAgents := None; skipSkills := None; skipDocs := None;
                   force := None; dryRun := None; verbose := None;
                   agentTargets := None; skillTargets := None; docTargets := None;
                   skipCommands := None; commandTargets := Some [js "constructor"] |}
                {| rs_world := demo_repo_fs; rs_log := []; rs_result := initialResult |}
                [js "constructor"] demo_repo_fs eq_refl ltac:(discriminate)
                (fun id Hin => Hown id (or_intror Hin)) Hex)).
    exists (js "constructor"). split; [left|].
    apply elem_of_by_decide. vm_compute. reflexivity.
Defined.

(** ** The init service *)

Lemma allowed_cases r :
  r ∈ InitService.allowed -> r = js "docs" \/ r = js "agents" \/ r = js "both".
Proof.
  unfold InitService.allowed. intros H.
  apply elem_of_cons in H as [->|H]; [by left|].
  apply elem_of_cons in H as [->|H]; [by right; left|].
  apply elem_of_cons in H as [->|H]; [by right; right|].
  by apply not_elem_of_nil in H.
Qed.

Lemma resolveScaffoldType_allowed lower t type raw r :
  InitService.resolveScaffoldType lower t type raw = inr r -> r ∈ InitService.allowed.
Proof.
  unfold InitService.resolveScaffoldType. cbv zeta.
  destruct (decide (toLowerCase lower (if bool_decide (type = []) then js "both" else type)
                    ∈ InitService.allowed)) as [Hin|Hnin].
  - rewrite (bool_decide_eq_true_2 _ Hin). cbn [negb].
    destruct (InitService.isSet (InitService.raw_docsOnly raw)).
    { intros [= <-]. unfold InitService.allowed. left. }
    destruct (InitService.isSet (InitService.raw_agentsOnly raw)).
    { intros [= <-]. unfold InitService.allowed. right. left. }
    by intros [= <-].
  - by rewrite (bool_decide_eq_false_2 _ Hnin).
Qed.

(** X19.  [resolveScaffoldType] returns nothing but [docs], [agents] or
    [both], also when a flag overrides the type; the type is checked before
    the flags are read, so an invalid type is rejected even with [docsOnly]
    or [agentsOnly] set; and an ASCII type is accepted in any letter case,
    the empty type as [both]. *)
Theorem resolveScaffoldType_result lower t type raw :
  let normalized :=
    asciiLower <$> (if bool_decide (type = []) then js "both" else type) in
  isAsciiString type = true ->
  (normalized ∈ InitService.allowed ->
   exists r, InitService.resolveScaffoldType lower t type raw = inr r /\
             r ∈ InitService.allowed /\
             (InitService.isSet (InitService.raw_docsOnly raw) = false ->
              InitService.isSet (InitService.raw_agentsOnly raw) = false ->
              r = normalized)) /\
  (normalized ∉ InitService.allowed ->
   exists e, InitService.resolveScaffoldType lower t type raw = inl e).
Proof.
  cbv zeta. intros Hascii.
  assert (Hlow : toLowerCase lower (if bool_decide (type = []) then js "both" else type)
                 = asciiLower <$> (if bool_decide (type = []) then js "both" else type)).
  { unfold toLowerCase. destruct (bool_decide (type = [])).
    - replace (forallb (fun c => c <? 128) (js "both")) with true
        by (vm_compute; reflexivity). done.
    - unfold isAsciiString in Hascii. by rewrite Hascii. }
  split.
  - intros Hin.
    destruct (InitService.resolveScaffoldType lower t type raw) as [e|r] eqn:E.
    + exfalso. unfold InitService.resolveScaffoldType in E. cbv zeta in E.
      rewrite Hlow, (bool_decide_eq_true_2 _ Hin) in E. cbn [negb] in E.
      destruct (InitService.isSet _); [done|]. by destruct (InitService.isSet _).
    + exists r. split; [done|]. split; [by apply resolveScaffoldType_allowed in E|].
      intros Hd Ha. unfold InitService.resolveScaffoldType in E. cbv zeta in E.
      rewrite Hlow, (bool_decide_eq_true_2 _ Hin), Hd, Ha in E. cbn [negb] in E.
      by injection E as <-.
  - intros Hnin. unfold InitService.resolveScaffoldType. cbv zeta.
    rewrite Hlow, (bool_decide_eq_false_2 _ Hnin). cbn [negb]. by eexists.
Qed.

Lemma resolveScaffoldType_result_witness :
  exists r,
    InitService.resolveScaffoldType (fun s => s) (fun key _ => key) (js "Agents") demo_raw
    = inr r /\ r ∈ InitService.allowed.
Proof.
  destruct (proj1 (resolveScaffoldType_result (fun s => s) (fun key _ => key)
                     (js "Agents") demo_raw ltac:(vm_compute; reflexivity)))
    as (r & Hr & Hin & _).
  - vm_compute. right. left.
  - by exists r.
Defined.

Section InitProperties.

Context {W : Type} (deps : InitService.InitServiceDependencies W).

Lemma quiet_ret {A} (a : A) : quiet (W := W) (eret a).
Proof. by intros s. Qed.

Lemma quiet_reject {A} e : quiet (W := W) (A := A) (InitService.reject e).
Proof. by intros s. Qed.

Lemma quiet_io {A} (m : Eff W A) : quiet (InitService.io m).
Proof. intros s. unfold InitService.io. by destruct (m (InitService.is_world s)). Qed.

Lemma quiet_display c : InitService.is_warning c = false -> quiet (W := W) (InitService.display c).
Proof.
  intros Hc s. cbn [InitService.display snd InitService.is_ui].
  rewrite List.filter_app. cbn [List.filter]. by rewrite Hc, app_nil_r.
Qed.

Lemma quiet_bind {A B} (m : Eff (InitService.InitState W) A)
      (f : A -> Eff (InitService.InitState W) B) :
  quiet m -> (forall a, quiet (f a)) -> quiet (ebind m f).
Proof.
  intros Hm Hf s. unfold ebind. specialize (Hm s).
  destruct (m s) as [[e|a] s1]; [done|]. by rewrite (Hf a s1).
Qed.

Lemma quiet_tryCatch {A} (m h : Eff (InitService.InitState W) A) :
  quiet m -> quiet h -> quiet (InitService.tryCatch m h).
Proof.
  intros Hm Hh s. unfold InitService.tryCatch. specialize (Hm s).
  destruct (m s) as [[e|a] s1]; [|done]. by rewrite (Hh s1).
Qed.

Ltac quieten :=
  repeat lazymatch goal with
         | |- quiet (eret _) => apply quiet_ret
         | |- quiet (InitService.reject _) => apply quiet_reject
         | |- quiet (InitService.io _) => apply quiet_io
         | |- quiet (InitService.display _) => apply quiet_display; reflexivity
         | |- quiet (InitService.tryCatch _ _) => apply quiet_tryCatch
         | |- quiet (ebind _ _) => apply quiet_bind; [|intros ?]
         | |- quiet (if ?b then _ else _) => destruct b
         end.

Lemma quiet_directoryHasContent dir : quiet (InitService.directoryHasContent deps dir).
Proof. unfold InitService.directoryHasContent. quieten. Qed.

Lemma quiet_confirmOverwriteIfNeeded options :
  quiet (InitService.confirmOverwriteIfNeeded deps options).
Proof.
  unfold InitService.confirmOverwriteIfNeeded. cbv zeta.
  repeat first [apply quiet_directoryHasContent | progress quieten].
Qed.

Lemma quiet_generateScaffolds options repo skip :
  quiet (InitService.generateScaffolds deps options repo skip).
Proof.
  unfold InitService.generateScaffolds, InitService.docsBlock, InitService.agentsBlock,
    InitService.skillsBlock, InitService.commandsBlock.
  cbv zeta. quieten.
Qed.

Lemma initOptions_selected repo r raw :
  r ∈ InitService.allowed ->
  InitService.scaffoldDocs (InitService.initOptions deps repo r raw)
  || InitService.scaffoldAgents (InitService.initOptions deps repo r raw) = true.
Proof.
  intros [->| [->| ->]]%allowed_cases; cbn [InitService.initOptions
    InitService.scaffoldDocs InitService.scaffoldAgents]; vm_compute; reflexivity.
Qed.

Lemma quiet_run repo type raw : quiet (InitService.run deps repo type raw).
Proof.
  unfold InitService.run.
  destruct (InitService.resolveScaffoldType _ _ type raw) as [e|r] eqn:E;
    [apply quiet_reject|].
  cbv zeta. pose proof (initOptions_selected repo r raw (resolveScaffoldType_allowed _ _ _ _ _ E)) as Hsel.
  destruct (InitService.scaffoldDocs _), (InitService.scaffoldAgents _); try done;
    cbn [negb andb]; unfold InitService.ensurePaths;
    repeat first
      [ apply quiet_confirmOverwriteIfNeeded
      | apply quiet_generateScaffolds
      | progress quieten ].
Qed.

End InitProperties.

(** X20.  [run] of the init service never displays a warning: the type it
    resolves is [docs], [agents] or [both], each of which selects the docs
    or the agents, so the branch that warns that nothing is selected is
    never taken, and no other step displays a warning.  A call that does not
    reject for its type goes on to [ensurePaths]. *)
Theorem init_never_warns {W} (deps : InitService.InitServiceDependencies W)
        repo type raw (s : InitService.InitState W) :
  List.filter InitService.is_warning (InitService.is_ui (InitService.run deps repo type raw s).2)
  = List.filter InitService.is_warning (InitService.is_ui s) /\
  forall r, InitService.resolveScaffoldType (InitService.dep_unicodeLower deps)
              (InitService.dep_t deps) type raw = inr r ->
            InitService.scaffoldDocs (InitService.initOptions deps repo r raw)
            || InitService.scaffoldAgents (InitService.initOptions deps repo r raw) = true.
Proof.
  split; [apply quiet_run|].
  intros r Hr. apply initOptions_selected. by apply resolveScaffoldType_allowed in Hr.
Qed.

Lemma init_never_warns_witness :
  List.filter InitService.is_warning
    (InitService.is_ui
       (InitService.run (demo_init_deps false false) (js "repo") (js "both") demo_raw
          {| InitService.is_world := demo_init_fs; InitService.is_ui := [] |}).2)
  = [].
Proof.
  exact (proj1 (init_never_warns (demo_init_deps false false) (js "repo") (js "both")
                  demo_raw {| InitService.is_world := demo_init_fs;
                              InitService.is_ui := [] |})).
Defined.

Section InitSteps.

Context {W : Type} (deps : InitService.InitServiceDependencies W).

Lemma shown_steps_snoc log c :
  InitService.shown_steps (log ++ [c]) =
  InitService.shown_steps log ++
  match c with InitService.DisplayStep cur total _ => [(cur, total)] | _ => [] end.
Proof.
  unfold InitService.shown_steps. rewrite omap_app. f_equal. by destruct c.
Qed.

Lemma stepless_ret {A} (a : A) : stepless (W := W) (eret a).
Proof. by intros s. Qed.

Lemma stepless_io {A} (m : Eff W A) : stepless (InitService.io m).
Proof. intros s. unfold InitService.io. by destruct (m (InitService.is_world s)). Qed.

Lemma stepless_display c :
  match c with InitService.DisplayStep _ _ _ => False | _ => True end ->
  stepless (W := W) (InitService.display c).
Proof.
  intros Hc s. cbn [InitService.display snd InitService.is_ui].
  rewrite shown_steps_snoc. destruct c; try done; by rewrite app_nil_r.
Qed.

Lemma stepless_bind {A B} (m : Eff (InitService.InitState W) A)
      (f : A -> Eff (InitService.InitState W) B) :
  stepless m -> (forall a, stepless (f a)) -> stepless (ebind m f).
Proof.
  intros Hm Hf s. unfold ebind. specialize (Hm s).
  destruct (m s) as [[e|a] s1]; [done|]. by rewrite (Hf a s1).
Qed.

Lemma stepless_tryCatch {A} (m h : Eff (InitService.InitState W) A) :
  stepless m -> stepless h -> stepless (InitService.tryCatch m h).
Proof.
  intros Hm Hh s. unfold InitService.tryCatch. specialize (Hm s).
  destruct (m s) as [[e|a] s1]; [|done]. by rewrite (Hh s1).
Qed.

Ltac no_steps :=
  repeat lazymatch goal with
         | |- stepless (eret _) => apply stepless_ret
         | |- stepless (InitService.io _) => apply stepless_io
         | |- stepless (InitService.display _) => apply stepless_display; exact I
         | |- stepless (InitService.tryCatch _ _) => apply stepless_tryCatch
         | |- stepless (ebind _ _) => apply stepless_bind; [|intros ?]
         | |- stepless (if ?b then _ else _) => destruct b
         end.

(** A block of [generateScaffolds] that is entered shows its step number
    first and nothing else; it resolves to the next number. *)
Lemma step_block {A} (enabled : bool) cur total text
      (rest : Eff (InitService.InitState W) (A * nat)) (other : A) s :
  stepless rest ->
  (forall s1 r s2, rest s1 = (inr r, s2) -> r.2 = S cur) ->
  let block :=
    if enabled then
      ebind (InitService.display (InitService.DisplayStep cur total text)) (fun _ => rest)
    else eret (other, cur) in
  InitService.shown_steps (InitService.is_ui (block s).2)
  = InitService.shown_steps (InitService.is_ui s) ++ (if enabled then [(cur, total)] else [])
  /\ (forall r, (block s).1 = inr r -> r.2 = if enabled then S cur else cur).
Proof.
  intros Hrest Hnext. cbv zeta. destruct enabled.
  - unfold ebind. cbn [InitService.display].
    set (s1 := {| InitService.is_world := _; InitService.is_ui := _ |}).
    split.
    + rewrite (Hrest s1). unfold s1. cbn [InitService.is_ui]. by rewrite shown_steps_snoc.
    + intros r Hr. destruct (rest s1) as [[e|r'] s2] eqn:E; [done|].
      cbn [fst] in Hr. injection Hr as <-. by apply (Hnext _ _ _ E).
  - split; [by rewrite app_nil_r|]. by intros r [= <-].
Qed.

Lemma docsBlock_steps options repo skip filtered cur s :
  let enabled := InitService.scaffoldDocs options && negb (InitService.skipDocs skip) in
  let out := InitService.docsBlock deps options repo skip filtered cur s in
  InitService.shown_steps (InitService.is_ui out.2)
  = InitService.shown_steps (InitService.is_ui s)
    ++ (if enabled then [(cur, InitService.totalSteps options skip)] else [])
  /\ (forall r, out.1 = inr r -> r.2 = if enabled then S cur else cur).
Proof.
  cbv zeta. unfold InitService.docsBlock. apply step_block.
  - no_steps.
  - intros s1 r s2. unfold ebind, InitService.display, InitService.io, eret.
    cbn [InitService.is_world InitService.is_ui].
    destruct (InitService.dep_generateDocumentation _ _ _ _ _ _) as [[e|n] w]; [done|].
    by intros [= <- _].
Qed.

Lemma agentsBlock_steps options repo skip filtered cur s :
  let enabled := InitService.scaffoldAgents options && negb (InitService.skipAgents skip) in
  let out := InitService.agentsBlock deps options repo skip filtered cur s in
  InitService.shown_steps (InitService.is_ui out.2)
  = InitService.shown_steps (InitService.is_ui s)
    ++ (if enabled then [(cur, InitService.totalSteps options skip)] else [])
  /\ (forall r, out.1 = inr r -> r.2 = if enabled then S cur else cur).
Proof.
  cbv zeta. unfold InitService.agentsBlock. apply step_block.
  - no_steps.
  - intros s1 r s2. unfold ebind, InitService.display, InitService.io, eret.
    cbn [InitService.is_world InitService.is_ui].
    destruct (InitService.dep_generateAgentPrompts _ _ _ _ _ _) as [[e|n] w]; [done|].
    by intros [= <- _].
Qed.

Lemma skillsBlock_steps options skip cur s :
  let enabled := InitService.scaffoldSkills options && negb (InitService.skipSkills skip) in
  let out := InitService.skillsBlock deps options skip cur s in
  InitService.shown_steps (InitService.is_ui out.2)
  = InitService.shown_steps (InitService.is_ui s)
    ++ (if enabled then [(cur, InitService.totalSteps options skip)] else [])
  /\ (forall r, out.1 = inr r -> r.2 = if enabled then S cur else cur)
  /\ resolved out = true.
Proof.
  cbv zeta. unfold InitService.skillsBlock.
  split; [|split]; [apply step_block|apply step_block|].
  - cbv zeta. no_steps.
  - intros s1 r s2. cbv zeta.
    unfold ebind, InitService.display, InitService.io, InitService.tryCatch, eret.
    cbn [InitService.is_world InitService.is_ui].
    destruct (InitService.dep_generateSkills _ _ _ _) as [[e|n] w]; by intros [= <- _].
  - cbv zeta. no_steps.
  - intros s1 r s2. cbv zeta.
    unfold ebind, InitService.display, InitService.io, InitService.tryCatch, eret.
    cbn [InitService.is_world InitService.is_ui].
    destruct (InitService.dep_generateSkills _ _ _ _) as [[e|n] w]; by intros [= <- _].
  - destruct (_ && _); [|done]. cbv zeta.
    unfold resolved, ebind, InitService.display, InitService.io, InitService.tryCatch, eret.
    cbn [InitService.is_world InitService.is_ui].
    by destruct (InitService.dep_generateSkills _ _ _ _) as [[e|n] w].
Qed.

Lemma commandsBlock_steps options skip cur s :
  let enabled := InitService.scaffoldDocs options || InitService.scaffoldAgents options in
  let out := InitService.commandsBlock deps options skip cur s in
  InitService.shown_steps (InitService.is_ui out.2)
  = InitService.shown_steps (InitService.is_ui s)
    ++ (if enabled then [(cur, InitService.totalSteps options skip)] else [])
  /\ resolved out = true.
Proof.
  cbv zeta. unfold InitService.commandsBlock. destruct (_ || _).
  - cbv zeta. unfold resolved, ebind, InitService.display, InitService.io,
      InitService.tryCatch, eret.
    cbn [InitService.is_world InitService.is_ui].
    destruct (generateCommands _ _ _ _) as [[e|res] w];
      cbn [fst snd InitService.is_ui]; rewrite ?shown_steps_snoc, ?app_nil_r; done.
  - by rewrite app_nil_r.
Qed.

Lemma steps_upto (total : nat) (a b c : bool) :
  (if a then [(1%nat, total)] else []) ++
  (if b then [((if a then 2 else 1)%nat, total)] else []) ++
  (if c then [((if b then S (if a then 2 else 1) else if a then 2 else 1)%nat, total)]
   else [])
  = (fun i => (i, total)) <$> seq 1 ((if a then 1 else 0) + (if b then 1 else 0)
                                      + (if c then 1 else 0))%nat.
Proof. by destruct a, b, c. Qed.

Lemma generateScaffolds_steps options repo skip s :
  let out := InitService.generateScaffolds deps options repo skip s in
  let total := InitService.totalSteps options skip in
  exists k, (k <= total)%nat /\
    InitService.shown_steps (InitService.is_ui out.2)
    = InitService.shown_steps (InitService.is_ui s) ++ ((fun i => (i, total)) <$> seq 1 k) /\
    (resolved out = true ->
     InitService.scaffoldDocs options || InitService.scaffoldAgents options = true ->
     k = total).
Proof.
  cbv zeta. unfold InitService.generateScaffolds.
  assert (Ht : InitService.totalSteps options skip =
               ((if InitService.scaffoldDocs options && negb (InitService.skipDocs skip)
                 then 1 else 0) +
                (if InitService.scaffoldAgents options && negb (InitService.skipAgents skip)
                 then 1 else 0) +
                (if InitService.scaffoldSkills options && negb (InitService.skipSkills skip)
                 then 1 else 0) + 1)%nat) by reflexivity.
  set (total := InitService.totalSteps options skip) in *.
  set (en_d := InitService.scaffoldDocs options && negb (InitService.skipDocs skip)) in *.
  set (en_a := InitService.scaffoldAgents options && negb (InitService.skipAgents skip)) in *.
  set (en_s := InitService.scaffoldSkills options && negb (InitService.skipSkills skip)) in *.
  unfold ebind.
  assert (H0 : stepless (InitService.tryCatch
                           (InitService.io (InitService.dep_filteredScaffolds deps
                                              (InitService.repoPath options)))
                           (eret (None, None)))) by no_steps.
  specialize (H0 s).
  destruct (InitService.tryCatch _ _ s) as [[e|filtered] s0].
  { exists 0%nat. cbn [fst snd] in *. rewrite H0, app_nil_r. split; [lia|]. by split. }
  cbn [snd] in H0.
  destruct (docsBlock_steps options repo skip filtered.1 1 s0) as [Hd Hd'].
  fold en_d total in Hd, Hd'.
  destruct (InitService.docsBlock deps options repo skip filtered.1 1 s0) as [[e|docs] s1].
  { exists (if en_d then 1 else 0)%nat. cbn [fst snd] in *. rewrite Hd, H0.
    split; [destruct en_d; lia|]. split; [by destruct en_d|done]. }
  cbn [fst snd] in Hd, Hd'. specialize (Hd' docs eq_refl).
  destruct (agentsBlock_steps options repo skip filtered.2 docs.2 s1) as [Ha Ha'].
  fold en_a total in Ha, Ha'.
  destruct (InitService.agentsBlock deps options repo skip filtered.2 docs.2 s1)
    as [[e|agents] s2].
  { exists ((if en_d then 1 else 0) + (if en_a then 1 else 0))%nat.
    cbn [fst snd] in *. rewrite Ha, Hd, H0, Hd', <- app_assoc.
    split; [destruct en_d, en_a; lia|]. split; [by destruct en_d, en_a|done]. }
  cbn [fst snd] in Ha, Ha'. specialize (Ha' agents eq_refl).
  destruct (skillsBlock_steps options skip agents.2 s2) as (Hs & Hs' & _).
  fold en_s total in Hs, Hs'.
  destruct (InitService.skillsBlock deps options skip agents.2 s2) as [[e|skills] s3].
  { exists ((if en_d then 1 else 0) + (if en_a then 1 else 0) + (if en_s then 1 else 0))%nat.
    cbn [fst snd] in *. rewrite Hs, Ha, Hd, H0, Ha', Hd', <- !app_assoc.
    split; [destruct en_d, en_a, en_s; lia|]. split; [by destruct en_d, en_a, en_s|done]. }
  cbn [fst snd] in Hs, Hs'. specialize (Hs' skills eq_refl).
  destruct (commandsBlock_steps options skip skills.2 s3) as [Hc _]. fold total in Hc.
  destruct (InitService.commandsBlock deps options skip skills.2 s3) as [[e|commands] s4].
  - exists ((if en_d then 1 else 0) + (if en_a then 1 else 0) + (if en_s then 1 else 0)
            + (if InitService.scaffoldDocs options || InitService.scaffoldAgents options
               then 1 else 0))%nat.
    cbn [fst snd] in *. rewrite Hc, Hs, Ha, Hd, H0, Hs', Ha', Hd', <- !app_assoc.
    split; [destruct en_d, en_a, en_s, (_ || _); lia|].
    split; [by destruct en_d, en_a, en_s, (_ || _)|done].
  - exists ((if en_d then 1 else 0) + (if en_a then 1 else 0) + (if en_s then 1 else 0)
            + (if InitService.scaffoldDocs options || InitService.scaffoldAgents options
               then 1 else 0))%nat.
    cbn [fst snd eret] in *. rewrite Hc, Hs, Ha, Hd, H0, Hs', Ha', Hd', <- !app_assoc.
    split; [destruct en_d, en_a, en_s, (_ || _); lia|].
    split; [by destruct en_d, en_a, en_s, (_ || _)|].
    intros _ ->. lia.
Qed.

End InitSteps.

(** X21.  The steps that [generateScaffolds] shows are numbered 1, 2, ...
    without a gap, each with the same total beside it, and there are never
    more of them than the total; when the call returns and the docs or the
    agents are selected, the last step shown is the total: every announced
    step is reached. *)
Theorem generateScaffolds_step_numbers {W} (deps : InitService.InitServiceDependencies W)
        options repo skip (s : InitService.InitState W) :
  let out := InitService.generateScaffolds deps options repo skip s in
  let total := InitService.totalSteps options skip in
  exists k, (k <= total)%nat /\
    InitService.shown_steps (InitService.is_ui out.2)
    = InitService.shown_steps (InitService.is_ui s) ++ ((fun i => (i, total)) <$> seq 1 k) /\
    (resolved out = true ->
     InitService.scaffoldDocs options || InitService.scaffoldAgents options = true ->
     k = total).
Proof. apply generateScaffolds_steps. Qed.

Lemma generateScaffolds_step_numbers_witness :
  let out := InitService.generateScaffolds (demo_init_deps false false)
               (InitService.initOptions (demo_init_deps false false) (js "repo") (js "both")
                  demo_raw)
               {| InitService.totalFiles := 1; InitService.directories := [] |}
               {| InitService.skipDocs := true; InitService.skipAgents := false;
                  InitService.skipSkills := false |}
               {| InitService.is_world := demo_init_fs; InitService.is_ui := [] |} in
  InitService.shown_steps (InitService.is_ui out.2) = [(1, 3); (2, 3); (3, 3)]%nat.
Proof.
  cbv zeta.
  destruct (generateScaffolds_step_numbers (demo_init_deps false false)
              (InitService.initOptions (demo_init_deps false false) (js "repo") (js "both")
                 demo_raw)
              {| InitService.totalFiles := 1; InitService.directories := [] |}
              {| InitService.skipDocs := true; InitService.skipAgents := false;
                 InitService.skipSkills := false |}
              {| InitService.is_world := demo_init_fs; InitService.is_ui := [] |})
    as (k & _ & Hsteps & Hk).
  cbv zeta in Hsteps, Hk. rewrite Hsteps, Hk; [|vm_compute; reflexivity..].
  vm_compute. reflexivity.
Defined.

Section InitFailures.

Context {W : Type} (deps : InitService.InitServiceDependencies W).

Lemma docsBlock_rejects options repo skip filtered cur s e :
  (InitService.docsBlock deps options repo skip filtered cur s).1 = inl e ->
  InitService.scaffoldDocs options && negb (InitService.skipDocs skip) = true /\
  exists go w,
    (InitService.dep_generateDocumentation deps repo (InitService.outputDir options) go
       (InitService.verbose options) w).1 = inl e.
Proof.
  unfold InitService.docsBlock. destruct (_ && _); [|done].
  unfold ebind, InitService.display, InitService.io, eret.
  cbn [InitService.is_world InitService.is_ui].
  destruct (InitService.dep_generateDocumentation _ _ _ _ _ _) as [[e'|n] w] eqn:E; [|done].
  intros [= <-]. split; [done|]. eexists _, _. by rewrite E.
Qed.

Lemma agentsBlock_rejects options repo skip filtered cur s e :
  (InitService.agentsBlock deps options repo skip filtered cur s).1 = inl e ->
  InitService.scaffoldAgents options && negb (InitService.skipAgents skip) = true /\
  exists go w,
    (InitService.dep_generateAgentPrompts deps repo (InitService.outputDir options) go
       (InitService.verbose options) w).1 = inl e.
Proof.
  unfold InitService.agentsBlock. destruct (_ && _); [|done].
  unfold ebind, InitService.display, InitService.io, eret.
  cbn [InitService.is_world InitService.is_ui].
  destruct (InitService.dep_generateAgentPrompts _ _ _ _ _ _) as [[e'|n] w] eqn:E; [|done].
  intros [= <-]. split; [done|]. eexists _, _. by rewrite E.
Qed.

Lemma filtered_resolves options s :
  resolved (InitService.tryCatch
              (InitService.io (InitService.dep_filteredScaffolds deps
                                 (InitService.repoPath options)))
              (eret (None, None)) s) = true.
Proof.
  unfold resolved, InitService.tryCatch, InitService.io.
  by destruct (InitService.dep_filteredScaffolds _ _ _) as [[e|r] w].
Qed.

Lemma generateScaffolds_rejects options repo skip s e :
  (InitService.generateScaffolds deps options repo skip s).1 = inl e ->
  (InitService.scaffoldDocs options && negb (InitService.skipDocs skip) = true /\
   exists go w,
     (InitService.dep_generateDocumentation deps repo (InitService.outputDir options) go
        (InitService.verbose options) w).1 = inl e) \/
  (InitService.scaffoldAgents options && negb (InitService.skipAgents skip) = true /\
   exists go w,
     (InitService.dep_generateAgentPrompts deps repo (InitService.outputDir options) go
        (InitService.verbose options) w).1 = inl e).
Proof.
  unfold InitService.generateScaffolds, ebind.
  pose proof (filtered_resolves options s) as H0. unfold resolved in H0.
  destruct (InitService.tryCatch _ _ s) as [[e0|filtered] s0]; [done|]. clear H0.
  destruct (InitService.docsBlock deps options repo skip filtered.1 1 s0)
    as [[e1|docs] s1] eqn:E1.
  { intros [= <-]. left. apply (docsBlock_rejects options repo skip filtered.1 1 s0).
    by rewrite E1. }
  destruct (InitService.agentsBlock deps options repo skip filtered.2 docs.2 s1)
    as [[e2|agents] s2] eqn:E2.
  { intros [= <-]. right. apply (agentsBlock_rejects options repo skip filtered.2 docs.2 s1).
    by rewrite E2. }
  destruct (skillsBlock_steps deps options skip agents.2 s2) as (_ & _ & Hs).
  unfold resolved in Hs.
  destruct (InitService.skillsBlock deps options skip agents.2 s2) as [[e3|skills] s3];
    [done|].
  destruct (commandsBlock_steps deps options skip skills.2 s3) as (_ & Hc).
  unfold resolved in Hc.
  by destruct (InitService.commandsBlock deps options skip skills.2 s3) as [[e4|commands] s4].
Qed.

End InitFailures.

(** X22.  [generateScaffolds] rejects only with what the documentation
    generator or the agent generator threw, and only when that generator's
    category is selected and not skipped: a failure of the stack detection,
    of the skill generator or of [generateCommands] never makes it
    reject. *)
Theorem generateScaffolds_rejects_only_generators
        {W} (deps : InitService.InitServiceDependencies W)
        options repo skip (s : InitService.InitState W) e :
  (InitService.generateScaffolds deps options repo skip s).1 = inl e ->
  (InitService.scaffoldDocs options && negb (InitService.skipDocs skip) = true /\
   exists go w,
     (InitService.dep_generateDocumentation deps repo (InitService.outputDir options) go
        (InitService.verbose options) w).1 = inl e) \/
  (InitService.scaffoldAgents options && negb (InitService.skipAgents skip) = true /\
   exists go w,
     (InitService.dep_generateAgentPrompts deps repo (InitService.outputDir options) go
        (InitService.verbose options) w).1 = inl e).
Proof. apply generateScaffolds_rejects. Qed.

Lemma generateScaffolds_rejects_only_generators_witness :
  InitService.scaffoldDocs
    (InitService.initOptions (demo_init_deps true false) (js "repo") (js "both") demo_raw)
  && negb false = true.
Proof.
  destruct (generateScaffolds_rejects_only_generators (demo_init_deps true false)
              (InitService.initOptions (demo_init_deps true false) (js "repo") (js "both")
                 demo_raw)
              {| InitService.totalFiles := 1; InitService.directories := [] |}
              {| InitService.skipDocs := false; InitService.skipAgents := false;
                 InitService.skipSkills := false |}
              {| InitService.is_world := demo_init_fs; InitService.is_ui := [] |}
              (ErrorObject (js "docs failed")))
    as [[Hd _]|[_ (go & w & Hw)]].
  - vm_compute. reflexivity.
  - exact Hd.
  - cbn in Hw. discriminate.
Defined.

(** X23.  A category that is not selected, or whose overwrite was declined,
    is not generated: [generateScaffolds] does not call its generator (the
    outcome is the same with any other generator in its place), and the
    count it returns for the category is 0. *)
Theorem skipped_category_not_generated
        {W} (deps : InitService.InitServiceDependencies W) docs agents skills
        options repo skip (s : InitService.InitState W) :
  (InitService.scaffoldDocs options && negb (InitService.skipDocs skip) = false \/
   docs = InitService.dep_generateDocumentation deps) ->
  (InitService.scaffoldAgents options && negb (InitService.skipAgents skip) = false \/
   agents = InitService.dep_generateAgentPrompts deps) ->
  (InitService.scaffoldSkills options && negb (InitService.skipSkills skip) = false \/
   skills = InitService.dep_generateSkills deps) ->
  InitService.generateScaffolds (with_generators deps docs agents skills) options repo skip s
  = InitService.generateScaffolds deps options repo skip s /\
  forall counts,
    (InitService.generateScaffolds deps options repo skip s).1 = inr counts ->
    (InitService.scaffoldDocs options && negb (InitService.skipDocs skip) = false ->
     InitService.docsGenerated counts = 0%nat) /\
    (InitService.scaffoldAgents options && negb (InitService.skipAgents skip) = false ->
     InitService.agentsGenerated counts = 0%nat) /\
    (InitService.scaffoldSkills options && negb (InitService.skipSkills skip) = false ->
     InitService.skillsGenerated counts = 0%nat).
Proof.
  intros Hd Ha Hs. split.
  - unfold InitService.generateScaffolds, InitService.docsBlock, InitService.agentsBlock,
      InitService.skillsBlock, InitService.commandsBlock, InitService.totalSteps.
    cbn [with_generators InitService.dep_fs InitService.dep_t InitService.dep_relative
         InitService.dep_filteredScaffolds InitService.dep_generateDocumentation
         InitService.dep_generateAgentPrompts InitService.dep_generateSkills].
    destruct Hd as [->| ->], Ha as [->| ->], Hs as [->| ->]; reflexivity.
  - intros counts. unfold InitService.generateScaffolds, ebind.
    destruct (InitService.tryCatch _ _ s) as [[e0|filtered] s0]; [done|].
    destruct (InitService.docsBlock deps options repo skip filtered.1 1 s0)
      as [[e1|d] s1] eqn:E1; [done|].
    destruct (InitService.agentsBlock deps options repo skip filtered.2 d.2 s1)
      as [[e2|a] s2] eqn:E2; [done|].
    destruct (InitService.skillsBlock deps options skip a.2 s2) as [[e3|k] s3] eqn:E3; [done|].
    destruct (InitService.commandsBlock deps options skip k.2 s3) as [[e4|c] s4]; [done|].
    unfold eret. intros [= <-]. cbn [InitService.docsGenerated InitService.agentsGenerated
      InitService.skillsGenerated].
    split; [|split]; intros Hoff.
    + unfold InitService.docsBlock in E1. rewrite Hoff in E1. by injection E1 as <- _.
    + unfold InitService.agentsBlock in E2. rewrite Hoff in E2. by injection E2 as <- _.
    + unfold InitService.skillsBlock in E3. rewrite Hoff in E3. by injection E3 as <- _.
Qed.

Lemma skipped_category_not_generated_witness :
  let deps := demo_init_deps false false in
  let options := InitService.initOptions deps (js "repo") (js "both") demo_raw in
  let skip := {| InitService.skipDocs := true; InitService.skipAgents := false;
                 InitService.skipSkills := false |} in
  let repo := {| InitService.totalFiles := 1; InitService.directories := [] |} in
  let s := {| InitService.is_world := demo_init_fs; InitService.is_ui := [] |} in
  InitService.generateScaffolds
    (with_generators deps (fun _ _ _ _ m => (inl (ErrorObject (js "docs failed")), m))
       (InitService.dep_generateAgentPrompts deps) (InitService.dep_generateSkills deps))
    options repo skip s
  = InitService.generateScaffolds deps options repo skip s.
Proof.
  cbv zeta.
  apply (skipped_category_not_generated (demo_init_deps false false)).
  - left. vm_compute. reflexivity.
  - by right.
  - by right.
Defined.

Lemma directoryHasContent_mem (deps : InitService.InitServiceDependencies (gmap path node))
      dir m ui :
  InitService.dep_fs deps = memfs ->
  (forall c, lookup_node m dir <> Some (File c)) ->
  InitService.directoryHasContent deps dir
    {| InitService.is_world := m; InitService.is_ui := ui |}
  = (inr (has_entries m dir), {| InitService.is_world := m; InitService.is_ui := ui |}).
Proof.
  intros Hfs Hfile. unfold InitService.directoryHasContent. rewrite Hfs.
  unfold ebind, InitService.io, pathExists, has_entries.
  cbn [memfs fs_pathExists fs_readdir InitService.is_world InitService.is_ui].
  unfold mem_pathExists, mem_readdir.
  destruct (lookup_node m dir) as [[c|]|] eqn:E; [by destruct (Hfile c)|..]; cbn; by rewrite ?E.
Qed.

Lemma confirm_block (deps : InitService.InitServiceDependencies (gmap path node))
      (selected : bool) dir msg m ui answer :
  InitService.dep_fs deps = memfs ->
  (forall msg w, InitService.dep_prompt deps msg w = (inr answer, w)) ->
  (selected = true -> forall c, lookup_node m dir <> Some (File c)) ->
  (if selected then
     await has <- InitService.directoryHasContent deps dir;
     if has then
       await overwrite <- InitService.io (InitService.dep_prompt deps msg);
       eret (negb overwrite)
     else eret false
   else eret false) {| InitService.is_world := m; InitService.is_ui := ui |}
  = (inr (selected && has_entries m dir && negb answer),
     {| InitService.is_world := m; InitService.is_ui := ui |}).
Proof.
  intros Hfs Hprompt Hfile. destruct selected; [|done].
  unfold ebind. rewrite (directoryHasContent_mem deps dir m ui Hfs (Hfile eq_refl)).
  destruct (has_entries m dir); [|done].
  unfold InitService.io. cbn [InitService.is_world InitService.is_ui].
  by rewrite Hprompt.
Qed.

(** X24.  On the in-memory file system, with a prompt that always answers
    [answer], and when none of [docs], [agents] and [skills] under the
    output directory is a regular file if its category is selected (on such
    a file the directory listing rejects), [confirmOverwriteIfNeeded] marks
    a category as skipped exactly when it is selected, its directory has an
    entry and the answer is no; a category that is not selected or whose
    directory is absent or empty is never skipped.  The call displays
    nothing and changes no file. *)
Theorem confirmOverwrite_skips (deps : InitService.InitServiceDependencies (gmap path node))
        options m ui answer :
  InitService.dep_fs deps = memfs ->
  (forall msg w, InitService.dep_prompt deps msg w = (inr answer, w)) ->
  (InitService.scaffoldDocs options = true ->
   forall c, m !! path_join (InitService.outputDir options) (js "docs") <> Some (File c)) ->
  (InitService.scaffoldAgents options = true ->
   forall c, m !! path_join (InitService.outputDir options) (js "agents") <> Some (File c)) ->
  (InitService.scaffoldSkills options = true ->
   forall c, m !! path_join (InitService.outputDir options) (js "skills") <> Some (File c)) ->
  InitService.confirmOverwriteIfNeeded deps options
    {| InitService.is_world := m; InitService.is_ui := ui |}
  = (inr {| InitService.skipDocs :=
              InitService.scaffoldDocs options
              && has_entries m (path_join (InitService.outputDir options) (js "docs"))
              && negb answer;
            InitService.skipAgents :=
              InitService.scaffoldAgents options
              && has_entries m (path_join (InitService.outputDir options) (js "agents"))
              && negb answer;
            InitService.skipSkills :=
              InitService.scaffoldSkills options
              && has_entries m (path_join (InitService.outputDir options) (js "skills"))
              && negb answer |},
     {| InitService.is_world := m; InitService.is_ui := ui |}).
Proof.
  intros Hfs Hprompt Hd Ha Hs.
  unfold InitService.confirmOverwriteIfNeeded. cbv zeta.
  unfold ebind at 1. rewrite (confirm_block deps _ _ _ m ui answer Hfs Hprompt)
    by (intros Hsel c; rewrite lookup_node_join; by apply Hd).
  unfold ebind at 1. rewrite (confirm_block deps _ _ _ m ui answer Hfs Hprompt)
    by (intros Hsel c; rewrite lookup_node_join; by apply Ha).
  unfold ebind at 1. rewrite (confirm_block deps _ _ _ m ui answer Hfs Hprompt)
    by (intros Hsel c; rewrite lookup_node_join; by apply Hs).
  reflexivity.
Qed.

(** The output directory holds a file [README.md] beside the [docs]
    directory, and the docs only are selected. *)
Lemma confirmOverwrite_skips_witness :
  (InitService.confirmOverwriteIfNeeded (demo_init_deps false false)
     (InitService.initOptions (demo_init_deps false false) (js "repo") (js "docs") demo_raw)
     {| InitService.is_world := <[[js "out"; js "README.md"] := File (js "# out")]> demo_init_fs;
        InitService.is_ui := [] |}).1
  = inr {| InitService.skipDocs := true; InitService.skipAgents := false;
           InitService.skipSkills := false |}.
Proof.
  rewrite (confirmOverwrite_skips (demo_init_deps false false) _
             (<[[js "out"; js "README.md"] := File (js "# out")]> demo_init_fs) [] false).
  - cbn [fst]. vm_compute. reflexivity.
  - reflexivity.
  - reflexivity.
  - intros _ c H. apply (f_equal (fun x => match x with Some (File _) => true | _ => false end)) in H.
    vm_compute in H. discriminate.
  - intros H. vm_compute in H. discriminate.
  - intros H. vm_compute in H. discriminate.
Defined.

(** X25.  On the in-memory file system, [run] on a repository path that
    does not exist rejects with the [repoMissing] message and does nothing
    else: the output directory is not made, nothing is asked and nothing is
    displayed. *)
Theorem init_missing_repo (deps : InitService.InitServiceDependencies (gmap path node))
        repo type raw m ui r :
  InitService.dep_fs deps = memfs ->
  InitService.resolveScaffoldType (InitService.dep_unicodeLower deps) (InitService.dep_t deps)
    type raw = inr r ->
  lookup_node m (InitService.dep_resolve deps repo) = None ->
  InitService.run deps repo type raw {| InitService.is_world := m; InitService.is_ui := ui |}
  = (inl (ErrorObject (InitService.dep_t deps (js "errors.common.repoMissing")
                         [(js "path", InitService.PPath (InitService.dep_resolve deps repo))])),
     {| InitService.is_world := m; InitService.is_ui := ui |}).
Proof.
  intros Hfs Hr Hrepo. unfold InitService.run. rewrite Hr. cbv zeta.
  pose proof (initOptions_selected deps repo r raw (resolveScaffoldType_allowed _ _ _ _ _ Hr))
    as Hsel.
  replace (negb (InitService.scaffoldDocs (InitService.initOptions deps repo r raw))
           && negb (InitService.scaffoldAgents (InitService.initOptions deps repo r raw)))
    with false
    by (by destruct (InitService.scaffoldDocs _), (InitService.scaffoldAgents _)).
  unfold ebind at 1. unfold InitService.ensurePaths. rewrite Hfs.
  unfold ebind at 1. unfold InitService.io, pathExists.
  cbn [memfs fs_pathExists InitService.is_world InitService.is_ui InitService.repoPath
       InitService.initOptions].
  unfold mem_pathExists. rewrite Hrepo. reflexivity.
Qed.

Lemma init_missing_repo_witness :
  resolved (InitService.run (demo_init_deps false false) (js "nowhere") (js "docs") demo_raw
              {| InitService.is_world := demo_init_fs; InitService.is_ui := [] |}) = false.
Proof.
  rewrite (init_missing_repo (demo_init_deps false false) (js "nowhere") (js "docs") demo_raw
             demo_init_fs [] (js "docs")).
  - reflexivity.
  - reflexivity.
  - vm_compute. reflexivity.
  - vm_compute. reflexivity.
Defined.
